(** * uWSGI Prometheus exporter plugin (plugin.c): model and properties

    The plugin walks uWSGI's metric registry, turns every dotted metric name
    into a flat Prometheus name plus positional labels, and renders the
    exposition text.  The text is served either by a route handler or by a
    small HTTP responder polled from the master cycle.

    The C code is embedded function by function.  Calls into the uWSGI core and
    the operating system (buffer growth, allocation, logging, the metrics lock,
    response primitives, sockets) are steps of a state monad over a [world]
    that scripts their outcomes and records them in a trace. *)

From Stdlib Require Import String Ascii List Bool Arith ZArith Lia DecimalString.
From Stdlib Require DecimalNat DecimalPos Nnat.
Import ListNotations.

Set Implicit Arguments.

(* ===================================================================== *)
(** ** Bytes *)
(* ===================================================================== *)

Definition bytes := list ascii.

(** A C string literal. *)
Definition txt (s : string) : bytes := list_ascii_of_string s.

Definition DQUOTE : ascii := ascii_of_nat 34.
Definition LF : ascii := ascii_of_nat 10.
Definition CR : ascii := ascii_of_nat 13.
Definition CRLF : bytes := [CR; LF].

Definition bytes_eq_dec : forall a b : bytes, {a = b} + {a <> b} :=
  list_eq_dec ascii_dec.

(** [memcmp(a, b, n) == 0] on two areas of equal length. *)
Definition bytes_eqb (a b : bytes) : bool :=
  if bytes_eq_dec a b then true else false.

(** [c >= lo && c <= hi] on a [char].  Both bounds are ASCII in every use, so
    the signedness of [char] does not matter. *)
Definition between (lo hi c : ascii) : bool :=
  (nat_of_ascii lo <=? nat_of_ascii c) && (nat_of_ascii c <=? nat_of_ascii hi).

Definition is_digit (c : ascii) : bool := between "0" "9" c.

Definition is_dot (c : ascii) : bool := Ascii.eqb c ".".

(** [memcmp(a, b, n)] on two areas of [n] bytes: zero when they are equal,
    else the difference of the first two bytes that differ. *)
Fixpoint memcmp (a b : bytes) : Z :=
  match a, b with
  | x :: a', y :: b' =>
      if Ascii.eqb x y then memcmp a' b'
      else (Z.of_nat (nat_of_ascii x) - Z.of_nat (nat_of_ascii y))%Z
  | _, _ => 0%Z
  end.

(** What [uwsgi_starts_with(src, slen, dst, dlen)] of the uWSGI core
    computes: [-1] when [src] is the shorter one, else
    [memcmp(src, dst, dlen)], so that zero says that [src] starts with
    [dst]. *)
Definition starts_with_memcmp (src dst : bytes) : Z :=
  if length src <? length dst then (-1)%Z
  else memcmp (firstn (length dst) src) dst.

(** An [int] used as a condition. *)
Definition nonzero (n : Z) : bool := negb (n =? 0)%Z.

(** [s] begins with [pat]. *)
Fixpoint begins_with (s pat : bytes) : bool :=
  match pat, s with
  | [], _ => true
  | d :: pat', c :: s' => Ascii.eqb c d && begins_with s' pat'
  | _ :: _, [] => false
  end.

(** The text [snprintf("%lld")] gives for an [int64_t]. *)
Definition decimal (v : Z) : bytes :=
  list_ascii_of_string (NilZero.string_of_int (Z.to_int v)).

(* ===================================================================== *)
(** ** The world outside the plugin *)
(* ===================================================================== *)

(** The four [struct uwsgi_buffer] objects the plugin creates. *)
Inductive buffer_id := OUTPUT | NAME | LABELS | RESPONSE.

(** Values of [errno] after a call of [accept] that has failed and has left
    the connection it met in the queue: a signal, nothing to accept, and
    the lack of a descriptor or of memory. *)
Inductive errno := EINTR | EAGAIN | EWOULDBLOCK | EMFILE | ENFILE | ENOBUFS | ENOMEM.

(** What a client does that has sent nothing by the time the server reads
    from it: it keeps the connection and stays silent, it has closed its end,
    or it has reset the connection. *)
Inductive idle_client := StaysConnected | HasHungUp | HasReset.

(** A connection to the dedicated server: who the client is; what it has
    sent by the time the server reads from it; what it does if that is
    nothing; and the errors with which [accept] fails, one call after the
    other, before a call returns this connection. *)
Record conn := {
  peer : nat;
  request : bytes;
  silence : idle_client;
  refused : list errno
}.

(** What a thread of the plugin does that is seen outside it, in the order
    it is done: the calls into the uWSGI core and the system, the read of a
    metric value, and the step to the next record. *)
Inductive event :=
| EvBufferNew (b : buffer_id) (ok : bool)      (* uwsgi_buffer_new *)
| EvAppend (b : buffer_id) (ok : bool)         (* uwsgi_buffer_append, uwsgi_buffer_num64 *)
| EvMalloc (ok : bool)                         (* uwsgi_malloc *)
| EvLog (msg : string)                         (* uwsgi_log, uwsgi_error *)
| EvRlock                                      (* uwsgi_rlock(uwsgi.metrics_lock) *)
| EvWlock                                      (* uwsgi_wlock(uwsgi.metrics_lock) *)
| EvRwunlock                                   (* uwsgi_rwunlock(uwsgi.metrics_lock) *)
| EvDeref                                      (* *um->value *)
| EvNext                                       (* um = um->next *)
| EvPrepareHeaders (status : bytes) (ok : bool)
| EvAddContentType (ctype : bytes) (ok : bool)
| EvAddContentLength (n : nat) (ok : bool)
| EvWriteBody (body : bytes) (ok : bool)
| EvSelect (ready : bool)
| EvAccept (c : conn)
| EvFcntl (c : conn)
| EvRead (c : conn) (rlen : Z)
| EvWrite (c : conn) (data : bytes) (ok : bool)
| EvClose (c : conn).

(** [reallocs], [mallocs] and [host] script the outcome of the coming calls
    that may fail: growing a buffer, allocating, and writing through the host
    or a socket.  A script that has run out means success.  [backlog] is the
    accept queue of the listening socket. *)
Record world := {
  reallocs : list bool;
  mallocs : list bool;
  host : list bool;
  backlog : list conn;
  trace : list event
}.

Definition quiet : world :=
  {| reallocs := []; mallocs := []; host := []; backlog := []; trace := [] |}.

Definition pop (script : list bool) : bool * list bool :=
  match script with
  | [] => (true, [])
  | b :: rest => (b, rest)
  end.

(** A script without a failure. *)
Definition unfailing (script : list bool) : Prop := forallb (fun b => b) script = true.

(** No allocation through [uwsgi_malloc] or [uwsgi_buffer_new] returns NULL. *)
Definition never_null (w : world) : Prop := unfailing (mallocs w).

(** No buffer fails to grow. *)
Definition never_short (w : world) : Prop := unfailing (reallocs w).

Definition io (A : Type) := world -> A * world.

Definition ret {A} (a : A) : io A := fun w => (a, w).

Definition bind {A B} (m : io A) (k : A -> io B) : io B :=
  fun w => let (a, w1) := m w in k a w1.

(** [if (call(...)) goto error;] and [if (call(...)) return -1;] *)
Definition try {A B} (m : io (option A)) (k : A -> io (option B)) : io (option B) :=
  bind m (fun r => match r with Some a => k a | None => ret None end).

Declare Scope io_scope.
Delimit Scope io_scope with io.
Notation "x <- m ;; k" := (bind m (fun x => k))
  (at level 61, m at next level, right associativity) : io_scope.
Notation "x <-? m ;; k" := (try m (fun x => k))
  (at level 61, m at next level, right associativity) : io_scope.
Notation "m ;; k" := (bind m (fun _ => k))
  (at level 61, right associativity) : io_scope.
Open Scope io_scope.

Definition emit (e : event) : io unit :=
  fun w => (tt, {| reallocs := reallocs w; mallocs := mallocs w; host := host w;
                   backlog := backlog w; trace := trace w ++ [e] |}).

Definition next_realloc : io bool :=
  fun w => let (ok, rest) := pop (reallocs w) in
           (ok, {| reallocs := rest; mallocs := mallocs w; host := host w;
                   backlog := backlog w; trace := trace w |}).

Definition next_malloc : io bool :=
  fun w => let (ok, rest) := pop (mallocs w) in
           (ok, {| reallocs := reallocs w; mallocs := rest; host := host w;
                   backlog := backlog w; trace := trace w |}).

Definition next_host : io bool :=
  fun w => let (ok, rest) := pop (host w) in
           (ok, {| reallocs := reallocs w; mallocs := mallocs w; host := rest;
                   backlog := backlog w; trace := trace w |}).

Definition uwsgi_log (msg : string) : io unit := emit (EvLog msg).

(* ===================================================================== *)
(** ** uwsgi_buffer *)
(* ===================================================================== *)

(** [buf] holds the [pos] bytes written so far. *)
Record uwsgi_buffer := { ident : buffer_id; buf : bytes }.

Definition pos (ub : uwsgi_buffer) : nat := length (buf ub).

Definition uwsgi_buffer_new (id : buffer_id) : io (option uwsgi_buffer) :=
  ok <- next_malloc ;;
  emit (EvBufferNew id ok) ;;
  ret (if ok then Some {| ident := id; buf := [] |} else None).

(** An append may have to grow the buffer, and growing may fail.  The result
    is [None] for the nonzero return of the C function. *)
Definition uwsgi_buffer_append (ub : uwsgi_buffer) (s : bytes) : io (option uwsgi_buffer) :=
  ok <- next_realloc ;;
  emit (EvAppend (ident ub) ok) ;;
  ret (if ok then Some {| ident := ident ub; buf := buf ub ++ s |} else None).

Definition uwsgi_buffer_num64 (ub : uwsgi_buffer) (v : Z) : io (option uwsgi_buffer) :=
  uwsgi_buffer_append ub (decimal v).

(** Consecutive [if (uwsgi_buffer_append(ub, ...)) goto error;] statements. *)
Fixpoint appends (ub : uwsgi_buffer) (chunks : list bytes) : io (option uwsgi_buffer) :=
  match chunks with
  | [] => ret (Some ub)
  | s :: rest => ub1 <-? uwsgi_buffer_append ub s ;; appends ub1 rest
  end.

(** [ub->pos = 0] *)
Definition rewind (ub : uwsgi_buffer) : uwsgi_buffer := {| ident := ident ub; buf := [] |}.

(* ===================================================================== *)
(** ** prometheus_format_metric_name *)
(* ===================================================================== *)

(** [sizeof(segment)] for [char segment[256]]. *)
Definition SEGMENT_SIZE : nat := 256.

Definition label_names : list bytes :=
  [txt "worker"; txt "core"; txt "thread"; txt "id"].

(** What a byte of the name is stored as in [segment]. *)
Definition sanitize (c : ascii) : ascii :=
  if between "a" "z" c || between "A" "Z" c || between "0" "9" c || Ascii.eqb c "_"
  then c else "_"%char.

(** The locals of the function that live across loop iterations;
    [segment_len] is the length of [segment]. *)
Record fmt := {
  name_buf : uwsgi_buffer;
  labels_buf : uwsgi_buffer;
  segment : bytes;
  label_index : nat;
  in_numeric_sequence : bool
}.

(** The inner loop over [segment[j]]. *)
Definition segment_is_numeric (seg : bytes) : bool := forallb is_digit seg.

(** The body of [if (i == metric_name_len || metric_name[i] == '.')]. *)
Definition end_of_segment (prefix : bytes) (s : fmt) : io (option fmt) :=
  if 0 <? length (segment s) then
    if segment_is_numeric (segment s) && (0 <? length (segment s)) then
      lb <-? (if label_index s <? 4 then
                lb0 <-? (if 0 <? pos (labels_buf s)
                         then uwsgi_buffer_append (labels_buf s) (txt ",")
                         else ret (Some (labels_buf s))) ;;
                appends lb0 [nth (label_index s) label_names []; txt "=" ++ [DQUOTE];
                             segment s; [DQUOTE]]
              else ret (Some (labels_buf s))) ;;
      ret (Some {| name_buf := name_buf s;
                   labels_buf := lb;
                   segment := [];
                   label_index := if label_index s <? 4 then S (label_index s)
                                  else label_index s;
                   in_numeric_sequence := true |})
    else
      nb0 <-? (if (length prefix <? pos (name_buf s)) && negb (in_numeric_sequence s)
               then uwsgi_buffer_append (name_buf s) (txt "_")
               else ret (Some (name_buf s))) ;;
      nb <-? uwsgi_buffer_append nb0 (segment s) ;;
      ret (Some {| name_buf := nb;
                   labels_buf := labels_buf s;
                   segment := [];
                   label_index := label_index s;
                   in_numeric_sequence := false |})
  else ret (Some s).

(** The [else] branch: one more byte of the current segment. *)
Definition store (s : fmt) (c : ascii) : fmt :=
  if length (segment s) <? SEGMENT_SIZE - 1 then
    {| name_buf := name_buf s;
       labels_buf := labels_buf s;
       segment := segment s ++ [sanitize c];
       label_index := label_index s;
       in_numeric_sequence := in_numeric_sequence s |}
  else s.

(** [for (i = 0; i <= metric_name_len; i++)], the last round being the one
    with [i == metric_name_len]. *)
Fixpoint scan (prefix : bytes) (metric_name : bytes) (s : fmt) : io (option fmt) :=
  match metric_name with
  | [] => end_of_segment prefix s
  | c :: rest =>
      s1 <-? (if is_dot c then end_of_segment prefix s else ret (Some (store s c))) ;;
      scan prefix rest s1
  end.

(** Returns the two buffers on [0] and [None] on [-1]. *)
Definition prometheus_format_metric_name (name_buf0 labels_buf0 : uwsgi_buffer)
    (metric_name : bytes) (prefix : bytes) : io (option (uwsgi_buffer * uwsgi_buffer)) :=
  nb <-? uwsgi_buffer_append (rewind name_buf0) prefix ;;
  s <-? scan prefix metric_name
          {| name_buf := nb; labels_buf := rewind labels_buf0; segment := [];
             label_index := 0; in_numeric_sequence := false |} ;;
  ret (Some (name_buf s, labels_buf s)).

(** The translation when nothing fails. *)
Definition translated (prefix metric_name : bytes) : option (bytes * bytes) :=
  match fst (prometheus_format_metric_name {| ident := NAME; buf := [] |}
               {| ident := LABELS; buf := [] |} metric_name prefix quiet) with
  | Some (nb, lb) => Some (buf nb, buf lb)
  | None => None
  end.

(* ===================================================================== *)
(** ** Configuration and registry *)
(* ===================================================================== *)

(** [struct uwsgi_metrics_prometheus_config ump_config]; a NULL string is
    [None]. *)
Record uwsgi_metrics_prometheus_config := {
  prefix : option bytes;
  no_workers : bool;
  include_help : bool;
  include_type : bool;
  server_address : option bytes;
  server_fd : Z
}.

(** The values of [um->type]. *)
Inductive metric_type :=
| UWSGI_METRIC_COUNTER
| UWSGI_METRIC_GAUGE
| UWSGI_METRIC_ABSOLUTE
| UWSGI_METRIC_ALIAS.

(** One node of the registry's linked list.  [name] and [value] are
    pointers: [None] is NULL, and [value] holds what [*um->value] reads. *)
Record uwsgi_metric := {
  name : option bytes;
  type : metric_type;
  value : option Z
}.

(** The fields of [struct uwsgi_server uwsgi] the plugin reads.  The registry
    is the list starting at [uwsgi.metrics]; the empty list is a NULL head. *)
Record uwsgi_server := {
  has_metrics : bool;
  metrics : list uwsgi_metric
}.

(* ===================================================================== *)
(** ** The set of seen names *)
(* ===================================================================== *)

Definition seen_names_create : list bytes := [].

Fixpoint seen_names_contains (head : list bytes) (name : bytes) : bool :=
  match head with
  | [] => false
  | current :: next =>
      if (length current =? length name) && bytes_eqb current name then true
      else seen_names_contains next name
  end.

Definition uwsgi_malloc : io bool :=
  ok <- next_malloc ;;
  emit (EvMalloc ok) ;;
  ret ok.

Definition seen_names_add (head : list bytes) (name : bytes) : io (list bytes) :=
  node <- uwsgi_malloc ;;
  if negb node then ret head
  else
    node_name <- uwsgi_malloc ;;
    if negb node_name then ret head
    else ret (name :: head).

(* ===================================================================== *)
(** ** prometheus_generate_metrics *)
(* ===================================================================== *)

Section Host.

(** [uwsgi_starts_with] belongs to the uWSGI core.  The plugin uses its
    result as a condition, and nothing below depends on what it returns. *)
Variable uwsgi_starts_with : bytes -> bytes -> Z.

(** What is carried from one record to the next: the output buffer and the
    seen names.  The two conversion buffers are rewound by every translation,
    so what they held before is never read. *)
Record pass := { ub : uwsgi_buffer; seen_names : list bytes }.

Definition prom_type (t : metric_type) : bytes :=
  match t with
  | UWSGI_METRIC_COUNTER => txt "counter"
  | UWSGI_METRIC_GAUGE => txt "gauge"
  | UWSGI_METRIC_ABSOLUTE => txt "gauge"
  | _ => txt "untyped"
  end.

Definition is_counter (t : metric_type) : bool :=
  match t with UWSGI_METRIC_COUNTER => true | _ => false end.

(** The three statements under the metrics lock. *)
Definition read_value (v : Z) : io Z :=
  emit EvRlock ;;
  emit EvDeref ;;
  emit EvRwunlock ;;
  ret v.

(** The rest of the loop body once the name, suffix included, is in
    [nb]. *)
Definition render (cfg : uwsgi_metrics_prometheus_config) (nb lb : uwsgi_buffer)
    (raw : bytes) (t : metric_type) (v : Z) (p : pass) : io (option pass) :=
  p1 <-? (if negb (seen_names_contains (seen_names p) (buf nb)) then
            ub1 <-? (if include_help cfg
                     then appends (ub p) [txt "# HELP "; buf nb; txt " "; raw; [LF]]
                     else ret (Some (ub p))) ;;
            ub2 <-? (if include_type cfg
                     then appends ub1 [txt "# TYPE "; buf nb; txt " "; prom_type t; [LF]]
                     else ret (Some ub1)) ;;
            seen <- seen_names_add (seen_names p) (buf nb) ;;
            ret (Some {| ub := ub2; seen_names := seen |})
          else ret (Some p)) ;;
  ub3 <-? uwsgi_buffer_append (ub p1) (buf nb) ;;
  ub4 <-? (if 0 <? pos lb
           then appends ub3 [txt "{"; buf lb; txt "}"]
           else ret (Some ub3)) ;;
  ub5 <-? uwsgi_buffer_append ub4 (txt " ") ;;
  n <- read_value v ;;
  ub6 <-? uwsgi_buffer_num64 ub5 n ;;
  ub7 <-? uwsgi_buffer_append ub6 [LF] ;;
  ret (Some {| ub := ub7; seen_names := seen_names p1 |}).

(** One round of [while (um)] up to, and not including, [um = um->next].
    [Some] is a round that ends in [continue] or at the end of the body;
    [None] is [goto error]. *)
Definition visit (cfg : uwsgi_metrics_prometheus_config) (pfx : bytes)
    (nb0 lb0 : uwsgi_buffer) (um : uwsgi_metric) (p : pass) : io (option pass) :=
  match name um, value um with
  | Some raw, Some v =>
      if length raw =? 0 then ret (Some p)
      else if no_workers cfg && nonzero (uwsgi_starts_with raw (txt "worker.")) then ret (Some p)
      else
        r <- prometheus_format_metric_name nb0 lb0 raw pfx ;;
        match r with
        | None => uwsgi_log "[prometheus] Failed to format metric" ;; ret (Some p)
        | Some (nb, lb) =>
            if pos nb =? 0 then ret (Some p)
            else if is_counter (type um) then
              r1 <- uwsgi_buffer_append nb (txt "_total") ;;
              match r1 with
              | None => uwsgi_log "[prometheus] Failed to append _total suffix" ;;
                        ret (Some p)
              | Some nb1 => render cfg nb1 lb raw (type um) v p
              end
            else render cfg nb lb raw (type um) v p
        end
  | _, _ => ret (Some p)
  end.

Fixpoint walk (cfg : uwsgi_metrics_prometheus_config) (pfx : bytes)
    (nb0 lb0 : uwsgi_buffer) (um : list uwsgi_metric) (p : pass) : io (option pass) :=
  match um with
  | [] => ret (Some p)
  | m :: next =>
      p1 <-? visit cfg pfx nb0 lb0 m p ;;
      emit EvNext ;;
      walk cfg pfx nb0 lb0 next p1
  end.

Definition default_prefix : bytes := txt "uwsgi_".

(** [!uwsgi.has_metrics || !uwsgi.metrics] *)
Definition unavailable (uwsgi : uwsgi_server) : bool :=
  negb (has_metrics uwsgi) || (match metrics uwsgi with [] => true | _ => false end).

(** [None] is the NULL result.  Destroying a buffer frees memory and has no
    other effect, so it is left out. *)
Definition prometheus_generate_metrics (cfg : uwsgi_metrics_prometheus_config)
    (uwsgi : uwsgi_server) : io (option uwsgi_buffer) :=
  r <- uwsgi_buffer_new OUTPUT ;;
  match r with
  | None => uwsgi_log "[prometheus] Failed to allocate output buffer" ;; ret None
  | Some out =>
      rn <- uwsgi_buffer_new NAME ;;
      rl <- uwsgi_buffer_new LABELS ;;
      match rn, rl with
      | Some nb0, Some lb0 =>
          let pfx := match prefix cfg with Some p => p | None => default_prefix end in
          if unavailable uwsgi
          then uwsgi_log "[prometheus] No metrics available" ;; ret (Some out)
          else
            p <-? walk cfg pfx nb0 lb0 (metrics uwsgi)
                    {| ub := out; seen_names := seen_names_create |} ;;
            ret (Some (ub p))
      | _, _ => uwsgi_log "[prometheus] Failed to allocate conversion buffers" ;; ret None
      end
  end.

(* ===================================================================== *)
(** ** The route handler *)
(* ===================================================================== *)

Inductive route_result := UWSGI_ROUTE_NEXT | UWSGI_ROUTE_CONTINUE | UWSGI_ROUTE_BREAK.

(** The response primitives of the host; [true] is the zero return. *)
Definition uwsgi_response_prepare_headers (status : bytes) : io bool :=
  ok <- next_host ;; emit (EvPrepareHeaders status ok) ;; ret ok.

Definition uwsgi_response_add_content_type (ctype : bytes) : io bool :=
  ok <- next_host ;; emit (EvAddContentType ctype ok) ;; ret ok.

Definition uwsgi_response_add_content_length (n : nat) : io bool :=
  ok <- next_host ;; emit (EvAddContentLength n ok) ;; ret ok.

Definition uwsgi_response_write_body_do (body : bytes) : io bool :=
  ok <- next_host ;; emit (EvWriteBody body ok) ;; ret ok.

Definition not_initialized_msg : bytes :=
  txt "Metrics subsystem not initialized. Enable with --enable-metrics" ++ [LF].

Definition failed_msg : bytes := txt "Failed to generate metrics" ++ [LF].

Definition content_type : bytes := txt "text/plain; version=0.0.4; charset=utf-8".

Definition uwsgi_routing_func_prometheus_metrics (cfg : uwsgi_metrics_prometheus_config)
    (uwsgi : uwsgi_server) : io route_result :=
  if unavailable uwsgi then
    uwsgi_log "[prometheus] Metrics subsystem not initialized. Did you enable metrics with --enable-metrics?" ;;
    ok <- uwsgi_response_prepare_headers (txt "503 Service Unavailable") ;;
    if negb ok then ret UWSGI_ROUTE_BREAK
    else uwsgi_response_write_body_do not_initialized_msg ;; ret UWSGI_ROUTE_BREAK
  else
    r <- prometheus_generate_metrics cfg uwsgi ;;
    match r with
    | None =>
        uwsgi_log "[prometheus] Failed to generate metrics buffer" ;;
        ok <- uwsgi_response_prepare_headers (txt "500 Internal Server Error") ;;
        if negb ok then ret UWSGI_ROUTE_BREAK
        else uwsgi_response_write_body_do failed_msg ;; ret UWSGI_ROUTE_BREAK
    | Some m =>
        ok <- uwsgi_response_prepare_headers (txt "200 OK") ;;
        if negb ok then ret UWSGI_ROUTE_BREAK
        else
          ok1 <- uwsgi_response_add_content_type content_type ;;
          if negb ok1 then ret UWSGI_ROUTE_BREAK
          else
            ok2 <- uwsgi_response_add_content_length (pos m) ;;
            if negb ok2 then ret UWSGI_ROUTE_BREAK
            else
              ok3 <- uwsgi_response_write_body_do (buf m) ;;
              if negb ok3 then ret UWSGI_ROUTE_BREAK
              else ret UWSGI_ROUTE_BREAK
    end.

(* ===================================================================== *)
(** ** The dedicated server *)
(* ===================================================================== *)

(** [accept] on the listening socket, which is non-blocking and has one
    reader.  With nobody waiting it fails with [EAGAIN].  Else it meets the
    connection at the head of the queue: it returns it and takes it off the
    queue, or it fails with the next of the errors that are due before that
    and leaves the connection where it is.  [inr] is the return of [-1] with
    [errno] set. *)
Definition accept : io (conn + errno) :=
  fun w => match backlog w with
           | [] => (inr EAGAIN, w)
           | c :: rest =>
               match refused c with
               | e :: later =>
                   (inr e,
                    {| reallocs := reallocs w; mallocs := mallocs w; host := host w;
                       backlog := {| peer := peer c; request := request c;
                                     silence := silence c; refused := later |} :: rest;
                       trace := trace w |})
               | [] =>
                   (inl c,
                    {| reallocs := reallocs w; mallocs := mallocs w; host := host w;
                       backlog := rest; trace := trace w ++ [EvAccept c] |})
               end
           end.

(** [errno != EINTR && errno != EAGAIN && errno != EWOULDBLOCK] *)
Definition worth_a_log (e : errno) : bool :=
  match e with
  | EINTR | EAGAIN | EWOULDBLOCK => false
  | _ => true
  end.

(** [select] with a zero timeout on the listening socket alone: the socket
    is readable when a connection waits. *)
Definition select : io bool :=
  fun w => let ready := match backlog w with [] => false | _ => true end in
           (ready, snd (emit (EvSelect ready) w)).

(** [read(client_fd, request_buf, count)] on the accepted socket, which the
    caller has made blocking.  It returns the number of bytes it has got,
    [count] at most, when the client has sent some; [0] when the client has
    sent nothing and has closed its end; [-1] when the client has reset the
    connection.  When the client has sent nothing and keeps the connection,
    the call waits and does not return: that is [None]. *)
Definition read (c : conn) (count : nat) : io (option Z) :=
  match request c with
  | _ :: _ =>
      let rlen := Z.of_nat (Nat.min (length (request c)) count) in
      emit (EvRead c rlen) ;; ret (Some rlen)
  | [] =>
      match silence c with
      | StaysConnected => ret None
      | HasHungUp => emit (EvRead c 0) ;; ret (Some 0%Z)
      | HasReset => emit (EvRead c (-1)) ;; ret (Some (-1)%Z)
      end
  end.

(** [write(client_fd, data, len)] on the accepted socket: [false] is the
    return of [-1]; a write that does not fail passes all of [data] to the
    client. *)
Definition write (c : conn) (data : bytes) : io bool :=
  ok <- next_host ;; emit (EvWrite c data ok) ;; ret ok.

Definition close (c : conn) : io unit := emit (EvClose c).

(** A [uwsgi_buffer_append] whose return value is not looked at: after a
    failure the buffer is as before. *)
Definition unchecked (ub : uwsgi_buffer) (m : io (option uwsgi_buffer)) : io uwsgi_buffer :=
  r <- m ;; ret (match r with Some ub1 => ub1 | None => ub end).

Definition response_500 : bytes :=
  txt "HTTP/1.0 500 Internal Server Error" ++ CRLF ++
  txt "Content-Type: text/plain" ++ CRLF ++
  txt "Content-Length: 28" ++ CRLF ++
  CRLF ++
  txt "Failed to generate metrics" ++ [LF].

(** [sizeof(request_buf)] *)
Definition REQUEST_BUF_SIZE : nat := 4096.

(** The end of a call that returns; a call that never returns ends in
    [ret None]. *)
Definition returns : io (option unit) := ret (Some tt).

(** What [prometheus_server_handle_request] does with an accepted
    connection.  It returns unless [read] does not. *)
Definition respond (cfg : uwsgi_metrics_prometheus_config) (uwsgi : uwsgi_server)
    (client : conn) : io (option unit) :=
  emit (EvFcntl client) ;;
  r <- read client (REQUEST_BUF_SIZE - 1) ;;
  match r with
  | None => ret None
  | Some rlen =>
      if (rlen <=? 0)%Z then close client ;; returns
      else
        m <- prometheus_generate_metrics cfg uwsgi ;;
        match m with
        | None =>
            ok <- write client response_500 ;;
            (if negb ok then uwsgi_log "[prometheus] write()" else ret tt) ;;
            close client ;; returns
        | Some metrics_buf =>
            r0 <- uwsgi_buffer_new RESPONSE ;;
            match r0 with
            | None => close client ;; returns
            | Some response =>
                r1 <- unchecked response
                        (uwsgi_buffer_append response (txt "HTTP/1.0 200 OK" ++ CRLF)) ;;
                r2 <- unchecked r1
                        (uwsgi_buffer_append r1
                           (txt "Content-Type: " ++ content_type ++ CRLF)) ;;
                r3 <- unchecked r2 (uwsgi_buffer_append r2 (txt "Content-Length: ")) ;;
                r4 <- unchecked r3 (uwsgi_buffer_num64 r3 (Z.of_nat (pos metrics_buf))) ;;
                r5 <- unchecked r4 (uwsgi_buffer_append r4 CRLF) ;;
                r6 <- unchecked r5
                        (uwsgi_buffer_append r5 (txt "Connection: close" ++ CRLF)) ;;
                r7 <- unchecked r6 (uwsgi_buffer_append r6 CRLF) ;;
                ok <- write client (buf r7) ;;
                (if negb ok then uwsgi_log "[prometheus] write()" else ret tt) ;;
                ok1 <- write client (buf metrics_buf) ;;
                (if negb ok1 then uwsgi_log "[prometheus] write()" else ret tt) ;;
                close client ;; returns
            end
        end
  end.

Definition prometheus_server_handle_request (cfg : uwsgi_metrics_prometheus_config)
    (uwsgi : uwsgi_server) : io (option unit) :=
  r <- accept ;;
  match r with
  | inr e =>
      (if worth_a_log e then uwsgi_log "[prometheus] accept()" else ret tt) ;;
      returns
  | inl client => respond cfg uwsgi client
  end.

Definition prometheus_master_cycle (cfg : uwsgi_metrics_prometheus_config)
    (uwsgi : uwsgi_server) : io (option unit) :=
  if (server_fd cfg <? 0)%Z then returns
  else
    ready <- select ;;
    if ready then prometheus_server_handle_request cfg uwsgi else returns.

(** [metrics_prometheus_init]: the configuration after the plugin is
    loaded. *)
Definition ump_config_init : uwsgi_metrics_prometheus_config :=
  {| prefix := None; no_workers := false; include_help := true; include_type := true;
     server_address := None; server_fd := (-1)%Z |}.

(* ===================================================================== *)
(** ** Runs on concrete registries *)
(* ===================================================================== *)

Definition metric (n : string) (t : metric_type) (v : Z) : uwsgi_metric :=
  {| name := Some (txt n); type := t; value := Some v |}.

Definition demo_registry : uwsgi_server :=
  {| has_metrics := true;
     metrics := [ metric "worker.1.requests" UWSGI_METRIC_COUNTER 7;
                  metric "worker.2.requests" UWSGI_METRIC_COUNTER 9;
                  metric "core.1.2.requests" UWSGI_METRIC_GAUGE (-3) ] |}.

Definition output_of (cfg : uwsgi_metrics_prometheus_config) (uwsgi : uwsgi_server)
    (w : world) : option string :=
  match fst (prometheus_generate_metrics cfg uwsgi w) with
  | Some out => Some (string_of_list_ascii (buf out))
  | None => None
  end.

(* ===================================================================== *)
(** ** The discipline of the metrics lock *)
(* ===================================================================== *)

(** Where a thread stands with respect to [uwsgi.metrics_lock]: it does not
    hold it, it has just taken it in read mode, or it has read one value
    under it. *)
Inductive lock_state := Free | Taken | ValueRead.

(** The only way through the lock is read-lock, one value read, unlock, and
    nothing else happens in between.  A write lock, an unlock without a lock
    and a value read outside the lock are refused. *)
Definition lock_step (s : lock_state) (e : event) : option lock_state :=
  match s, e with
  | Free, EvRlock => Some Taken
  | Free, (EvWlock | EvRwunlock | EvDeref) => None
  | Free, _ => Some Free
  | Taken, EvDeref => Some ValueRead
  | ValueRead, EvRwunlock => Some Free
  | _, _ => None
  end.

Fixpoint lock_run (s : lock_state) (evs : list event) : option lock_state :=
  match evs with
  | [] => Some s
  | e :: rest =>
      match lock_step s e with
      | Some s1 => lock_run s1 rest
      | None => None
      end
  end.

Definition brief_rlock (evs : list event) : Prop := lock_run Free evs = Some Free.

(** The calls a generation pass makes. *)
Definition pass_event (e : event) : bool :=
  match e with
  | EvBufferNew (OUTPUT | NAME | LABELS) _ | EvAppend (OUTPUT | NAME | LABELS) _ | EvMalloc _
  | EvLog _ | EvRlock | EvRwunlock | EvDeref | EvNext => true
  | _ => false
  end.

(* ===================================================================== *)
(** ** The translation, segment by segment *)
(* ===================================================================== *)

(** The name split at every dot; [cur] is the part of the current segment
    that has been passed. *)
Fixpoint segments_from (cur : bytes) (metric_name : bytes) : list bytes :=
  match metric_name with
  | [] => [cur]
  | c :: rest =>
      if is_dot c then cur :: segments_from [] rest
      else segments_from (cur ++ [c]) rest
  end.

Definition segments (metric_name : bytes) : list bytes := segments_from [] metric_name.

(** What [segment] holds of a segment of the name: its first
    [SEGMENT_SIZE - 1] bytes, sanitized. *)
Definition cap (seg : bytes) : bytes := map sanitize (firstn (SEGMENT_SIZE - 1) seg).

Definition nonempty (seg : bytes) : bool := 0 <? length seg.

(** The segments that reach the name or the labels: empty ones are
    passed over. *)
Definition stored_segments (metric_name : bytes) : list bytes :=
  filter nonempty (map cap (segments metric_name)).

(** The text segments joined.  [fresh] says that nothing follows the prefix
    yet, [after_numeric] that the last stored segment was numeric; in both
    cases no separator is put before the next text segment. *)
Fixpoint glue (fresh after_numeric : bool) (segs : list bytes) : bytes :=
  match segs with
  | [] => []
  | seg :: rest =>
      if segment_is_numeric seg then glue fresh true rest
      else (if fresh || after_numeric then [] else txt "_") ++ seg ++ glue false false rest
  end.

Definition flat_name (pfx metric_name : bytes) : bytes :=
  pfx ++ glue true false (stored_segments metric_name).

(** Label keys are handed out by position; [combine] stops after the
    fourth. *)
Definition labels_of (metric_name : bytes) : list (bytes * bytes) :=
  combine label_names (filter segment_is_numeric (stored_segments metric_name)).

Definition label_pair (kv : bytes * bytes) : bytes :=
  fst kv ++ txt "=" ++ [DQUOTE] ++ snd kv ++ [DQUOTE].

Fixpoint label_text (l : list (bytes * bytes)) : bytes :=
  match l with
  | [] => []
  | kv :: rest =>
      match rest with
      | [] => label_pair kv
      | _ :: _ => label_pair kv ++ txt "," ++ label_text rest
      end
  end.

(** The name with every segment cut to [n] bytes. *)
Fixpoint join_dots (segs : list bytes) : bytes :=
  match segs with
  | [] => []
  | seg :: rest =>
      match rest with
      | [] => seg
      | _ :: _ => seg ++ txt "." ++ join_dots rest
      end
  end.

Definition truncated (n : nat) (metric_name : bytes) : bytes :=
  join_dots (map (firstn n) (segments metric_name)).

(* ===================================================================== *)
(** ** The exposition, line by line *)
(* ===================================================================== *)

Inductive line :=
| Help (flat raw : bytes)
| Type_ (flat kind : bytes)
| Sample (flat labels : bytes) (v : Z).

Definition line_text (l : line) : bytes :=
  match l with
  | Help flat raw => txt "# HELP " ++ flat ++ txt " " ++ raw ++ [LF]
  | Type_ flat kind => txt "# TYPE " ++ flat ++ txt " " ++ kind ++ [LF]
  | Sample flat labels v =>
      flat ++ (if 0 <? length labels then txt "{" ++ labels ++ txt "}" else [])
           ++ txt " " ++ decimal v ++ [LF]
  end.

Definition lines_text (ls : list line) : bytes := concat (map line_text ls).

(** The name a record is emitted under, [_total] included. *)
Definition emitted_name (pfx raw : bytes) (t : metric_type) : bytes :=
  flat_name pfx raw ++ (if is_counter t then txt "_total" else []).

(** The lines of one record and the seen names after it: nothing for a
    record that is passed over, else the sample line, with the HELP and TYPE
    lines before it when the name is new. *)
Definition record_lines (cfg : uwsgi_metrics_prometheus_config) (pfx : bytes)
    (seen : list bytes) (um : uwsgi_metric) : list line * list bytes :=
  match name um, value um with
  | Some raw, Some v =>
      if (length raw =? 0) || (no_workers cfg && nonzero (uwsgi_starts_with raw (txt "worker.")))
         || (length (flat_name pfx raw) =? 0)
      then ([], seen)
      else
        let n := emitted_name pfx raw (type um) in
        let sample := Sample n (label_text (labels_of raw)) v in
        if seen_names_contains seen n then ([sample], seen)
        else ((if include_help cfg then [Help n raw] else [])
                ++ (if include_type cfg then [Type_ n (prom_type (type um))] else [])
                ++ [sample],
              n :: seen)
  | _, _ => ([], seen)
  end.

Fixpoint exposition (cfg : uwsgi_metrics_prometheus_config) (pfx : bytes)
    (seen : list bytes) (ums : list uwsgi_metric) : list line :=
  match ums with
  | [] => []
  | um :: rest =>
      fst (record_lines cfg pfx seen um)
        ++ exposition cfg pfx (snd (record_lines cfg pfx seen um)) rest
  end.

(** [kept] is [all] with some records left out, the order unchanged. *)
Inductive subseq {A} : list A -> list A -> Prop :=
| subseq_nil : subseq [] []
| subseq_keep x kept all : subseq kept all -> subseq (x :: kept) (x :: all)
| subseq_skip x kept all : subseq kept all -> subseq kept (x :: all).

Definition help_names (ls : list line) : list bytes :=
  flat_map (fun l => match l with Help n _ => [n] | _ => [] end) ls.

Definition type_names (ls : list line) : list bytes :=
  flat_map (fun l => match l with Type_ n _ => [n] | _ => [] end) ls.

Definition sample_names (ls : list line) : list bytes :=
  flat_map (fun l => match l with Sample n _ _ => [n] | _ => [] end) ls.

(** HELP and TYPE of [n] occur once each, and both before the first sample
    of [n]. *)
Definition announced_once (n : bytes) (ls : list line) : Prop :=
  count_occ bytes_eq_dec (help_names ls) n = 1
  /\ count_occ bytes_eq_dec (type_names ls) n = 1
  /\ exists before after,
       ls = before ++ after
       /\ In n (help_names before) /\ In n (type_names before)
       /\ ~ In n (sample_names before).

(* ===================================================================== *)
(** ** Reading an HTTP response *)
(* ===================================================================== *)

(** What follows the first occurrence of [pat] in [s]. *)
Fixpoint after_first (pat s : bytes) : option bytes :=
  if begins_with s pat then Some (skipn (length pat) s)
  else match s with
       | [] => None
       | _ :: rest => after_first pat rest
       end.

(** The body: what follows the blank line that ends the headers. *)
Definition http_body (response : bytes) : option bytes :=
  after_first (CRLF ++ CRLF) response.

Fixpoint leading_number (acc : nat) (s : bytes) : nat :=
  match s with
  | c :: rest =>
      if is_digit c then leading_number (10 * acc + (nat_of_ascii c - 48)) rest else acc
  | [] => acc
  end.

(** The value of the Content-Length header. *)
Definition declared_length (response : bytes) : option nat :=
  match after_first (txt "Content-Length: ") response with
  | Some rest => Some (leading_number 0 rest)
  | None => None
  end.

(** What was written to a client, in order. *)
Definition written_to (c : conn) (evs : list event) : bytes :=
  flat_map (fun e => match e with
                     | EvWrite c1 data true => if Nat.eqb (peer c1) (peer c) then data else []
                     | _ => []
                     end) evs.

Definition accepted (evs : list event) : list conn :=
  flat_map (fun e => match e with EvAccept c => [c] | _ => [] end) evs.

Definition closed (evs : list event) : list conn :=
  flat_map (fun e => match e with EvClose c => [c] | _ => [] end) evs.

(** The events a step adds to the trace. *)
Definition events_of {A} (m : io A) (w : world) : list event :=
  skipn (length (trace w)) (trace (snd (m w))).

(* ===================================================================== *)
(** ** prometheus_escape_string *)
(* ===================================================================== *)

Definition BACKSLASH : ascii := ascii_of_nat 92.

(** The [switch (str[i])]: what one round of the loop appends. *)
Definition escape_byte (c : ascii) : bytes :=
  if Ascii.eqb c BACKSLASH then [BACKSLASH; BACKSLASH]
  else if Ascii.eqb c DQUOTE then [BACKSLASH; DQUOTE]
  else if Ascii.eqb c LF then [BACKSLASH; "n"%char]
  else [c].

(** [for (i = 0; i < len; i++)] with one append in every round; [None] is
    the return of [-1]. *)
Fixpoint prometheus_escape_string (ub : uwsgi_buffer) (str : bytes)
    : io (option uwsgi_buffer) :=
  match str with
  | [] => ret (Some ub)
  | c :: rest =>
      ub1 <-? uwsgi_buffer_append ub (escape_byte c) ;;
      prometheus_escape_string ub1 rest
  end.

(* ===================================================================== *)
(** ** Loading the plugin and starting the dedicated server *)
(* ===================================================================== *)

(** The fields of [struct uwsgi_server uwsgi] that are read when the
    server is started. *)
Record uwsgi_sockets := {
  master_process : bool;
  listen_queue : Z;
  chmod_socket : Z;
  abstract_socket : Z
}.

(** What the start-up code does that is seen outside the plugin.  A log
    line is its format string with the texts that fill it in. *)
Inductive boot_event :=
| BootLog (format : string) (args : list bytes)   (* uwsgi_log *)
| BootRegisterRouter (name : bytes)               (* uwsgi_register_router *)
| BootSocketNb (fd : Z).                          (* uwsgi_socket_nb *)

(** [ump_config] as the C runtime leaves a global that has no
    initializer. *)
Definition ump_config_zero : uwsgi_metrics_prometheus_config :=
  {| prefix := None; no_workers := false; include_help := false; include_type := false;
     server_address := None; server_fd := 0%Z |}.

(** [strchr(s, c)] for a [c] other than the terminator: the rest of [s] from
    the first [c] on, [None] for NULL. *)
Fixpoint strchr (s : bytes) (c : ascii) : option bytes :=
  match s with
  | [] => None
  | x :: rest => if Ascii.eqb x c then Some s else strchr rest c
  end.

(** The [.on_load] hook. *)
Definition metrics_prometheus_init (cfg : uwsgi_metrics_prometheus_config)
    : uwsgi_metrics_prometheus_config * list boot_event :=
  ({| prefix := prefix cfg; no_workers := no_workers cfg;
      include_help := true; include_type := true;
      server_address := server_address cfg; server_fd := (-1)%Z |},
   [BootRegisterRouter (txt "prometheus-metrics");
    BootLog "*** Prometheus metrics exporter plugin loaded ***" []]).

Section Sockets.

(** [bind_to_tcp] and [bind_to_unix] belong to the uWSGI core; each returns
    a file descriptor, negative when the socket could not be bound. *)
Variable bind_to_tcp : bytes -> Z -> bytes -> Z.
Variable bind_to_unix : bytes -> Z -> Z -> Z -> Z.

Definition with_server_fd (cfg : uwsgi_metrics_prometheus_config) (fd : Z)
    : uwsgi_metrics_prometheus_config :=
  {| prefix := prefix cfg; no_workers := no_workers cfg;
     include_help := include_help cfg; include_type := include_type cfg;
     server_address := server_address cfg; server_fd := fd |}.

Definition prometheus_server_init (sockets : uwsgi_sockets)
    (cfg : uwsgi_metrics_prometheus_config)
    : uwsgi_metrics_prometheus_config * list boot_event :=
  match server_address cfg with
  | None => (cfg, [])
  | Some address =>
      let tcp_port := strchr address ":" in
      let fd := match tcp_port with
                | Some port => bind_to_tcp address (listen_queue sockets) port
                | None => bind_to_unix address (listen_queue sockets)
                            (chmod_socket sockets) (abstract_socket sockets)
                end in
      let started :=
        BootLog "[prometheus] Initializing dedicated metrics server on %s" [address] in
      if (fd <? 0)%Z then
        (with_server_fd cfg fd,
         [started; BootLog "[prometheus] ERROR: Failed to bind to %s" [address]])
      else
        (with_server_fd cfg fd,
         [started;
          BootSocketNb fd;
          BootLog "[prometheus] *** Dedicated metrics server enabled on %s fd: %d ***"
            [address; decimal fd];
          BootLog "[prometheus] Metrics available at: http://<host>%s/metrics (or just access the address)"
            [match tcp_port with Some port => port | None => [] end]])
  end.

(** The [.post_init] hook. *)
Definition metrics_prometheus_post_init (sockets : uwsgi_sockets)
    (cfg : uwsgi_metrics_prometheus_config)
    : uwsgi_metrics_prometheus_config * list boot_event :=
  match server_address cfg with
  | Some _ =>
      if master_process sockets then prometheus_server_init sockets cfg
      else (cfg, [BootLog "[prometheus] ERROR: dedicated server requires master mode. Add 'master = true' to your config." []])
  | None => (cfg, [])
  end.

End Sockets.

(* ===================================================================== *)
(** ** Predicates used in the proofs *)
(* ===================================================================== *)

Definition labels_so_far (s : fmt) (found : list bytes) : Prop :=
  buf (labels_buf s) = label_text (combine label_names found)
  /\ label_index s = Nat.min 4 (length found).

Record steps (w w' : world) (evs : list event) : Prop := {
  steps_trace : trace w' = trace w ++ evs;
  steps_backlog : backlog w' = backlog w;
  steps_mallocs : never_null w -> never_null w';
  steps_reallocs : never_short w -> never_short w'
}.

(** Every event of [m] satisfies [Q], the lock is free when [m] is over, and
    the result satisfies [P]. *)
Definition tame {A} (Q : event -> bool) (P : A -> Prop) (m : io A) : Prop :=
  forall w, exists evs,
    steps w (snd (m w)) evs
    /\ forallb Q evs = true
    /\ lock_run Free evs = Some Free
    /\ P (fst (m w)).

(** The two conversion buffers stay the objects they were. *)
Definition same_buffers (s : fmt) (r : option fmt) : Prop :=
  forall s1, r = Some s1 ->
    ident (name_buf s1) = ident (name_buf s) /\ ident (labels_buf s1) = ident (labels_buf s).

(** A failed append to the output buffer. *)
Definition failed_output (e : event) : bool :=
  match e with EvAppend OUTPUT false => true | _ => false end.

Definition conversion_event (e : event) : bool :=
  match e with EvAppend (NAME | LABELS) _ => true | _ => false end.

Definition is_some {A} (r : option A) : bool :=
  match r with Some _ => true | None => false end.

Definition always {A} (a : A) : bool := true.

(** [m] makes the calls of a generation pass and leaves the lock free; its
    result satisfies [P]; and when the result is [good], no append to the
    output buffer has failed. *)
Definition sound {A} (good : A -> bool) (P : A -> Prop) (m : io A) : Prop :=
  forall w, exists evs,
    steps w (snd (m w)) evs
    /\ forallb pass_event evs = true
    /\ lock_run Free evs = Some Free
    /\ P (fst (m w))
    /\ (good (fst (m w)) = true -> forallb (fun e => negb (failed_output e)) evs = true).

Definition quiet_event (e : event) : bool := pass_event e && negb (failed_output e).

(** A result that is still the output buffer. *)
Definition is_output (r : option uwsgi_buffer) : Prop :=
  forall ub', r = Some ub' -> ident ub' = OUTPUT.

Definition keeps_output (r : option pass) : Prop :=
  forall p', r = Some p' -> ident (ub p') = OUTPUT.

(** The lines [render] writes for a record emitted under [n]. *)
Definition rendered (cfg : uwsgi_metrics_prometheus_config) (seen : list bytes)
    (n labels raw : bytes) (t : metric_type) (v : Z) : list line * list bytes :=
  let sample := Sample n labels v in
  if seen_names_contains seen n then ([sample], seen)
  else ((if include_help cfg then [Help n raw] else [])
          ++ (if include_type cfg then [Type_ n (prom_type t)] else [])
          ++ [sample],
        n :: seen).

(** The configured prefix, or the default one. *)
Definition prefix_of (cfg : uwsgi_metrics_prometheus_config) : bytes :=
  match prefix cfg with Some p => p | None => default_prefix end.

(** What holds between the lines written so far and the names seen so
    far. *)
Record announced (seen : list bytes) (ls : list line) : Prop := {
  ann_help : forall n, count_occ bytes_eq_dec (help_names ls) n
                       = if in_dec bytes_eq_dec n seen then 1 else 0;
  ann_type : forall n, count_occ bytes_eq_dec (type_names ls) n
                       = if in_dec bytes_eq_dec n seen then 1 else 0;
  ann_before : forall n, In n (sample_names ls) ->
    exists before after,
      ls = before ++ after
      /\ In n (help_names before) /\ In n (type_names before)
      /\ ~ In n (sample_names before)
}.

(** [m] returns a result when no buffer fails to grow. *)
Definition total {A} (m : io (option A)) : Prop :=
  forall w, never_short w -> exists a, fst (m w) = Some a.

Definition any_event (e : event) : bool := true.

Definition dot_free (seg : bytes) : Prop := forallb (fun c => negb (is_dot c)) seg = true.

(** The numeric segments of the name as they are in the name, each cut to
    the bytes that [segment] has room for. *)
Definition numeric_segments (metric_name : bytes) : list bytes :=
  filter segment_is_numeric
    (filter nonempty (map (firstn (SEGMENT_SIZE - 1)) (segments metric_name))).

(** What happens between [accept] and [close]. *)
Definition serving_event (e : event) : bool :=
  match e with
  | EvAccept _ | EvClose _ | EvSelect _ => false
  | _ => true
  end.

(** The client keeps the server waiting in [read]: it has sent nothing and
    keeps the connection. *)
Definition keeps_waiting (c : conn) : bool :=
  match request c, silence c with
  | [], StaysConnected => true
  | _, _ => false
  end.

(** [m] neither accepts nor closes a connection, except that it closes [c]
    at its end when it returns; and it returns unless [stuck]. *)
Definition attends (c : conn) (stuck : bool) (m : io (option unit)) : Prop :=
  forall w, exists evs,
    fst (m w) = (if stuck then None else Some tt)
    /\ steps w (snd (m w)) (evs ++ if stuck then [] else [EvClose c])
    /\ forallb serving_event evs = true
    /\ lock_run Free evs = Some Free.

(** The world in which an accepted connection is attended to. *)
Definition after_accept (w : world) (c : conn) (rest : list conn) : world :=
  {| reallocs := reallocs w; mallocs := mallocs w; host := host w; backlog := rest;
     trace := (trace w ++ [EvSelect true]) ++ [EvAccept c] |}.

(** The log line after a call of [accept] that has failed with [e]. *)
Definition accept_log (e : errno) : list event :=
  if worth_a_log e then [EvLog "[prometheus] accept()"] else [].

Definition breaks (r : route_result) : Prop := r = UWSGI_ROUTE_BREAK.

(** The generator has been entered when its output buffer has been asked
    for. *)
Definition generator_called (evs : list event) : bool :=
  existsb (fun e => match e with EvBufferNew OUTPUT _ => true | _ => false end) evs.

Definition unavailable_log : string :=
  "[prometheus] Metrics subsystem not initialized. Did you enable metrics with --enable-metrics?".

(** The escaped text of [str]. *)
Definition escaped (str : bytes) : bytes := flat_map escape_byte str.

(** Reading a quoted label value of the exposition format back: up to the
    first quote that is not escaped, with backslash-n for a line feed and a
    backslash before any other byte for that byte.  The result is the value
    and what follows the closing quote. *)
Fixpoint read_quoted (s : bytes) : option (bytes * bytes) :=
  match s with
  | [] => None
  | c :: rest =>
      if Ascii.eqb c DQUOTE then Some ([], rest)
      else if Ascii.eqb c BACKSLASH then
        match rest with
        | [] => None
        | e :: rest' =>
            match read_quoted rest' with
            | Some (v, r) => Some ((if Ascii.eqb e "n" then LF else e) :: v, r)
            | None => None
            end
        end
      else
        match read_quoted rest with
        | Some (v, r) => Some (c :: v, r)
        | None => None
        end
  end.

(** A letter, a digit or an underscore. *)
Definition name_char (c : ascii) : bool :=
  between "a" "z" c || between "A" "Z" c || between "0" "9" c || Ascii.eqb c "_".


(** A record the loop does not pass over at once: it has a name, the name
    is not empty, and it has a value. *)
Definition renderable (um : uwsgi_metric) : bool :=
  match name um, value um with
  | Some raw, Some _ => negb (length raw =? 0)
  | _, _ => false
  end.

(** The record is one that the [no_workers] test lets through. *)
Definition let_through (cfg : uwsgi_metrics_prometheus_config) (um : uwsgi_metric)
    : bool :=
  match name um with
  | Some raw => negb (no_workers cfg && nonzero (uwsgi_starts_with raw (txt "worker.")))
  | None => true
  end.



(** [m] uses up nothing of the script of the host. *)
Definition off_host {A} (m : io A) : Prop := forall w, host (snd (m w)) = host w.

(** The status line and the headers before a body of [n] bytes. *)
Definition ok_header (n : nat) : bytes :=
  txt "HTTP/1.0 200 OK" ++ CRLF
  ++ txt "Content-Type: " ++ content_type ++ CRLF
  ++ txt "Content-Length: " ++ decimal (Z.of_nat n) ++ CRLF
  ++ txt "Connection: close" ++ CRLF
  ++ CRLF.

(** What a pass in which nothing fails returns. *)
Definition whole_exposition (cfg : uwsgi_metrics_prometheus_config)
    (uwsgi : uwsgi_server) : bytes :=
  if unavailable uwsgi then []
  else lines_text (exposition cfg (prefix_of cfg) seen_names_create (metrics uwsgi)).

(** The log line after a call of [write] that returned [ok]. *)
Definition write_log (ok : bool) : list event :=
  if ok then [] else [EvLog "[prometheus] write()"].

(** The two writes of the 200 response and the end of the call. *)
Definition send_both (c : conn) (header body : bytes) : io (option unit) :=
  ok <- write c header ;;
  (if negb ok then uwsgi_log "[prometheus] write()" else ret tt) ;;
  ok1 <- write c body ;;
  (if negb ok1 then uwsgi_log "[prometheus] write()" else ret tt) ;;
  close c ;; returns.

(* ===================================================================== *)
(** ** Registries and worlds of the examples *)
(* ===================================================================== *)

Definition letters (n : nat) : bytes := repeat "a"%char n.

Definition ones (n : nat) : bytes := repeat "1"%char n.

Definition long_counter : uwsgi_metric :=
  {| name := Some (letters 250); type := UWSGI_METRIC_COUNTER; value := Some 5%Z |}.

(** A counter with a long name, then a gauge. *)
Definition two_records : uwsgi_server :=
  {| has_metrics := true;
     metrics := [ long_counter; metric "b" UWSGI_METRIC_GAUGE 1 ] |}.

(** The first two appends succeed, the third fails: with one text segment
    in the name and the default prefix, the first two are those of the
    translation, and the third is that of the [_total] suffix of a counter or
    the first one to the output buffer. *)
Definition third_append_fails : world :=
  {| reallocs := [true; true; false]; mallocs := []; host := []; backlog := [];
     trace := [] |}.

Definition one_gauge : uwsgi_server :=
  {| has_metrics := true; metrics := [ metric "a" UWSGI_METRIC_GAUGE 1 ] |}.

(** The first append of a translation fails. *)
Definition prefix_fails : world :=
  {| reallocs := [false]; mallocs := []; host := []; backlog := []; trace := [] |}.

Definition fresh_pass : pass :=
  {| ub := {| ident := OUTPUT; buf := [] |}; seen_names := seen_names_create |}.

Definition metrics_disabled : uwsgi_server :=
  {| has_metrics := false; metrics := metrics demo_registry |}.

Definition bound : uwsgi_metrics_prometheus_config :=
  {| prefix := None; no_workers := false; include_help := true; include_type := true;
     server_address := Some (txt ":9091"); server_fd := 7%Z |}.

Definition first_client : conn :=
  {| peer := 1; request := txt "GET /metrics HTTP/1.0"; silence := StaysConnected;
     refused := [] |}.
Definition second_client : conn :=
  {| peer := 2; request := txt "GET / HTTP/1.1"; silence := StaysConnected;
     refused := [] |}.

Definition two_waiting : world :=
  {| reallocs := []; mallocs := []; host := []; backlog := [first_client; second_client];
     trace := [] |}.

(** One client waits, and the first append to the output buffer will
    fail. *)
Definition failing_scrape : world :=
  {| reallocs := [true; true; false]; mallocs := []; host := [];
     backlog := [first_client]; trace := [] |}.

Definition one_waiting : world :=
  {| reallocs := []; mallocs := []; host := []; backlog := [first_client]; trace := [] |}.

(** HELP and TYPE lines switched off. *)
Definition bare_samples : uwsgi_metrics_prometheus_config :=
  {| prefix := None; no_workers := false; include_help := false; include_type := false;
     server_address := None; server_fd := (-1)%Z |}.

(** A registry with a record that has no value, one with an empty name and
    one without a name among its records. *)
Definition with_unnamed_records : uwsgi_server :=
  {| has_metrics := true;
     metrics := [ {| name := Some (txt "rss"); type := UWSGI_METRIC_GAUGE; value := None |};
                  metric "worker.1.requests" UWSGI_METRIC_COUNTER 7;
                  metric "" UWSGI_METRIC_GAUGE 1;
                  {| name := None; type := UWSGI_METRIC_COUNTER; value := Some 2%Z |} ] |}.

(** [--prometheus-no-workers] *)
Definition without_workers : uwsgi_metrics_prometheus_config :=
  {| prefix := None; no_workers := true; include_help := true; include_type := true;
     server_address := None; server_fd := (-1)%Z |}.

(** A [uwsgi_starts_with] for the pattern ["worker."] that says zero for a
    match and one otherwise. *)
Definition starts_with_worker (src dst : bytes) : Z :=
  if begins_with src (txt "worker.") then 0%Z else 1%Z.



(** One client waits, and the first call of [accept] is interrupted by a
    signal. *)
Definition interrupted : world :=
  {| reallocs := []; mallocs := []; host := [];
     backlog := [{| peer := 1; request := txt "GET /metrics HTTP/1.0";
                    silence := StaysConnected; refused := [EINTR] |}];
     trace := [] |}.

(* ===================================================================== *)
(** * Properties *)
(* ===================================================================== *)

(** ** Running the monad *)

Lemma try_some A B (m : io (option A)) (k : A -> io (option B)) w b w' :
  try m k w = (Some b, w') ->
  exists a w1, m w = (Some a, w1) /\ k a w1 = (Some b, w').
Proof.
  unfold try, bind. destruct (m w) as [[a|] w1]; simpl; intros H.
  - eauto.
  - discriminate.
Qed.

Ltac try_inv H :=
  let a := fresh "a" in
  let w := fresh "w" in
  let E := fresh "E" in
  apply try_some in H; destruct H as (a & w & E & H).

Lemma ret_some A (a b : A) w w' : ret (Some a) w = (Some b, w') -> a = b /\ w = w'.
Proof. unfold ret. intros H. inversion H. auto. Qed.

Lemma append_some ub s w ub' w' :
  uwsgi_buffer_append ub s w = (Some ub', w') ->
  ub' = {| ident := ident ub; buf := buf ub ++ s |}.
Proof.
  unfold uwsgi_buffer_append, bind, next_realloc, emit, ret.
  destruct (pop (reallocs w)) as [[] rest]; simpl; intros H; inversion H; reflexivity.
Qed.

Lemma appends_some chunks : forall ub w ub' w',
  appends ub chunks w = (Some ub', w') ->
  ident ub' = ident ub /\ buf ub' = buf ub ++ concat chunks.
Proof.
  induction chunks as [|s rest IH]; simpl; intros ub w ub' w' H.
  - apply ret_some in H. destruct H as [<- _]. rewrite app_nil_r. auto.
  - try_inv H. apply append_some in E. subst a.
    apply IH in H. destruct H as [Hi Hb]. simpl in *.
    rewrite Hi, Hb, app_assoc. auto.
Qed.

(** ** Bytes of a name *)

Ltac each_ascii c := destruct c as [[] [] [] [] [] [] [] []].

Lemma sanitize_digit c : is_digit (sanitize c) = is_digit c.
Proof. each_ascii c; reflexivity. Qed.

Lemma digit_sanitize c : is_digit c = true -> sanitize c = c.
Proof. each_ascii c; simpl; intros H; try reflexivity; discriminate H. Qed.

Lemma numeric_sanitized seg :
  segment_is_numeric (map sanitize seg) = segment_is_numeric seg.
Proof.
  induction seg as [|c seg IH]; simpl; [reflexivity|].
  rewrite sanitize_digit, IH. reflexivity.
Qed.

Lemma numeric_raw seg : segment_is_numeric seg = true -> map sanitize seg = seg.
Proof.
  induction seg as [|c seg IH]; simpl; [reflexivity|].
  intros H. apply andb_true_iff in H. destruct H as [Hc Hs].
  rewrite digit_sanitize, IH; auto.
Qed.

Lemma capped_snoc (n : nat) (cur : bytes) (c : ascii) :
  map sanitize (firstn n (cur ++ [c]))
  = if length (map sanitize (firstn n cur)) <? n
    then map sanitize (firstn n cur) ++ [sanitize c]
    else map sanitize (firstn n cur).
Proof.
  rewrite length_map, length_firstn.
  destruct (Nat.ltb_spec (Nat.min n (length cur)) n) as [Hlt | Hge].
  - assert (Hlen : length cur < n) by lia.
    rewrite (@firstn_all2 _ n (cur ++ [c])) by (rewrite length_app; simpl; lia).
    rewrite (@firstn_all2 _ n cur) by lia.
    rewrite map_app. reflexivity.
  - rewrite firstn_app. replace (n - length cur) with 0 by lia.
    simpl. rewrite app_nil_r. reflexivity.
Qed.

Lemma cap_snoc cur c :
  cap (cur ++ [c])
  = if length (cap cur) <? SEGMENT_SIZE - 1 then cap cur ++ [sanitize c] else cap cur.
Proof. unfold cap. apply capped_snoc. Qed.

Lemma store_cap s cur c :
  segment s = cap cur ->
  segment (store s c) = cap (cur ++ [c])
  /\ name_buf (store s c) = name_buf s
  /\ labels_buf (store s c) = labels_buf s
  /\ label_index (store s c) = label_index s
  /\ in_numeric_sequence (store s c) = in_numeric_sequence s.
Proof.
  intros Hs. unfold store. rewrite cap_snoc, <- Hs.
  destruct (length (segment s) <? SEGMENT_SIZE - 1); simpl; auto.
Qed.

(** ** Labels *)

Lemma label_pair_length kv : 0 < length (label_pair kv).
Proof. unfold label_pair. rewrite !length_app. simpl. lia. Qed.

Lemma label_text_empty l : (0 <? length (label_text l)) = negb (match l with [] => true | _ => false end).
Proof.
  destruct l as [|kv [|kv' rest]]; simpl; [reflexivity| |].
  - apply Nat.ltb_lt, label_pair_length.
  - apply Nat.ltb_lt. rewrite length_app. pose proof (label_pair_length kv). lia.
Qed.

Lemma label_text_snoc l kv :
  label_text (l ++ [kv])
  = match l with
    | [] => label_pair kv
    | _ :: _ => label_text l ++ txt "," ++ label_pair kv
    end.
Proof.
  induction l as [|a l IH]; [reflexivity|].
  destruct l as [|b l]; [reflexivity|].
  change ((a :: b :: l) ++ [kv]) with (a :: ((b :: l) ++ [kv])).
  change (label_text (a :: (b :: l) ++ [kv]))
    with (label_pair a ++ txt "," ++ label_text ((b :: l) ++ [kv])).
  rewrite IH.
  change (label_text (a :: b :: l)) with (label_pair a ++ txt "," ++ label_text (b :: l)).
  rewrite <- !app_assoc. reflexivity.
Qed.

Lemma combine_snoc A B (l1 : list A) (d : A) : forall (l2 : list B) (x : B),
  combine l1 (l2 ++ [x])
  = if length l2 <? length l1 then combine l1 l2 ++ [(nth (length l2) l1 d, x)]
    else combine l1 l2.
Proof.
  induction l1 as [|a l1 IH]; intros l2 x.
  - simpl. destruct (length l2 <? 0) eqn:E; [apply Nat.ltb_lt in E; lia | reflexivity].
  - destruct l2 as [|b l2]; simpl.
    + destruct l1; reflexivity.
    + rewrite IH. change (S (length l2) <? S (length l1)) with (length l2 <? length l1).
      destruct (length l2 <? length l1); reflexivity.
Qed.

Lemma combine_names_empty (found : list bytes) :
  match combine label_names found with [] => true | _ => false end
  = match found with [] => true | _ => false end.
Proof. destruct found; reflexivity. Qed.

Lemma end_of_segment_spec pfx s found w s1 w1 :
  length pfx <= pos (name_buf s) ->
  labels_so_far s found ->
  end_of_segment pfx s w = (Some s1, w1) ->
  segment s1 = []
  /\ length pfx <= pos (name_buf s1)
  /\ labels_so_far s1 (found ++ filter segment_is_numeric (filter nonempty [segment s]))
  /\ forall more,
       buf (name_buf s) ++ glue (pos (name_buf s) <=? length pfx) (in_numeric_sequence s)
                                (filter nonempty [segment s] ++ more)
       = buf (name_buf s1) ++ glue (pos (name_buf s1) <=? length pfx)
                                   (in_numeric_sequence s1) more.
Proof.
  intros Hpfx [Hlb Hli] H. unfold end_of_segment in H.
  cbn [filter]. unfold nonempty.
  destruct (0 <? length (segment s)) eqn:Hne.
  - rewrite andb_true_r in H. cbn [filter app].
    destruct (segment_is_numeric (segment s)) eqn:Hnum.
    + (* a numeric segment *)
      try_inv H. apply ret_some in H. destruct H as [<- _].
      cbn [segment name_buf labels_buf label_index in_numeric_sequence].
      assert (Hlab : labels_so_far
                {| name_buf := name_buf s; labels_buf := a; segment := [];
                   label_index := if label_index s <? 4 then S (label_index s)
                                  else label_index s;
                   in_numeric_sequence := true |} (found ++ [segment s])).
      { unfold labels_so_far.
        cbn [segment name_buf labels_buf label_index in_numeric_sequence].
        rewrite length_app. cbn [length].
        rewrite (combine_snoc label_names [] found (segment s)).
        change (length label_names) with 4.
        destruct (Nat.ltb_spec (label_index s) 4) as [Hlt | Hge].
        - assert (Hf : length found < 4) by lia.
          assert (Hidx : label_index s = length found) by lia.
          apply Nat.ltb_lt in Hf. rewrite Hf. apply Nat.ltb_lt in Hf.
          split; [|lia].
          try_inv E. apply appends_some in E. destruct E as [_ E]. rewrite E.
          rewrite label_text_snoc. unfold pos in E0. rewrite Hlb in E0.
          rewrite label_text_empty, combine_names_empty in E0.
          rewrite Hidx. cbn [concat]. rewrite app_nil_r.
          destruct found as [|f found]; cbn [negb] in E0.
          + apply ret_some in E0. destruct E0 as [<- _]. rewrite Hlb. 
            unfold label_pair. reflexivity.
          + apply append_some in E0. subst a0. cbn [buf]. rewrite Hlb.
            unfold label_pair. cbn [fst snd].
            remember (combine label_names (f :: found)) as l eqn:El.
            destruct l as [|kv l]; [simpl in El; discriminate|].
            rewrite <- !app_assoc. reflexivity.
        - assert (Hf : 4 <= length found) by lia.
          apply Nat.ltb_ge in Hf. rewrite Hf. apply Nat.ltb_ge in Hf.
          apply ret_some in E. destruct E as [<- _]. split; [exact Hlb | lia]. }
      split; [reflexivity|]. split; [exact Hpfx|]. split; [exact Hlab|].
      intros more. cbn [glue]. rewrite Hnum. reflexivity.
    + (* a text segment *)
      try_inv H. try_inv H. apply ret_some in H. destruct H as [<- _].
      cbn [segment name_buf labels_buf label_index in_numeric_sequence].
      apply append_some in E0. subst a0.
      assert (Hlen : 0 < length (segment s)) by (apply Nat.ltb_lt; exact Hne).
      assert (Ha : buf a = buf (name_buf s)
                             ++ (if (pos (name_buf s) <=? length pfx) || in_numeric_sequence s
                                 then [] else txt "_")
                  /\ length pfx <= pos a).
      { destruct (Nat.ltb_spec (length pfx) (pos (name_buf s))) as [Hlt | Hge];
          destruct (Nat.leb_spec (pos (name_buf s)) (length pfx)) as [Hle | Hgt]; try lia;
          destruct (in_numeric_sequence s); cbn [andb negb orb] in *;
          try (apply ret_some in E; destruct E as [<- _]; rewrite app_nil_r; auto).
        apply append_some in E. subst a. unfold pos. cbn [buf].
        rewrite length_app. unfold pos in Hpfx. split; [reflexivity | lia]. }
      destruct Ha as [Ha Hpa].
      unfold pos. cbn [buf]. rewrite app_nil_r. repeat split.
      * rewrite length_app. unfold pos in Hpa. lia.
      * exact Hlb.
      * exact Hli.
      * intros more. cbn [glue]. rewrite Hnum. rewrite Ha, length_app.
        replace (length (buf (name_buf s)
                         ++ (if (pos (name_buf s) <=? length pfx) || in_numeric_sequence s
                             then [] else txt "_"))
                 + length (segment s) <=? length pfx) with false.
        -- rewrite <- !app_assoc. reflexivity.
        -- symmetry. apply Nat.leb_gt. rewrite <- Ha. unfold pos in Hpa. lia.
  - apply ret_some in H. destruct H as [<- _].
    apply Nat.ltb_ge in Hne.
    assert (Hs : segment s = [])
      by (destruct (segment s); [reflexivity | simpl in Hne; lia]).
    cbn [filter app]. rewrite app_nil_r. repeat split; auto.
Qed.

Lemma scan_spec pfx : forall metric_name s cur found w s' w',
  segment s = cap cur ->
  length pfx <= pos (name_buf s) ->
  labels_so_far s found ->
  scan pfx metric_name s w = (Some s', w') ->
  buf (name_buf s')
  = buf (name_buf s) ++ glue (pos (name_buf s) <=? length pfx) (in_numeric_sequence s)
                             (filter nonempty (map cap (segments_from cur metric_name)))
  /\ buf (labels_buf s')
     = label_text (combine label_names
                     (found ++ filter segment_is_numeric
                                 (filter nonempty (map cap (segments_from cur metric_name))))).
Proof.
  induction metric_name as [|c rest IH]; intros s cur found w s' w' Hseg Hpfx Hlab H.
  - cbn [scan] in H. cbn [segments_from map]. rewrite <- Hseg.
    destruct (end_of_segment_spec _ _ Hpfx Hlab H) as (_ & _ & [Hl _] & Hn).
    split.
    + specialize (Hn []). rewrite app_nil_r in Hn. rewrite Hn. cbn [glue].
      rewrite app_nil_r. reflexivity.
    + exact Hl.
  - cbn [scan] in H. cbn [segments_from]. try_inv H.
    destruct (is_dot c).
    + cbn [map]. rewrite <- Hseg.
      change (segment s :: map cap (segments_from [] rest))
        with ([segment s] ++ map cap (segments_from [] rest)).
      rewrite !filter_app.
      destruct (end_of_segment_spec _ _ Hpfx Hlab E) as (Hs1 & Hp1 & Hl1 & Hn).
      assert (Hc : segment a = cap []) by (rewrite Hs1; reflexivity).
      destruct (IH a [] _ _ _ _ Hc Hp1 Hl1 H) as [Hname Hlabels].
      split.
      * rewrite Hname, Hn. reflexivity.
      * rewrite Hlabels, <- app_assoc. reflexivity.
    + apply ret_some in E. destruct E as [<- _].
      destruct (store_cap s cur c Hseg) as (Hs & Hnb & Hlb & Hli & Hin).
      assert (Hlab' : labels_so_far (store s c) found).
      { destruct Hlab as [H1 H2]. split; [rewrite Hlb | rewrite Hli]; assumption. }
      assert (Hp' : length pfx <= pos (name_buf (store s c))) by (rewrite Hnb; exact Hpfx).
      destruct (IH _ _ _ _ _ _ Hs Hp' Hlab' H) as [Hname Hlabels].
      rewrite Hnb, Hin in Hname. auto.
Qed.

(** The C function against the translation by segments. *)
Lemma format_spec nb0 lb0 metric_name pfx w nb lb w' :
  prometheus_format_metric_name nb0 lb0 metric_name pfx w = (Some (nb, lb), w') ->
  buf nb = flat_name pfx metric_name /\ buf lb = label_text (labels_of metric_name).
Proof.
  unfold prometheus_format_metric_name. intros H.
  try_inv H. try_inv H. apply ret_some in H. destruct H as [H _].
  inversion H; subst nb lb; clear H.
  apply append_some in E. subst a. cbn [rewind ident buf app] in E0.
  eapply (@scan_spec pfx metric_name _ [] []) in E0.
  - cbn [name_buf buf in_numeric_sequence pos] in E0. rewrite Nat.leb_refl in E0.
    exact E0.
  - reflexivity.
  - cbn. lia.
  - split; reflexivity.
Qed.

(** ** How a step changes the world *)

Lemma steps_refl w : steps w w [].
Proof. split; auto. rewrite app_nil_r. reflexivity. Qed.

Lemma steps_trans w1 w2 w3 evs1 evs2 :
  steps w1 w2 evs1 -> steps w2 w3 evs2 -> steps w1 w3 (evs1 ++ evs2).
Proof.
  intros [T1 B1 M1 R1] [T2 B2 M2 R2]. split.
  - rewrite T2, T1, app_assoc. reflexivity.
  - congruence.
  - auto.
  - auto.
Qed.

Lemma lock_run_app evs1 : forall s evs2,
  lock_run s (evs1 ++ evs2)
  = match lock_run s evs1 with
    | Some s1 => lock_run s1 evs2
    | None => None
    end.
Proof.
  induction evs1 as [|e evs1 IH]; intros s evs2; cbn [lock_run app]; [reflexivity|].
  destruct (lock_step s e); [apply IH | reflexivity].
Qed.

Lemma unfailing_pop script : unfailing script -> fst (pop script) = true /\ unfailing (snd (pop script)).
Proof.
  unfold unfailing. destruct script as [|b rest]; simpl; [auto|].
  intros H. apply andb_true_iff in H. exact H.
Qed.

Lemma tame_ret A Q (P : A -> Prop) a : P a -> tame Q P (ret a).
Proof.
  intros HP w. exists []. simpl. split; [apply steps_refl | auto].
Qed.

Lemma tame_bind A B Q (P : A -> Prop) (R : B -> Prop) (m : io A) (k : A -> io B) :
  tame Q P m -> (forall a, P a -> tame Q R (k a)) -> tame Q R (bind m k).
Proof.
  intros Hm Hk w. destruct (Hm w) as (evs1 & S1 & Q1 & L1 & P1).
  unfold bind. destruct (m w) as [a w1]. simpl in *.
  destruct (Hk a P1 w1) as (evs2 & S2 & Q2 & L2 & P2).
  exists (evs1 ++ evs2). split; [|split; [|split]].
  - eapply steps_trans; eassumption.
  - rewrite forallb_app, Q1, Q2. reflexivity.
  - rewrite lock_run_app, L1. exact L2.
  - exact P2.
Qed.

Lemma tame_try A B Q (P : option A -> Prop) (R : option B -> Prop)
    (m : io (option A)) (k : A -> io (option B)) :
  tame Q P m -> (forall a, P (Some a) -> tame Q R (k a)) -> R None -> tame Q R (try m k).
Proof.
  intros Hm Hk HR. unfold try. eapply tame_bind; [exact Hm|].
  intros [a|] Ha; [auto | apply tame_ret; exact HR].
Qed.

Lemma tame_weaken A (Q Q' : event -> bool) (P P' : A -> Prop) (m : io A) :
  (forall e, Q e = true -> Q' e = true) -> (forall a, P a -> P' a) ->
  tame Q P m -> tame Q' P' m.
Proof.
  intros HQ HP Hm w. destruct (Hm w) as (evs & S1 & Q1 & L1 & P1).
  exists evs. split; [|split; [|split]]; auto.
  rewrite forallb_forall in *. auto.
Qed.

Lemma tame_post A Q (P P' : A -> Prop) (m : io A) :
  tame Q P m -> (forall a, P a -> P' a) -> tame Q P' m.
Proof. intros Hm HP. eapply tame_weaken; [| exact HP | exact Hm]. auto. Qed.

Lemma tame_emit Q e : Q e = true -> lock_step Free e = Some Free -> tame Q (fun _ => True) (emit e).
Proof.
  intros HQ HL w. exists [e]. split; [|split; [|split]].
  - split; auto.
  - cbn [forallb]. rewrite HQ. reflexivity.
  - cbn [lock_run]. rewrite HL. reflexivity.
  - exact I.
Qed.

Lemma tame_next_realloc Q : tame Q (fun _ => True) next_realloc.
Proof.
  intros w. exists []. unfold next_realloc.
  destruct (pop (reallocs w)) as [ok rest] eqn:E. simpl.
  split; [|auto]. split; simpl; auto.
  - rewrite app_nil_r. reflexivity.
  - intros H. apply unfailing_pop in H. rewrite E in H. apply H.
Qed.

Lemma tame_next_malloc Q : tame Q (fun _ => True) next_malloc.
Proof.
  intros w. exists []. unfold next_malloc.
  destruct (pop (mallocs w)) as [ok rest] eqn:E. simpl.
  split; [|auto]. split; simpl; auto.
  - rewrite app_nil_r. reflexivity.
  - intros H. apply unfailing_pop in H. rewrite E in H. apply H.
Qed.

Lemma tame_read_value Q v :
  Q EvRlock = true -> Q EvDeref = true -> Q EvRwunlock = true ->
  tame Q (fun n => n = v) (read_value v).
Proof.
  intros H1 H2 H3 w. exists [EvRlock; EvDeref; EvRwunlock]. split; [|split; [|split]].
  - split; auto. cbn. rewrite <- !app_assoc. reflexivity.
  - cbn [forallb]. rewrite H1, H2, H3. reflexivity.
  - reflexivity.
  - reflexivity.
Qed.

Lemma tame_if A Q (P : A -> Prop) (c : bool) (m1 m2 : io A) :
  (c = true -> tame Q P m1) -> (c = false -> tame Q P m2) -> tame Q P (if c then m1 else m2).
Proof. destruct c; auto. Qed.

Lemma tame_log Q msg : Q (EvLog msg) = true -> tame Q (fun _ => True) (uwsgi_log msg).
Proof. intros H. apply tame_emit; [exact H | reflexivity]. Qed.

Lemma tame_append Q ub s :
  (forall ok, Q (EvAppend (ident ub) ok) = true) ->
  tame Q (fun r => forall ub', r = Some ub' -> ident ub' = ident ub)
       (uwsgi_buffer_append ub s).
Proof.
  intros HQ. unfold uwsgi_buffer_append.
  eapply tame_bind; [apply tame_next_realloc|]. intros ok _.
  eapply tame_bind; [apply tame_emit; [apply HQ | reflexivity]|]. intros _ _.
  apply tame_ret. destruct ok; intros ub' H; inversion H; reflexivity.
Qed.

Lemma tame_appends Q chunks : forall ub,
  (forall ok, Q (EvAppend (ident ub) ok) = true) ->
  tame Q (fun r => forall ub', r = Some ub' -> ident ub' = ident ub) (appends ub chunks).
Proof.
  induction chunks as [|s rest IH]; intros ub HQ; cbn [appends].
  - apply tame_ret. intros ub' H. inversion H. reflexivity.
  - eapply tame_try; [apply tame_append; exact HQ | | discriminate].
    intros a Ha. specialize (Ha a eq_refl).
    eapply tame_post; [apply IH; rewrite Ha; exact HQ|].
    cbn beta. intros r Hr ub' E. rewrite (Hr ub' E). exact Ha.
Qed.

Lemma tame_buffer_new Q id :
  (forall ok, Q (EvBufferNew id ok) = true) ->
  tame Q (fun r => forall ub', r = Some ub' -> ub' = {| ident := id; buf := [] |})
       (uwsgi_buffer_new id).
Proof.
  intros HQ. unfold uwsgi_buffer_new.
  eapply tame_bind; [apply tame_next_malloc|]. intros ok _.
  eapply tame_bind; [apply tame_emit; [apply HQ | reflexivity]|]. intros _ _.
  apply tame_ret. destruct ok; intros ub' H; inversion H; reflexivity.
Qed.

Lemma tame_malloc Q :
  (forall ok, Q (EvMalloc ok) = true) -> tame Q (fun _ => True) uwsgi_malloc.
Proof.
  intros HQ. unfold uwsgi_malloc.
  eapply tame_bind; [apply tame_next_malloc|]. intros ok _.
  eapply tame_bind; [apply tame_emit; [apply HQ | reflexivity]|]. intros _ _.
  apply tame_ret. exact I.
Qed.

Lemma tame_seen_names_add Q head n :
  (forall ok, Q (EvMalloc ok) = true) -> tame Q (fun _ => True) (seen_names_add head n).
Proof.
  intros HQ. unfold seen_names_add.
  eapply tame_bind; [apply tame_malloc; exact HQ|]. intros node _.
  apply tame_if; intros _; [apply tame_ret; exact I|].
  eapply tame_bind; [apply tame_malloc; exact HQ|]. intros node_name _.
  apply tame_if; intros _; apply tame_ret; exact I.
Qed.

Lemma tame_end_of_segment Q pfx s :
  (forall ok, Q (EvAppend (ident (name_buf s)) ok) = true) ->
  (forall ok, Q (EvAppend (ident (labels_buf s)) ok) = true) ->
  tame Q (same_buffers s) (end_of_segment pfx s).
Proof.
  intros Hn Hl. unfold end_of_segment, same_buffers.
  apply tame_if; intros _; [|apply tame_ret; intros s1 H; inversion H; auto].
  apply tame_if; intros _.
  - eapply tame_try with (P := fun r => forall ub', r = Some ub' -> ident ub' = ident (labels_buf s)).
    + apply tame_if; intros _; [|apply tame_ret; intros ub' H; inversion H; reflexivity].
      eapply tame_try; [| | discriminate].
      * apply tame_if; intros _; [apply tame_append; exact Hl|].
        apply tame_ret. intros ub' H. inversion H. reflexivity.
      * intros a Ha. specialize (Ha a eq_refl).
        eapply tame_post; [apply tame_appends; rewrite Ha; exact Hl|].
        cbn beta. intros r Hr ub' E. rewrite (Hr ub' E). exact Ha.
    + intros a Ha. apply tame_ret. intros s1 H. inversion H. cbn. auto.
    + discriminate.
  - eapply tame_try with (P := fun r => forall ub', r = Some ub' -> ident ub' = ident (name_buf s)).
    + apply tame_if; intros _; [apply tame_append; exact Hn|].
      apply tame_ret. intros ub' H. inversion H. reflexivity.
    + intros a Ha. specialize (Ha a eq_refl).
      eapply tame_try; [apply tame_append; rewrite Ha; exact Hn | | discriminate].
      intros b Hb. specialize (Hb b eq_refl).
      apply tame_ret. intros s1 H. inversion H. cbn. split; [congruence | reflexivity].
    + discriminate.
Qed.

Lemma store_buffers s c :
  name_buf (store s c) = name_buf s /\ labels_buf (store s c) = labels_buf s.
Proof. unfold store. destruct (length (segment s) <? SEGMENT_SIZE - 1); auto. Qed.

Lemma tame_scan Q pfx : forall metric_name s,
  (forall ok, Q (EvAppend (ident (name_buf s)) ok) = true) ->
  (forall ok, Q (EvAppend (ident (labels_buf s)) ok) = true) ->
  tame Q (same_buffers s) (scan pfx metric_name s).
Proof.
  induction metric_name as [|c rest IH]; intros s Hn Hl; cbn [scan].
  - apply tame_end_of_segment; assumption.
  - eapply tame_try with (P := same_buffers s).
    + apply tame_if; intros _; [apply tame_end_of_segment; assumption|].
      apply tame_ret. intros s1 H. inversion H.
      destruct (store_buffers s c) as [-> ->]. auto.
    + intros a Ha. destruct (Ha a eq_refl) as [Ha1 Ha2].
      eapply tame_post; [apply IH; [rewrite Ha1; exact Hn | rewrite Ha2; exact Hl]|].
      intros r Hr s1 E. destruct (Hr s1 E). split; congruence.
    + discriminate.
Qed.

Lemma tame_format Q nb0 lb0 metric_name pfx :
  (forall ok, Q (EvAppend (ident nb0) ok) = true) ->
  (forall ok, Q (EvAppend (ident lb0) ok) = true) ->
  tame Q (fun r => forall nb lb, r = Some (nb, lb) ->
                   ident nb = ident nb0 /\ ident lb = ident lb0)
       (prometheus_format_metric_name nb0 lb0 metric_name pfx).
Proof.
  intros Hn Hl. unfold prometheus_format_metric_name.
  eapply tame_try; [apply tame_append; exact Hn | | discriminate].
  intros a Ha. specialize (Ha a eq_refl). cbn in Ha.
  eapply tame_try; [apply tame_scan; cbn; [rewrite Ha; exact Hn | exact Hl] | | discriminate].
  intros s Hs. destruct (Hs s eq_refl) as [H1 H2]. cbn in H1, H2.
  apply tame_ret. intros nb lb H. inversion H. subst. split; congruence.
Qed.

(** ** Generation passes *)

Lemma sound_ret A good (P : A -> Prop) a : P a -> sound good P (ret a).
Proof.
  intros HP w. exists []. simpl. split; [apply steps_refl | auto].
Qed.

Lemma sound_bind A B good (P : A -> Prop) (R : B -> Prop) (m : io A) (k : A -> io B) :
  sound always P m -> (forall a, P a -> sound good R (k a)) -> sound good R (bind m k).
Proof.
  intros Hm Hk w. destruct (Hm w) as (evs1 & S1 & Q1 & L1 & P1 & C1).
  unfold bind. destruct (m w) as [a w1]. simpl in *.
  destruct (Hk a P1 w1) as (evs2 & S2 & Q2 & L2 & P2 & C2).
  exists (evs1 ++ evs2). split; [|split; [|split; [|split]]].
  - eapply steps_trans; eassumption.
  - rewrite forallb_app, Q1, Q2. reflexivity.
  - rewrite lock_run_app, L1. exact L2.
  - exact P2.
  - intros G. rewrite forallb_app, C1, C2; auto.
Qed.

Lemma sound_try A B (P : option A -> Prop) (R : option B -> Prop)
    (m : io (option A)) (k : A -> io (option B)) :
  sound is_some P m -> (forall a, P (Some a) -> sound is_some R (k a)) -> R None ->
  sound is_some R (try m k).
Proof.
  intros Hm Hk HR w. destruct (Hm w) as (evs1 & S1 & Q1 & L1 & P1 & C1).
  unfold try, bind. destruct (m w) as [[a|] w1]; simpl in *.
  - destruct (Hk a P1 w1) as (evs2 & S2 & Q2 & L2 & P2 & C2).
    exists (evs1 ++ evs2). split; [|split; [|split; [|split]]].
    + eapply steps_trans; eassumption.
    + rewrite forallb_app, Q1, Q2. reflexivity.
    + rewrite lock_run_app, L1. exact L2.
    + exact P2.
    + intros G. rewrite forallb_app, C1, C2; auto.
  - exists evs1. split; [|split; [|split; [|split]]]; auto; discriminate.
Qed.

Lemma sound_if A good (P : A -> Prop) (c : bool) (m1 m2 : io A) :
  (c = true -> sound good P m1) -> (c = false -> sound good P m2) ->
  sound good P (if c then m1 else m2).
Proof. destruct c; auto. Qed.

Lemma sound_post A good (P P' : A -> Prop) (m : io A) :
  sound good P m -> (forall a, P a -> P' a) -> sound good P' m.
Proof.
  intros Hm HP w. destruct (Hm w) as (evs & S1 & Q1 & L1 & P1 & C1).
  exists evs. split; [|split; [|split; [|split]]]; auto.
Qed.

Lemma tame_sound A (Q : event -> bool) (P : A -> Prop) (m : io A) :
  (forall e, Q e = true -> pass_event e = true /\ failed_output e = false) ->
  tame Q P m -> sound always P m.
Proof.
  intros HQ Hm w. destruct (Hm w) as (evs & S1 & Q1 & L1 & P1).
  rewrite forallb_forall in Q1.
  exists evs. split; [|split; [|split; [|split]]]; auto.
  - apply forallb_forall. intros e He. apply HQ. auto.
  - intros _. apply forallb_forall. intros e He.
    destruct (HQ e (Q1 e He)) as [_ ->]. reflexivity.
Qed.

Lemma conversion_event_pass e :
  conversion_event e = true -> pass_event e = true /\ failed_output e = false.
Proof. destruct e as [| [] [] | | | | | | | | | | | | | | | | | ]; simpl; auto; discriminate. Qed.

Lemma quiet_event_pass e :
  quiet_event e = true -> pass_event e = true /\ failed_output e = false.
Proof.
  unfold quiet_event. intros H. apply andb_true_iff in H. destruct H as [H1 H2].
  apply negb_true_iff in H2. auto.
Qed.

Lemma sound_log msg : sound always (fun _ => True) (uwsgi_log msg).
Proof. apply tame_sound with (Q := quiet_event); [exact quiet_event_pass|]. apply tame_log. reflexivity. Qed.

Lemma sound_next : sound always (fun _ => True) (emit EvNext).
Proof. apply tame_sound with (Q := quiet_event); [exact quiet_event_pass|]. apply tame_emit; reflexivity. Qed.

Lemma sound_read_value v : sound always (fun n => n = v) (read_value v).
Proof.
  apply tame_sound with (Q := quiet_event); [exact quiet_event_pass|].
  apply tame_read_value; reflexivity.
Qed.

Lemma sound_seen_names_add head n : sound always (fun _ => True) (seen_names_add head n).
Proof.
  apply tame_sound with (Q := quiet_event); [exact quiet_event_pass|].
  apply tame_seen_names_add. reflexivity.
Qed.

Lemma sound_buffer_new id :
  id <> RESPONSE ->
  sound always (fun r => forall ub', r = Some ub' -> ub' = {| ident := id; buf := [] |})
        (uwsgi_buffer_new id).
Proof.
  intros Hid.
  apply tame_sound with (Q := quiet_event); [exact quiet_event_pass|].
  apply tame_buffer_new. destruct id; try reflexivity. contradiction.
Qed.

(** An append that returns zero has not failed. *)
Lemma sound_append ub s :
  ident ub <> RESPONSE ->
  sound is_some (fun r => forall ub', r = Some ub' -> ident ub' = ident ub)
        (uwsgi_buffer_append ub s).
Proof.
  intros Hid w. unfold uwsgi_buffer_append, bind, next_realloc, emit, ret.
  destruct (pop (reallocs w)) as [ok rest] eqn:E. simpl.
  exists [EvAppend (ident ub) ok]. split; [|split; [|split; [|split]]].
  - split; simpl; auto. intros H. apply unfailing_pop in H. rewrite E in H. apply H.
  - simpl. destruct (ident ub); try reflexivity. contradiction.
  - reflexivity.
  - destruct ok; intros ub' H; inversion H; reflexivity.
  - destruct ok; simpl; [|discriminate]. intros _. destruct (ident ub); reflexivity.
Qed.

Lemma sound_appends chunks : forall ub,
  ident ub <> RESPONSE ->
  sound is_some (fun r => forall ub', r = Some ub' -> ident ub' = ident ub)
        (appends ub chunks).
Proof.
  induction chunks as [|s rest IH]; intros ub Hid; cbn [appends].
  - apply sound_ret. intros ub' H. inversion H. reflexivity.
  - eapply sound_try; [apply sound_append; exact Hid | | discriminate].
    intros a Ha. specialize (Ha a eq_refl).
    eapply sound_post; [apply IH; rewrite Ha; exact Hid|].
    cbn beta. intros r Hr ub' E. rewrite (Hr ub' E). exact Ha.
Qed.

(** The translation never touches the output buffer. *)
Lemma sound_format nb0 lb0 metric_name pfx :
  ident nb0 = NAME -> ident lb0 = LABELS ->
  sound always (fun r => forall nb lb, r = Some (nb, lb) -> ident nb = NAME /\ ident lb = LABELS)
        (prometheus_format_metric_name nb0 lb0 metric_name pfx).
Proof.
  intros Hn Hl.
  apply tame_sound with (Q := conversion_event); [exact conversion_event_pass|].
  eapply tame_post; [apply tame_format|].
  - rewrite Hn. reflexivity.
  - rewrite Hl. reflexivity.
  - cbn beta. intros r Hr nb lb E. destruct (Hr nb lb E). split; congruence.
Qed.

Lemma sound_suffix nb :
  ident nb = NAME ->
  sound always (fun r => forall nb1, r = Some nb1 -> ident nb1 = NAME)
        (uwsgi_buffer_append nb (txt "_total")).
Proof.
  intros Hn.
  apply tame_sound with (Q := conversion_event); [exact conversion_event_pass|].
  eapply tame_post; [apply tame_append; rewrite Hn; reflexivity|].
  cbn beta. intros r Hr nb1 E. rewrite (Hr nb1 E). exact Hn.
Qed.

Lemma sound_append_out ub s :
  ident ub = OUTPUT -> sound is_some is_output (uwsgi_buffer_append ub s).
Proof.
  intros H. eapply sound_post; [apply sound_append; rewrite H; discriminate|].
  intros r Hr ub' E. rewrite (Hr ub' E). exact H.
Qed.

Lemma sound_appends_out ub chunks :
  ident ub = OUTPUT -> sound is_some is_output (appends ub chunks).
Proof.
  intros H. eapply sound_post; [apply sound_appends; rewrite H; discriminate|].
  intros r Hr ub' E. rewrite (Hr ub' E). exact H.
Qed.

Lemma sound_ret_out good ub : ident ub = OUTPUT -> sound good is_output (ret (Some ub)).
Proof. intros H. apply sound_ret. intros ub' E. inversion E. subst. exact H. Qed.

Lemma sound_render cfg nb lb raw t v p :
  ident (ub p) = OUTPUT -> sound is_some keeps_output (render cfg nb lb raw t v p).
Proof.
  intros Hp. unfold render.
  eapply sound_try with (P := keeps_output); [| | discriminate].
  - apply sound_if; intros _.
    + eapply sound_try with (P := is_output); [| | discriminate].
      * apply sound_if; intros _; [apply sound_appends_out | apply sound_ret_out]; exact Hp.
      * intros ub1 H1. specialize (H1 ub1 eq_refl).
        eapply sound_try with (P := is_output); [| | discriminate].
        -- apply sound_if; intros _; [apply sound_appends_out | apply sound_ret_out]; exact H1.
        -- intros ub2 H2. specialize (H2 ub2 eq_refl).
           eapply sound_bind; [apply sound_seen_names_add|]. intros seen _.
           apply sound_ret. intros p' E. inversion E. subst. exact H2.
    + apply sound_ret. intros p' E. inversion E. subst. exact Hp.
  - intros p1 H1. specialize (H1 p1 eq_refl).
    eapply sound_try with (P := is_output); [apply sound_append_out; exact H1 | | discriminate].
    intros ub3 H3. specialize (H3 ub3 eq_refl).
    eapply sound_try with (P := is_output); [| | discriminate].
    + apply sound_if; intros _; [apply sound_appends_out | apply sound_ret_out]; exact H3.
    + intros ub4 H4. specialize (H4 ub4 eq_refl).
      eapply sound_try with (P := is_output); [apply sound_append_out; exact H4 | | discriminate].
      intros ub5 H5. specialize (H5 ub5 eq_refl).
      eapply sound_bind; [apply sound_read_value|]. intros n _.
      eapply sound_try with (P := is_output); [apply sound_append_out; exact H5 | | discriminate].
      intros ub6 H6. specialize (H6 ub6 eq_refl).
      eapply sound_try with (P := is_output); [apply sound_append_out; exact H6 | | discriminate].
      intros ub7 H7. specialize (H7 ub7 eq_refl).
      apply sound_ret. intros p' E. inversion E. subst. exact H7.
Qed.

Lemma sound_visit cfg pfx nb0 lb0 um p :
  ident nb0 = NAME -> ident lb0 = LABELS -> ident (ub p) = OUTPUT ->
  sound is_some keeps_output (visit cfg pfx nb0 lb0 um p).
Proof.
  intros Hn Hl Hp. unfold visit.
  assert (Hskip : sound is_some keeps_output (ret (Some p))).
  { apply sound_ret. intros p' E. inversion E. subst. exact Hp. }
  destruct (name um) as [raw|]; [|exact Hskip].
  destruct (value um) as [v|]; [|exact Hskip].
  apply sound_if; intros _; [exact Hskip|].
  apply sound_if; intros _; [exact Hskip|].
  eapply sound_bind; [apply sound_format; assumption|].
  intros [[nb lb]|] Hr.
  - destruct (Hr nb lb eq_refl) as [Hnb Hlb].
    apply sound_if; intros _; [exact Hskip|].
    apply sound_if; intros _; [|apply sound_render; exact Hp].
    eapply sound_bind; [apply sound_suffix; exact Hnb|].
    intros [nb1|] _.
    + apply sound_render. exact Hp.
    + eapply sound_bind; [apply sound_log|]. intros _ _. exact Hskip.
  - eapply sound_bind; [apply sound_log|]. intros _ _. exact Hskip.
Qed.

Lemma sound_walk cfg pfx nb0 lb0 : forall ums p,
  ident nb0 = NAME -> ident lb0 = LABELS -> ident (ub p) = OUTPUT ->
  sound is_some keeps_output (walk cfg pfx nb0 lb0 ums p).
Proof.
  induction ums as [|um rest IH]; intros p Hn Hl Hp; cbn [walk].
  - apply sound_ret. intros p' E. inversion E. subst. exact Hp.
  - eapply sound_try; [apply sound_visit; assumption | | discriminate].
    intros p1 H1. specialize (H1 p1 eq_refl).
    eapply sound_bind; [apply sound_next|]. intros _ _.
    apply IH; assumption.
Qed.

Lemma sound_generate cfg uwsgi :
  sound is_some is_output (prometheus_generate_metrics cfg uwsgi).
Proof.
  unfold prometheus_generate_metrics.
  eapply sound_bind; [apply sound_buffer_new; discriminate|].
  intros [out|] Hout.
  - specialize (Hout out eq_refl).
    eapply sound_bind; [apply sound_buffer_new; discriminate|]. intros rn Hrn.
    eapply sound_bind; [apply sound_buffer_new; discriminate|]. intros rl Hrl.
    destruct rn as [nb0|]; [destruct rl as [lb0|]|].
    + specialize (Hrn nb0 eq_refl). specialize (Hrl lb0 eq_refl).
      apply sound_if; intros _.
      * eapply sound_bind; [apply sound_log|]. intros _ _.
        apply sound_ret_out. subst out. reflexivity.
      * eapply sound_try; [apply sound_walk; subst; reflexivity | | discriminate].
        intros p Hp. specialize (Hp p eq_refl).
        apply sound_ret_out. exact Hp.
    + eapply sound_bind; [apply sound_log|]. intros _ _. apply sound_ret. discriminate.
    + eapply sound_bind; [apply sound_log|]. intros _ _. apply sound_ret. discriminate.
  - eapply sound_bind; [apply sound_log|]. intros _ _. apply sound_ret. discriminate.
Qed.

(** ** The pass against the exposition by lines *)

Lemma append_mallocs ub s w r w' :
  uwsgi_buffer_append ub s w = (r, w') -> mallocs w' = mallocs w.
Proof.
  unfold uwsgi_buffer_append, bind, next_realloc, emit, ret.
  destruct (pop (reallocs w)) as [ok rest]. simpl. intros H. inversion H. reflexivity.
Qed.

Lemma appends_mallocs chunks : forall ub w r w',
  appends ub chunks w = (r, w') -> mallocs w' = mallocs w.
Proof.
  induction chunks as [|s rest IH]; cbn [appends]; intros ub w r w' H.
  - inversion H. reflexivity.
  - unfold try, bind in H. destruct (uwsgi_buffer_append ub s w) as [[ub1|] w1] eqn:E.
    + apply IH in H. apply append_mallocs in E. congruence.
    + inversion H. subst. apply append_mallocs in E. exact E.
Qed.

Lemma cond_appends_some (c : bool) ub chunks w ub' w' :
  (if c then appends ub chunks else ret (Some ub)) w = (Some ub', w') ->
  buf ub' = buf ub ++ (if c then concat chunks else []) /\ mallocs w' = mallocs w.
Proof.
  destruct c; intros H.
  - split; [eapply appends_some; exact H | eapply appends_mallocs; exact H].
  - apply ret_some in H. destruct H as [<- <-]. rewrite app_nil_r. auto.
Qed.

Lemma seen_names_add_ok head n w :
  never_null w -> fst (seen_names_add head n w) = n :: head.
Proof.
  unfold never_null, seen_names_add, uwsgi_malloc, bind, next_malloc, emit, ret. intros H.
  destruct (unfailing_pop H) as [H1 H2].
  destruct (pop (mallocs w)) as [ok rest]. simpl in *. subst ok. simpl.
  destruct (unfailing_pop H2) as [H3 _].
  destruct (pop rest) as [ok1 rest1]. simpl in *. subst ok1. reflexivity.
Qed.

Lemma seen_names_contains_in head n : seen_names_contains head n = true <-> In n head.
Proof.
  induction head as [|c head IH]; simpl.
  - split; [discriminate | contradiction].
  - unfold bytes_eqb. destruct (bytes_eq_dec c n) as [->|Hne].
    + rewrite Nat.eqb_refl. simpl. split; auto.
    + rewrite andb_false_r. rewrite IH. split; [auto | intros [H|H]; [contradiction | exact H]].
Qed.

Lemma read_value_fst v w : fst (read_value v w) = v.
Proof. reflexivity. Qed.

Ltac flat :=
  unfold lines_text;
  repeat (cbn [map concat line_text fst snd app]; rewrite ?app_nil_r; rewrite <- ?app_assoc).

Lemma render_spec cfg nb lb raw t v p w p' w' :
  never_null w ->
  render cfg nb lb raw t v p w = (Some p', w') ->
  buf (ub p') = buf (ub p)
                  ++ lines_text (fst (rendered cfg (seen_names p) (buf nb) (buf lb) raw t v))
  /\ seen_names p' = snd (rendered cfg (seen_names p) (buf nb) (buf lb) raw t v).
Proof.
  intros Hnull H. unfold render in H.
  try_inv H. rename a into p1.
  assert (H1 : buf (ub p1) = buf (ub p)
                 ++ (if seen_names_contains (seen_names p) (buf nb) then []
                     else lines_text ((if include_help cfg then [Help (buf nb) raw] else [])
                            ++ (if include_type cfg
                                then [Type_ (buf nb) (prom_type t)] else [])))
               /\ seen_names p1 = snd (rendered cfg (seen_names p) (buf nb) (buf lb) raw t v)).
  { unfold rendered. destruct (seen_names_contains (seen_names p) (buf nb)); cbn [negb] in E.
    - apply ret_some in E. destruct E as [<- _]. rewrite app_nil_r. auto.
    - try_inv E. try_inv E. rename a into ub1, a0 into ub2.
      apply cond_appends_some in E0. destruct E0 as [B1 M1].
      apply cond_appends_some in E1. destruct E1 as [B2 M2].
      unfold bind in E.
      match type of E with
      | (let (_, _) := seen_names_add _ _ ?wx in _) = _ =>
          assert (Hn2 : never_null wx) by (unfold never_null in *; congruence);
          pose proof (seen_names_add_ok (seen_names p) (buf nb) Hn2) as Hadd;
          destruct (seen_names_add (seen_names p) (buf nb) wx) as [seen wy]
      end.
      simpl in Hadd. subst seen. apply ret_some in E. destruct E as [<- _].
      cbn [ub seen_names snd]. split; [|reflexivity].
      rewrite B2, B1.
      destruct (include_help cfg), (include_type cfg); flat; reflexivity. }
  destruct H1 as [B1 S1].
  try_inv H. rename a into ub3. apply append_some in E0. subst ub3. cbn [buf] in *.
  try_inv H. rename a into ub4. apply cond_appends_some in E0. destruct E0 as [B4 _].
  cbn [buf] in B4.
  try_inv H. rename a into ub5. apply append_some in E0. subst ub5.
  unfold bind in H.
  match type of H with
  | (let (_, _) := read_value v ?wx in _) = _ =>
      pose proof (read_value_fst v wx) as Hv;
      destruct (read_value v wx) as [n wr]; cbn [fst] in Hv; subst n
  end.
  try_inv H. rename a into ub6. unfold uwsgi_buffer_num64 in E0.
  apply append_some in E0. subst ub6.
  try_inv H. rename a into ub7. apply append_some in E0. subst ub7.
  apply ret_some in H. destruct H as [<- _]. cbn [ub seen_names buf].
  split; [|exact S1].
  rewrite B4, B1. unfold rendered, pos.
  destruct (seen_names_contains (seen_names p) (buf nb));
    destruct (include_help cfg), (include_type cfg); flat;
    destruct (0 <? length (buf lb)); flat; reflexivity.
Qed.

Lemma sound_never_null A good (P : A -> Prop) (m : io A) w :
  sound good P m -> never_null w -> never_null (snd (m w)).
Proof.
  intros Hm Hw. destruct (Hm w) as (evs & S1 & _). apply (steps_mallocs S1). exact Hw.
Qed.

Lemma sound_result A good (P : A -> Prop) (m : io A) w : sound good P m -> P (fst (m w)).
Proof. intros Hm. destruct (Hm w) as (evs & _ & _ & _ & HP & _). exact HP. Qed.

Lemma lines_text_app l1 l2 : lines_text (l1 ++ l2) = lines_text l1 ++ lines_text l2.
Proof. unfold lines_text. rewrite map_app, concat_app. reflexivity. Qed.

Lemma subseq_empty A (l : list A) : subseq [] l.
Proof. induction l; constructor; assumption. Qed.

Lemma visit_spec cfg pfx nb0 lb0 um p w p' w' :
  ident nb0 = NAME -> ident lb0 = LABELS ->
  never_null w ->
  visit cfg pfx nb0 lb0 um p w = (Some p', w') ->
  p' = p
  \/ (buf (ub p') = buf (ub p) ++ lines_text (fst (record_lines cfg pfx (seen_names p) um))
      /\ seen_names p' = snd (record_lines cfg pfx (seen_names p) um)).
Proof.
  intros Hn Hl Hnull H. unfold visit in H. unfold record_lines.
  assert (Hskip : forall w0, ret (Some p) w0 = (Some p', w') -> p' = p).
  { intros w0 E. apply ret_some in E. destruct E as [E _]. auto. }
  destruct (name um) as [raw|]; [|left; eapply Hskip; exact H].
  destruct (value um) as [v|]; [|left; eapply Hskip; exact H].
  destruct (length raw =? 0); [left; eapply Hskip; exact H|].
  destruct (no_workers cfg && nonzero (uwsgi_starts_with raw (txt "worker.")));
    [left; eapply Hskip; exact H|].
  cbn [orb].
  unfold bind at 1 in H.
  pose proof (@sound_never_null _ _ _ _ w (sound_format nb0 lb0 raw pfx Hn Hl) Hnull) as Hnull1.
  destruct (prometheus_format_metric_name nb0 lb0 raw pfx w) as [[[nb lb]|] w1] eqn:EF;
    cbn [snd] in Hnull1.
  - pose proof EF as EF'. apply format_spec in EF'. destruct EF' as [Hnb Hlb].
    unfold pos in H. rewrite Hnb in H.
    destruct (length (flat_name pfx raw) =? 0); [left; eapply Hskip; exact H|].
    unfold emitted_name.
    destruct (is_counter (type um)).
    + unfold bind at 1 in H.
      destruct (uwsgi_buffer_append nb (txt "_total") w1) as [[nb1|] w2] eqn:ES.
      * pose proof ES as M. apply append_mallocs in M. apply append_some in ES. subst nb1.
        assert (Hnull2 : never_null w2) by (unfold never_null in *; congruence).
        right. apply (render_spec _ _ _ _ _ _ _ Hnull2) in H. destruct H as [B S].
        cbn [buf] in B, S. rewrite Hnb, Hlb in B, S. exact (conj B S).
      * left. unfold bind in H. cbn in H. eapply Hskip. exact H.
    + right. apply (render_spec _ _ _ _ _ _ _ Hnull1) in H. destruct H as [B S].
      rewrite Hnb, Hlb in B, S. rewrite app_nil_r. exact (conj B S).
  - left. unfold bind in H. cbn in H. eapply Hskip. exact H.
Qed.

Lemma walk_spec cfg pfx nb0 lb0 : forall ums p w p' w',
  ident nb0 = NAME -> ident lb0 = LABELS -> ident (ub p) = OUTPUT ->
  never_null w ->
  walk cfg pfx nb0 lb0 ums p w = (Some p', w') ->
  exists kept,
    subseq kept ums
    /\ buf (ub p') = buf (ub p) ++ lines_text (exposition cfg pfx (seen_names p) kept).
Proof.
  induction ums as [|um rest IH]; intros p w p' w' Hn Hl Hp Hnull H; cbn [walk] in H.
  - apply ret_some in H. destruct H as [<- _]. exists []. split; [constructor|].
    cbn. rewrite app_nil_r. reflexivity.
  - try_inv H. rename a into p1.
    pose proof (@sound_never_null _ _ _ _ w (@sound_visit cfg pfx nb0 lb0 um p Hn Hl Hp) Hnull) as Hnull1.
    pose proof (@sound_result _ _ _ _ w (@sound_visit cfg pfx nb0 lb0 um p Hn Hl Hp)) as Hp1.
    rewrite E in Hnull1, Hp1. cbn [fst snd] in Hnull1, Hp1. specialize (Hp1 p1 eq_refl).
    unfold bind in H. cbn [emit] in H.
    apply IH in H; try assumption.
    destruct H as (kept & Hsub & Hbuf).
    destruct (@visit_spec cfg pfx nb0 lb0 um p w p1 w0 Hn Hl Hnull E) as [-> | [B S]].
    + exists kept. split; [constructor; exact Hsub | exact Hbuf].
    + exists (um :: kept). split; [constructor; exact Hsub|].
      cbn [exposition]. rewrite lines_text_app, Hbuf, B, S, app_assoc. reflexivity.
Qed.

Lemma generate_spec cfg uwsgi w out w' :
  never_null w ->
  prometheus_generate_metrics cfg uwsgi w = (Some out, w') ->
  exists kept,
    subseq kept (metrics uwsgi)
    /\ buf out = lines_text (exposition cfg (prefix_of cfg) seen_names_create kept).
Proof.
  intros Hnull H. unfold prometheus_generate_metrics in H.
  unfold bind at 1 in H.
  pose proof (@sound_never_null _ _ _ _ w (@sound_buffer_new OUTPUT ltac:(discriminate)) Hnull) as N1.
  pose proof (@sound_result _ _ _ _ w (@sound_buffer_new OUTPUT ltac:(discriminate))) as R1.
  destruct (uwsgi_buffer_new OUTPUT w) as [[ub0|] w1]; cbn [fst snd] in N1, R1;
    [|unfold bind in H; cbn in H; discriminate].
  specialize (R1 ub0 eq_refl). subst ub0.
  unfold bind at 1 in H.
  pose proof (@sound_never_null _ _ _ _ w1 (@sound_buffer_new NAME ltac:(discriminate)) N1) as N2.
  pose proof (@sound_result _ _ _ _ w1 (@sound_buffer_new NAME ltac:(discriminate))) as R2.
  destruct (uwsgi_buffer_new NAME w1) as [rn w2]; cbn [fst snd] in N2, R2.
  unfold bind at 1 in H.
  pose proof (@sound_never_null _ _ _ _ w2 (@sound_buffer_new LABELS ltac:(discriminate)) N2) as N3.
  pose proof (@sound_result _ _ _ _ w2 (@sound_buffer_new LABELS ltac:(discriminate))) as R3.
  destruct (uwsgi_buffer_new LABELS w2) as [rl w3]; cbn [fst snd] in N3, R3.
  destruct rn as [nb0|]; [|unfold bind in H; cbn in H; discriminate].
  destruct rl as [lb0|]; [|unfold bind in H; cbn in H; discriminate].
  specialize (R2 nb0 eq_refl). specialize (R3 lb0 eq_refl). subst nb0 lb0.
  destruct (unavailable uwsgi).
  - unfold bind in H. cbn in H. inversion H. subst. exists []. split; [apply subseq_empty | reflexivity].
  - try_inv H. apply ret_some in H. destruct H as [<- _].
    apply walk_spec in E; try assumption; try reflexivity.
Qed.

(** ** HELP and TYPE lines *)

Lemma help_names_app l1 l2 : help_names (l1 ++ l2) = help_names l1 ++ help_names l2.
Proof. apply flat_map_app. Qed.

Lemma type_names_app l1 l2 : type_names (l1 ++ l2) = type_names l1 ++ type_names l2.
Proof. apply flat_map_app. Qed.

Lemma sample_names_app l1 l2 : sample_names (l1 ++ l2) = sample_names l1 ++ sample_names l2.
Proof. apply flat_map_app. Qed.

Lemma announced_start : announced [] [].
Proof. split; simpl; auto. intros n []. Qed.

Lemma announced_known seen ls n labels v :
  announced seen ls -> In n seen -> announced seen (ls ++ [Sample n labels v]).
Proof.
  intros [Hh Ht Hb] Hin. split.
  - intros m. rewrite help_names_app. simpl. rewrite app_nil_r. apply Hh.
  - intros m. rewrite type_names_app. simpl. rewrite app_nil_r. apply Ht.
  - intros m Hm. rewrite sample_names_app in Hm. simpl in Hm.
    destruct (in_dec bytes_eq_dec m (sample_names ls)) as [Hold | Hnew].
    + destruct (Hb m Hold) as (before & after & -> & H1 & H2 & H3).
      exists before, (after ++ [Sample n labels v]). rewrite app_assoc. auto.
    + apply in_app_or in Hm. destruct Hm as [Hm | [<- | []]]; [contradiction|].
      exists ls, [Sample n labels v]. repeat split; auto.
      * apply (count_occ_In bytes_eq_dec). rewrite Hh.
        destruct (in_dec bytes_eq_dec n seen); [lia | contradiction].
      * apply (count_occ_In bytes_eq_dec). rewrite Ht.
        destruct (in_dec bytes_eq_dec n seen); [lia | contradiction].
Qed.

Lemma announced_new seen ls n raw kind labels v :
  announced seen ls -> ~ In n seen ->
  announced (n :: seen) (ls ++ [Help n raw; Type_ n kind; Sample n labels v]).
Proof.
  intros [Hh Ht Hb] Hnew.
  assert (Hcount : forall m (names : list bytes),
             count_occ bytes_eq_dec names m = (if in_dec bytes_eq_dec m seen then 1 else 0) ->
             count_occ bytes_eq_dec (names ++ [n]) m
             = if in_dec bytes_eq_dec m (n :: seen) then 1 else 0).
  { intros m names H. rewrite count_occ_app, H. simpl.
    destruct (bytes_eq_dec n m) as [->|Hne].
    - destruct (in_dec bytes_eq_dec m seen); [contradiction|].
      destruct (in_dec bytes_eq_dec m (m :: seen)) as [_|Hn]; [reflexivity|].
      exfalso. apply Hn. left. reflexivity.
    - destruct (in_dec bytes_eq_dec m seen) as [Hi|Hi];
        destruct (in_dec bytes_eq_dec m (n :: seen)) as [Hj|Hj];
        try reflexivity; exfalso; simpl in Hj; tauto. }
  split.
  - intros m. rewrite help_names_app. simpl. apply Hcount, Hh.
  - intros m. rewrite type_names_app. simpl. apply Hcount, Ht.
  - intros m Hm. rewrite sample_names_app in Hm. simpl in Hm.
    destruct (in_dec bytes_eq_dec m (sample_names ls)) as [Hold | Hfresh].
    + destruct (Hb m Hold) as (before & after & -> & H1 & H2 & H3).
      exists before, (after ++ [Help n raw; Type_ n kind; Sample n labels v]).
      rewrite app_assoc. auto.
    + apply in_app_or in Hm. destruct Hm as [Hm | [<- | []]]; [contradiction|].
      exists (ls ++ [Help n raw; Type_ n kind]), [Sample n labels v].
      rewrite <- app_assoc. simpl. repeat split.
      * rewrite help_names_app. apply in_or_app. right. simpl. auto.
      * rewrite type_names_app. apply in_or_app. right. simpl. auto.
      * rewrite sample_names_app. simpl. rewrite app_nil_r. exact Hfresh.
Qed.

Lemma announced_record cfg pfx seen ls um :
  include_help cfg = true -> include_type cfg = true ->
  announced seen ls ->
  announced (snd (record_lines cfg pfx seen um)) (ls ++ fst (record_lines cfg pfx seen um)).
Proof.
  intros Hh Ht Ha. unfold record_lines.
  assert (Hskip : announced seen (ls ++ [])) by (rewrite app_nil_r; exact Ha).
  destruct (name um) as [raw|]; [|exact Hskip].
  destruct (value um) as [v|]; [|exact Hskip].
  destruct ((length raw =? 0) || no_workers cfg && nonzero (uwsgi_starts_with raw (txt "worker."))
            || (length (flat_name pfx raw) =? 0)); [exact Hskip|].
  destruct (seen_names_contains seen (emitted_name pfx raw (type um))) eqn:E; cbn [fst snd].
  - apply announced_known; [exact Ha|]. apply seen_names_contains_in. exact E.
  - rewrite Hh, Ht. cbn [app]. apply announced_new; [exact Ha|].
    intros Hin. apply seen_names_contains_in in Hin. congruence.
Qed.

Lemma announced_exposition cfg pfx : forall ums seen ls,
  include_help cfg = true -> include_type cfg = true ->
  announced seen ls ->
  exists seen', announced seen' (ls ++ exposition cfg pfx seen ums).
Proof.
  induction ums as [|um rest IH]; intros seen ls Hh Ht Ha; cbn [exposition].
  - exists seen. rewrite app_nil_r. exact Ha.
  - rewrite app_assoc. apply IH; try assumption.
    apply announced_record; assumption.
Qed.

Lemma announced_once_of seen ls n :
  announced seen ls -> In n (sample_names ls) -> announced_once n ls.
Proof.
  intros [Hh Ht Hb] Hn. destruct (Hb n Hn) as (before & after & E & H1 & H2 & H3).
  assert (Hin : In n (help_names ls)).
  { rewrite E, help_names_app. apply in_or_app. left. exact H1. }
  apply (count_occ_In bytes_eq_dec) in Hin.
  unfold announced_once. rewrite Hh, Ht. rewrite Hh in Hin.
  destruct (in_dec bytes_eq_dec n seen); [|lia].
  split; [reflexivity|]. split; [reflexivity|]. exists before, after. auto.
Qed.

(** ** The translation returns *)

Lemma total_ret A (a : A) : total (ret (Some a)).
Proof. intros w _. exists a. reflexivity. Qed.

Lemma total_try A B (P : option A -> Prop) (m : io (option A)) (k : A -> io (option B)) :
  tame any_event P m -> total m -> (forall a, P (Some a) -> total (k a)) -> total (try m k).
Proof.
  intros Hm Tm Tk w Hw. destruct (Tm w Hw) as [a Ha].
  destruct (Hm w) as (evs & S1 & _ & _ & HP).
  unfold try, bind. destruct (m w) as [r w1]. cbn [fst snd] in *. subst r.
  apply (Tk a HP w1). apply (steps_reallocs S1). exact Hw.
Qed.

Lemma total_if A (c : bool) (m1 m2 : io (option A)) :
  total m1 -> total m2 -> total (if c then m1 else m2).
Proof. destruct c; auto. Qed.

Lemma total_append ub s : total (uwsgi_buffer_append ub s).
Proof.
  intros w Hw. unfold uwsgi_buffer_append, bind, next_realloc, emit, ret.
  destruct (unfailing_pop Hw) as [H1 _].
  destruct (pop (reallocs w)) as [ok rest]. cbn [fst] in H1. subst ok.
  eexists. reflexivity.
Qed.

Lemma total_appends chunks : forall ub, total (appends ub chunks).
Proof.
  induction chunks as [|s rest IH]; intros ub; cbn [appends].
  - apply total_ret.
  - eapply total_try; [apply tame_append; reflexivity | apply total_append | auto].
Qed.

Lemma total_end_of_segment pfx s : total (end_of_segment pfx s).
Proof.
  unfold end_of_segment.
  apply total_if; [|apply total_ret].
  apply total_if.
  - eapply total_try with (P := fun _ => True); [| | intros; apply total_ret].
    + apply tame_if; intros _; [|apply tame_ret; exact I].
      eapply tame_try with (P := fun _ => True) (R := fun _ => True); [| | exact I].
      * apply tame_if; intros _; [|apply tame_ret; exact I].
        eapply tame_post; [apply tame_append; reflexivity | auto].
      * intros a _. eapply tame_post; [apply tame_appends; reflexivity | auto].
    + apply total_if; [|apply total_ret].
      eapply total_try with (P := fun _ => True); [| | intros; apply total_appends].
      * apply tame_if; intros _; [|apply tame_ret; exact I].
        eapply tame_post; [apply tame_append; reflexivity | auto].
      * apply total_if; [apply total_append | apply total_ret].
  - eapply total_try with (P := fun _ => True).
    + apply tame_if; intros _; [|apply tame_ret; exact I].
      eapply tame_post; [apply tame_append; reflexivity | auto].
    + apply total_if; [apply total_append | apply total_ret].
    + intros a _. eapply total_try; [apply tame_append; reflexivity | apply total_append |].
      intros b _. apply total_ret.
Qed.

Lemma total_scan pfx : forall metric_name s, total (scan pfx metric_name s).
Proof.
  induction metric_name as [|c rest IH]; intros s; cbn [scan].
  - apply total_end_of_segment.
  - eapply total_try with (P := fun _ => True); [| | intros; apply IH].
    + apply tame_if; intros _; [|apply tame_ret; exact I].
      eapply tame_post; [apply tame_end_of_segment; reflexivity | auto].
    + apply total_if; [apply total_end_of_segment | apply total_ret].
Qed.

Lemma total_format nb0 lb0 metric_name pfx :
  total (prometheus_format_metric_name nb0 lb0 metric_name pfx).
Proof.
  unfold prometheus_format_metric_name.
  eapply total_try; [apply tame_append; reflexivity | apply total_append |].
  intros a _.
  eapply total_try with (P := fun _ => True); [| apply total_scan | intros; apply total_ret].
  eapply tame_post; [apply tame_scan; reflexivity | auto].
Qed.

Lemma never_short_quiet : never_short quiet.
Proof. reflexivity. Qed.

Lemma translated_spec pfx metric_name :
  translated pfx metric_name
  = Some (flat_name pfx metric_name, label_text (labels_of metric_name)).
Proof.
  unfold translated.
  destruct (total_format {| ident := NAME; buf := [] |} {| ident := LABELS; buf := [] |}
              metric_name pfx never_short_quiet) as [[nb lb] H].
  destruct (prometheus_format_metric_name {| ident := NAME; buf := [] |}
              {| ident := LABELS; buf := [] |} metric_name pfx quiet) as [r w'] eqn:E.
  cbn [fst] in *. subst r. apply format_spec in E. destruct E as [-> ->]. reflexivity.
Qed.

(** ** Cutting segments *)

Lemma segments_from_free : forall seg cur,
  dot_free seg -> segments_from cur seg = [cur ++ seg].
Proof.
  unfold dot_free. induction seg as [|c seg IH]; intros cur H; cbn [segments_from].
  - rewrite app_nil_r. reflexivity.
  - cbn [forallb] in H. apply andb_true_iff in H. destruct H as [Hc Hs].
    apply negb_true_iff in Hc. rewrite Hc, IH by exact Hs.
    rewrite <- app_assoc. reflexivity.
Qed.

Lemma segments_from_dot : forall seg cur rest,
  dot_free seg ->
  segments_from cur (seg ++ txt "." ++ rest) = (cur ++ seg) :: segments_from [] rest.
Proof.
  unfold dot_free. induction seg as [|c seg IH]; intros cur rest H.
  - cbn. rewrite app_nil_r. reflexivity.
  - cbn [forallb] in H. apply andb_true_iff in H. destruct H as [Hc Hs].
    apply negb_true_iff in Hc. cbn [app segments_from]. rewrite Hc, IH by exact Hs.
    rewrite <- app_assoc. reflexivity.
Qed.

Lemma segments_from_dot_free : forall metric_name cur,
  dot_free cur -> Forall dot_free (segments_from cur metric_name).
Proof.
  induction metric_name as [|c rest IH]; intros cur H; cbn [segments_from].
  - constructor; [exact H | constructor].
  - destruct (is_dot c) eqn:Hc.
    + constructor; [exact H | apply IH; reflexivity].
    + apply IH. unfold dot_free in *. rewrite forallb_app, H. cbn. rewrite Hc. reflexivity.
Qed.

Lemma segments_from_some metric_name : forall cur, segments_from cur metric_name <> [].
Proof.
  induction metric_name as [|c rest IH]; intros cur; cbn [segments_from].
  - discriminate.
  - destruct (is_dot c); [discriminate | apply IH].
Qed.

Lemma segments_join : forall segs,
  segs <> [] -> Forall dot_free segs -> segments (join_dots segs) = segs.
Proof.
  induction segs as [|seg rest IH]; intros Hne Hfree; [contradiction|].
  inversion Hfree as [|? ? Hseg Hrest]; subst.
  destruct rest as [|seg' rest].
  - cbn [join_dots]. unfold segments. rewrite segments_from_free by exact Hseg. reflexivity.
  - change (join_dots (seg :: seg' :: rest))
      with (seg ++ txt "." ++ join_dots (seg' :: rest)).
    unfold segments. rewrite segments_from_dot by exact Hseg.
    cbn [app]. f_equal. apply IH; [discriminate | exact Hrest].
Qed.

Lemma dot_free_firstn n seg : dot_free seg -> dot_free (firstn n seg).
Proof.
  unfold dot_free. revert n. induction seg as [|c seg IH]; intros [|n] H; try reflexivity.
  cbn [firstn forallb] in *. apply andb_true_iff in H. destruct H as [-> Hs].
  rewrite IH by exact Hs. reflexivity.
Qed.

Lemma segments_truncated n metric_name :
  segments (truncated n metric_name) = map (firstn n) (segments metric_name).
Proof.
  unfold truncated. apply segments_join.
  - intros H. apply map_eq_nil in H. revert H. apply segments_from_some.
  - apply Forall_map. eapply Forall_impl; [apply dot_free_firstn|].
    apply segments_from_dot_free. reflexivity.
Qed.

Lemma cap_firstn seg : cap (firstn (SEGMENT_SIZE - 1) seg) = cap seg.
Proof. unfold cap. rewrite firstn_firstn, Nat.min_id. reflexivity. Qed.

Lemma stored_segments_truncated metric_name :
  stored_segments (truncated (SEGMENT_SIZE - 1) metric_name) = stored_segments metric_name.
Proof.
  unfold stored_segments. rewrite segments_truncated, map_map.
  f_equal. apply map_ext. intros seg. apply cap_firstn.
Qed.

Lemma numeric_stored metric_name :
  filter segment_is_numeric (stored_segments metric_name) = numeric_segments metric_name.
Proof.
  unfold stored_segments, numeric_segments.
  induction (segments metric_name) as [|seg rest IH]; [reflexivity|].
  cbn [map filter].
  assert (Hne : nonempty (cap seg) = nonempty (firstn (SEGMENT_SIZE - 1) seg)).
  { unfold nonempty, cap. rewrite length_map. reflexivity. }
  assert (Hnum : segment_is_numeric (cap seg)
                 = segment_is_numeric (firstn (SEGMENT_SIZE - 1) seg)).
  { unfold cap. apply numeric_sanitized. }
  rewrite Hne. destruct (nonempty (firstn (SEGMENT_SIZE - 1) seg)); [|exact IH].
  cbn [filter]. rewrite Hnum.
  destruct (segment_is_numeric (firstn (SEGMENT_SIZE - 1) seg)) eqn:E; [|exact IH].
  unfold cap at 1. rewrite (numeric_raw _ E), IH. reflexivity.
Qed.

(** ** Events of a step *)

Lemma skipn_past A (l evs : list A) : skipn (length l) (l ++ evs) = evs.
Proof. induction l as [|a l IH]; [reflexivity | exact IH]. Qed.

Lemma events_of_steps A (m : io A) w evs :
  steps w (snd (m w)) evs -> events_of m w = evs.
Proof. intros S. unfold events_of. rewrite (steps_trace S). apply skipn_past. Qed.

Lemma sound_tame A good (P : A -> Prop) (m : io A) : sound good P m -> tame pass_event P m.
Proof.
  intros Hm w. destruct (Hm w) as (evs & S1 & Q1 & L1 & P1 & _).
  exists evs. auto.
Qed.

(** ** The dedicated server *)

Lemma pass_event_serving e : pass_event e = true -> serving_event e = true.
Proof. destruct e as [[] ?|[] ?| | | | | | | | | | | | | | | | |]; simpl; auto. Qed.

Lemma attends_close c : attends c false (close c ;; returns).
Proof.
  intros w. exists []. split; [reflexivity|]. split; [|auto]. split; auto.
Qed.

Lemma attends_waits c : attends c true (ret None).
Proof.
  intros w. exists []. split; [reflexivity|]. split; [|auto]. apply steps_refl.
Qed.

Lemma attends_bind A (P : A -> Prop) c stuck (m : io A) (k : A -> io (option unit)) :
  tame serving_event P m -> (forall a, P a -> attends c stuck (k a)) ->
  attends c stuck (bind m k).
Proof.
  intros Hm Hk w. destruct (Hm w) as (evs1 & S1 & Q1 & L1 & P1).
  unfold bind. destruct (m w) as [a w1]. cbn [fst snd] in *.
  destruct (Hk a P1 w1) as (evs2 & R2 & S2 & Q2 & L2).
  exists (evs1 ++ evs2). split; [exact R2|]. split; [|split].
  - rewrite <- app_assoc. eapply steps_trans; eassumption.
  - rewrite forallb_app, Q1, Q2. reflexivity.
  - rewrite lock_run_app, L1. exact L2.
Qed.

Lemma tame_next_host Q : tame Q (fun _ => True) next_host.
Proof.
  intros w. exists []. unfold next_host.
  destruct (pop (host w)) as [ok rest]. cbn [fst snd].
  split; [|auto]. split; cbn; auto. rewrite app_nil_r. reflexivity.
Qed.

Lemma tame_write c data : tame serving_event (fun _ => True) (write c data).
Proof.
  unfold write.
  eapply tame_bind; [apply tame_next_host|]. intros ok _.
  eapply tame_bind; [apply tame_emit; reflexivity|]. intros _ _.
  apply tame_ret. exact I.
Qed.

Lemma tame_read c count :
  tame serving_event (fun r => is_some r = negb (keeps_waiting c)) (read c count).
Proof.
  unfold read, keeps_waiting. destruct (request c); [destruct (silence c)|];
    try (apply tame_ret; reflexivity);
    (eapply tame_bind; [apply tame_emit; reflexivity|]; intros _ _;
     apply tame_ret; reflexivity).
Qed.

Lemma tame_unchecked ub (m : io (option uwsgi_buffer)) :
  tame serving_event (fun _ => True) m -> tame serving_event (fun _ => True) (unchecked ub m).
Proof.
  intros Hm. unfold unchecked. eapply tame_bind; [exact Hm|]. intros r _.
  apply tame_ret. exact I.
Qed.

Lemma tame_generate_serving cfg uwsgi :
  tame serving_event (fun _ => True) (prometheus_generate_metrics cfg uwsgi).
Proof.
  eapply tame_weaken; [exact pass_event_serving | | apply (sound_tame (sound_generate cfg uwsgi))].
  auto.
Qed.

Ltac serve_append :=
  apply tame_unchecked; eapply tame_post; [apply tame_append; reflexivity | auto].

Lemma respond_attends cfg uwsgi client :
  attends client (keeps_waiting client) (respond cfg uwsgi client).
Proof.
  unfold respond.
  eapply attends_bind; [apply tame_emit; reflexivity|]. intros _ _.
  eapply attends_bind; [apply tame_read|]. intros [rlen|] Hr; cbn [is_some] in Hr.
  2: { symmetry in Hr. apply negb_false_iff in Hr. rewrite Hr. apply attends_waits. }
  symmetry in Hr. apply negb_true_iff in Hr. rewrite Hr.
  destruct (rlen <=? 0)%Z; [apply attends_close|].
  eapply attends_bind; [apply tame_generate_serving|]. intros [metrics_buf|] _.
  - eapply attends_bind with (P := fun _ => True).
    { eapply tame_post; [apply tame_buffer_new; reflexivity | auto]. }
    intros [response|] _; [|apply attends_close].
    eapply attends_bind; [serve_append|]. intros r1 _.
    eapply attends_bind; [serve_append|]. intros r2 _.
    eapply attends_bind; [serve_append|]. intros r3 _.
    eapply attends_bind; [unfold uwsgi_buffer_num64; serve_append|]. intros r4 _.
    eapply attends_bind; [serve_append|]. intros r5 _.
    eapply attends_bind; [serve_append|]. intros r6 _.
    eapply attends_bind; [serve_append|]. intros r7 _.
    eapply attends_bind; [apply tame_write|]. intros ok _.
    eapply attends_bind with (P := fun _ => True).
    { apply tame_if; intros _; [apply tame_log; reflexivity | apply tame_ret; exact I]. }
    intros _ _.
    eapply attends_bind; [apply tame_write|]. intros ok1 _.
    eapply attends_bind with (P := fun _ => True).
    { apply tame_if; intros _; [apply tame_log; reflexivity | apply tame_ret; exact I]. }
    intros _ _. apply attends_close.
  - eapply attends_bind; [apply tame_write|]. intros ok _.
    eapply attends_bind with (P := fun _ => True).
    { apply tame_if; intros _; [apply tame_log; reflexivity | apply tame_ret; exact I]. }
    intros _ _. apply attends_close.
Qed.

Lemma serving_no_accept evs :
  forallb serving_event evs = true -> accepted evs = [] /\ closed evs = [].
Proof.
  induction evs as [|e evs IH]; [auto|].
  cbn [forallb]. intros H. apply andb_true_iff in H. destruct H as [He Hs].
  destruct (IH Hs) as [IH1 IH2]. unfold accepted, closed in *. cbn [flat_map].
  rewrite IH1, IH2. destruct e; try discriminate He; auto.
Qed.

Lemma accepted_app l1 l2 : accepted (l1 ++ l2) = accepted l1 ++ accepted l2.
Proof. apply flat_map_app. Qed.

Lemma closed_app l1 l2 : closed (l1 ++ l2) = closed l1 ++ closed l2.
Proof. apply flat_map_app. Qed.

Lemma master_cycle_unbound cfg uwsgi w :
  (server_fd cfg < 0)%Z -> prometheus_master_cycle cfg uwsgi w = (Some tt, w).
Proof.
  intros Hfd. unfold prometheus_master_cycle. apply Z.ltb_lt in Hfd. rewrite Hfd.
  reflexivity.
Qed.

Lemma master_cycle_idle cfg uwsgi w :
  (0 <= server_fd cfg)%Z -> backlog w = [] ->
  prometheus_master_cycle cfg uwsgi w = (Some tt, snd (emit (EvSelect false) w)).
Proof.
  intros Hfd Hb. unfold prometheus_master_cycle.
  destruct (Z.ltb_spec (server_fd cfg) 0) as [Hlt|_]; [lia|].
  unfold bind, select. rewrite Hb. reflexivity.
Qed.

Lemma master_cycle_ready cfg uwsgi w c rest :
  (0 <= server_fd cfg)%Z -> backlog w = c :: rest -> refused c = [] ->
  prometheus_master_cycle cfg uwsgi w = respond cfg uwsgi c (after_accept w c rest).
Proof.
  intros Hfd Hb Hr. unfold prometheus_master_cycle.
  destruct (Z.ltb_spec (server_fd cfg) 0) as [Hlt|_]; [lia|].
  unfold bind at 1, select. rewrite Hb. cbn [fst snd emit].
  unfold prometheus_server_handle_request, bind at 1, accept. cbn [backlog].
  rewrite Hb, Hr. reflexivity.
Qed.

Lemma master_cycle_refused cfg uwsgi w c rest e later :
  (0 <= server_fd cfg)%Z -> backlog w = c :: rest -> refused c = e :: later ->
  prometheus_master_cycle cfg uwsgi w
  = (Some tt,
     {| reallocs := reallocs w; mallocs := mallocs w; host := host w;
        backlog := {| peer := peer c; request := request c; silence := silence c;
                      refused := later |} :: rest;
        trace := if worth_a_log e
                 then (trace w ++ [EvSelect true]) ++ [EvLog "[prometheus] accept()"]
                 else trace w ++ [EvSelect true] |}).
Proof.
  intros Hfd Hb Hr. unfold prometheus_master_cycle.
  destruct (Z.ltb_spec (server_fd cfg) 0) as [Hlt|_]; [lia|].
  unfold bind at 1, select. rewrite Hb. cbn [fst snd emit].
  unfold prometheus_server_handle_request, bind at 1, accept. cbn [backlog].
  rewrite Hb, Hr. destruct (worth_a_log e); reflexivity.
Qed.

(** One tick of a bound server with a connection waiting that [accept]
    returns. *)
Lemma master_cycle_attends cfg uwsgi w c rest :
  (0 <= server_fd cfg)%Z -> backlog w = c :: rest -> refused c = [] ->
  exists evs,
    fst (prometheus_master_cycle cfg uwsgi w)
    = (if keeps_waiting c then None else Some tt)
    /\ steps (after_accept w c rest) (snd (prometheus_master_cycle cfg uwsgi w))
         (evs ++ if keeps_waiting c then [] else [EvClose c])
    /\ forallb serving_event evs = true
    /\ lock_run Free evs = Some Free.
Proof.
  intros Hfd Hb Hr. rewrite (master_cycle_ready cfg uwsgi w Hfd Hb Hr).
  apply respond_attends.
Qed.

(** One tick of a bound server: at most the head of the backlog is
    accepted, nobody else is closed, and the lock is left alone or taken as a
    pass takes it. *)
Lemma master_cycle_run cfg uwsgi w :
  (0 <= server_fd cfg)%Z ->
  exists evs,
    trace (snd (prometheus_master_cycle cfg uwsgi w)) = trace w ++ evs
    /\ (accepted evs = [] \/ accepted evs = firstn 1 (backlog w))
    /\ closed evs
       = (if is_some (fst (prometheus_master_cycle cfg uwsgi w)) then accepted evs else [])
    /\ brief_rlock evs.
Proof.
  intros Hfd. destruct (backlog w) as [|c rest] eqn:Hb.
  - rewrite (master_cycle_idle cfg uwsgi w Hfd Hb).
    exists [EvSelect false]. cbn.
    split; [reflexivity|]. split; [left; reflexivity|]. split; reflexivity.
  - destruct (refused c) as [|e later] eqn:Hr.
    + destruct (master_cycle_attends cfg uwsgi w Hfd Hb Hr) as (evs & R & S & Q & L).
      exists ([EvSelect true; EvAccept c] ++ evs
              ++ if keeps_waiting c then [] else [EvClose c]).
      rewrite (steps_trace S), R. cbn [after_accept trace].
      destruct (serving_no_accept _ Q) as [A C].
      unfold brief_rlock. rewrite !accepted_app, !closed_app, A, C.
      rewrite lock_run_app. cbn [lock_run lock_step]. rewrite lock_run_app, L.
      rewrite <- !app_assoc.
      destruct (keeps_waiting c); cbn; rewrite ?app_nil_r;
        (split; [reflexivity|]; split; [right; reflexivity|]; split; [reflexivity|]);
        rewrite ?L; reflexivity.
    + rewrite (master_cycle_refused cfg uwsgi w Hfd Hb Hr).
      exists (EvSelect true :: accept_log e). unfold accept_log. cbn [fst snd trace].
      destruct (worth_a_log e); cbn; rewrite <- ?app_assoc;
        (split; [reflexivity|]; split; [left; reflexivity|]; split; reflexivity).
Qed.

Lemma master_cycle_spec cfg uwsgi w :
  (0 <= server_fd cfg)%Z ->
  (accepted (events_of (prometheus_master_cycle cfg uwsgi) w) = []
   \/ accepted (events_of (prometheus_master_cycle cfg uwsgi) w) = firstn 1 (backlog w))
  /\ closed (events_of (prometheus_master_cycle cfg uwsgi) w)
     = (if is_some (fst (prometheus_master_cycle cfg uwsgi w))
        then accepted (events_of (prometheus_master_cycle cfg uwsgi) w) else [])
  /\ brief_rlock (events_of (prometheus_master_cycle cfg uwsgi) w).
Proof.
  intros Hfd. destruct (master_cycle_run cfg uwsgi w Hfd) as (evs & T & A & C & L).
  unfold events_of. rewrite T, skipn_past. auto.
Qed.

(** ** The route handler *)

Ltac host_call :=
  eapply tame_bind; [apply tame_next_host|]; intros ? _;
  eapply tame_bind; [apply tame_emit; reflexivity|]; intros _ _;
  apply tame_ret; exact I.

Lemma tame_prepare_headers status :
  tame any_event (fun _ => True) (uwsgi_response_prepare_headers status).
Proof. unfold uwsgi_response_prepare_headers. host_call. Qed.

Lemma tame_add_content_type ctype :
  tame any_event (fun _ => True) (uwsgi_response_add_content_type ctype).
Proof. unfold uwsgi_response_add_content_type. host_call. Qed.

Lemma tame_add_content_length n :
  tame any_event (fun _ => True) (uwsgi_response_add_content_length n).
Proof. unfold uwsgi_response_add_content_length. host_call. Qed.

Lemma tame_write_body body :
  tame any_event (fun _ => True) (uwsgi_response_write_body_do body).
Proof. unfold uwsgi_response_write_body_do. host_call. Qed.

Lemma tame_break : tame any_event breaks (ret UWSGI_ROUTE_BREAK).
Proof. apply tame_ret. reflexivity. Qed.

Lemma tame_routing_func cfg uwsgi :
  tame any_event breaks (uwsgi_routing_func_prometheus_metrics cfg uwsgi).
Proof.
  unfold uwsgi_routing_func_prometheus_metrics.
  apply tame_if; intros _.
  - eapply tame_bind; [apply tame_log; reflexivity|]. intros _ _.
    eapply tame_bind; [apply tame_prepare_headers|]. intros ok _.
    apply tame_if; intros _; [apply tame_break|].
    eapply tame_bind; [apply tame_write_body|]. intros _ _. apply tame_break.
  - eapply tame_bind with (P := fun _ => True).
    { eapply tame_weaken; [| | apply (sound_tame (sound_generate cfg uwsgi))]; auto. }
    intros [m|] _.
    + eapply tame_bind; [apply tame_prepare_headers|]. intros ok _.
      apply tame_if; intros _; [apply tame_break|].
      eapply tame_bind; [apply tame_add_content_type|]. intros ok1 _.
      apply tame_if; intros _; [apply tame_break|].
      eapply tame_bind; [apply tame_add_content_length|]. intros ok2 _.
      apply tame_if; intros _; [apply tame_break|].
      eapply tame_bind; [apply tame_write_body|]. intros ok3 _.
      apply tame_if; intros _; apply tame_break.
    + eapply tame_bind; [apply tame_log; reflexivity|]. intros _ _.
      eapply tame_bind; [apply tame_prepare_headers|]. intros ok _.
      apply tame_if; intros _; [apply tame_break|].
      eapply tame_bind; [apply tame_write_body|]. intros _ _. apply tame_break.
Qed.

Lemma routing_unavailable cfg uwsgi w :
  unavailable uwsgi = true ->
  exists ok ok1,
    events_of (uwsgi_routing_func_prometheus_metrics cfg uwsgi) w
    = EvLog unavailable_log
        :: EvPrepareHeaders (txt "503 Service Unavailable") ok
        :: (if ok then [EvWriteBody not_initialized_msg ok1] else []).
Proof.
  intros H. unfold events_of, uwsgi_routing_func_prometheus_metrics. rewrite H.
  destruct w as [re ma ho ba tr].
  destruct ho as [|[] [|ok1 rest]];
    [exists true, true | exists true, true | exists true, ok1
     | exists false, true | exists false, true];
    cbv beta iota zeta delta [bind uwsgi_log emit ret uwsgi_response_prepare_headers
      uwsgi_response_write_body_do next_host host trace reallocs mallocs backlog
      fst snd pop negb];
    rewrite <- !app_assoc; rewrite skipn_past; cbn [app]; reflexivity.
Qed.

Lemma unavailable_cases uwsgi :
  has_metrics uwsgi = false \/ metrics uwsgi = [] -> unavailable uwsgi = true.
Proof.
  unfold unavailable. intros [-> | ->]; [reflexivity | apply orb_true_r].
Qed.

Lemma buffer_new_ok id w :
  never_null w ->
  exists w', uwsgi_buffer_new id w = (Some {| ident := id; buf := [] |}, w')
             /\ never_null w'.
Proof.
  unfold never_null, unfailing. destruct w as [re ma ho ba tr]. cbn [mallocs].
  destruct ma as [|[] rest]; cbn [forallb andb]; intros H; try discriminate H;
    eexists; (split; [reflexivity | exact H]).
Qed.

Lemma generate_unavailable cfg uwsgi w :
  unavailable uwsgi = true -> never_null w ->
  fst (prometheus_generate_metrics cfg uwsgi w) = Some {| ident := OUTPUT; buf := [] |}.
Proof.
  intros Hu Hw. unfold prometheus_generate_metrics. rewrite Hu.
  destruct (buffer_new_ok OUTPUT Hw) as (w1 & E1 & Hw1).
  destruct (buffer_new_ok NAME Hw1) as (w2 & E2 & Hw2).
  destruct (buffer_new_ok LABELS Hw2) as (w3 & E3 & Hw3).
  unfold bind at 1. rewrite E1.
  unfold bind at 1. rewrite E2.
  unfold bind at 1. rewrite E3.
  reflexivity.
Qed.

(** ** A record that is passed over *)

Lemma walk_after_skip cfg pfx nb0 lb0 um rest p w w1 :
  visit cfg pfx nb0 lb0 um p w = (Some p, w1) ->
  walk cfg pfx nb0 lb0 (um :: rest) p w
  = walk cfg pfx nb0 lb0 rest p (snd (emit EvNext w1)).
Proof.
  intros H. cbn [walk]. unfold try, bind. rewrite H. reflexivity.
Qed.

Lemma visit_failed_translation cfg pfx nb0 lb0 um p w raw v :
  name um = Some raw -> value um = Some v ->
  (length raw =? 0) = false ->
  no_workers cfg && nonzero (uwsgi_starts_with raw (txt "worker.")) = false ->
  fst (prometheus_format_metric_name nb0 lb0 raw pfx w) = None ->
  exists w1, visit cfg pfx nb0 lb0 um p w = (Some p, w1).
Proof.
  intros Hn Hv Hl Hw Hf. unfold visit. rewrite Hn, Hv, Hl, Hw.
  unfold bind at 1.
  destruct (prometheus_format_metric_name nb0 lb0 raw pfx w) as [r w1].
  cbn [fst] in Hf. subst r. eexists. reflexivity.
Qed.

Lemma visit_failed_suffix cfg pfx nb0 lb0 um p w raw v nb lb w1 :
  name um = Some raw -> value um = Some v ->
  (length raw =? 0) = false ->
  no_workers cfg && nonzero (uwsgi_starts_with raw (txt "worker.")) = false ->
  prometheus_format_metric_name nb0 lb0 raw pfx w = (Some (nb, lb), w1) ->
  (pos nb =? 0) = false ->
  type um = UWSGI_METRIC_COUNTER ->
  fst (uwsgi_buffer_append nb (txt "_total") w1) = None ->
  exists w2, visit cfg pfx nb0 lb0 um p w = (Some p, w2).
Proof.
  intros Hn Hv Hl Hw Hf Hp Ht Hs. unfold visit. rewrite Hn, Hv, Hl, Hw.
  unfold bind at 1. rewrite Hf, Hp, Ht. cbn [is_counter].
  unfold bind at 1.
  destruct (uwsgi_buffer_append nb (txt "_total") w1) as [r w2].
  cbn [fst] in Hs. subst r. eexists. reflexivity.
Qed.

(** A pass that returns a buffer has had no failed append to it. *)
Lemma generate_abort cfg uwsgi w :
  In (EvAppend OUTPUT false) (events_of (prometheus_generate_metrics cfg uwsgi) w) ->
  fst (prometheus_generate_metrics cfg uwsgi w) = None.
Proof.
  intros Hin. destruct (sound_generate cfg uwsgi w) as (evs & S & _ & _ & _ & C).
  rewrite (events_of_steps _ S) in Hin.
  destruct (fst (prometheus_generate_metrics cfg uwsgi w)) as [out|]; [|reflexivity].
  specialize (C eq_refl). rewrite forallb_forall in C. specialize (C _ Hin). discriminate C.
Qed.

Lemma generate_lock cfg uwsgi w :
  brief_rlock (events_of (prometheus_generate_metrics cfg uwsgi) w).
Proof.
  destruct (sound_generate cfg uwsgi w) as (evs & S & _ & L & _).
  rewrite (events_of_steps _ S). exact L.
Qed.

Lemma routing_lock cfg uwsgi w :
  brief_rlock (events_of (uwsgi_routing_func_prometheus_metrics cfg uwsgi) w)
  /\ fst (uwsgi_routing_func_prometheus_metrics cfg uwsgi w) = UWSGI_ROUTE_BREAK.
Proof.
  destruct (tame_routing_func cfg uwsgi w) as (evs & S & _ & L & B).
  rewrite (events_of_steps _ S). auto.
Qed.

(** ** A pass in which nothing fails *)

Lemma total_bind A B (P : A -> Prop) (m : io A) (k : A -> io (option B)) :
  tame any_event P m -> (forall a, P a -> total (k a)) -> total (bind m k).
Proof.
  intros Hm Tk w Hw. destruct (Hm w) as (evs & S1 & _ & _ & HP).
  unfold bind. destruct (m w) as [a w1]. cbn [fst snd] in *.
  apply (Tk a HP w1). apply (steps_reallocs S1). exact Hw.
Qed.

Lemma tame_cond_appends (c : bool) ub chunks :
  tame any_event (fun _ => True) (if c then appends ub chunks else ret (Some ub)).
Proof.
  destruct c; [|apply tame_ret; exact I].
  eapply tame_post; [apply tame_appends; reflexivity | auto].
Qed.

Lemma total_cond_appends (c : bool) ub chunks :
  total (if c then appends ub chunks else ret (Some ub)).
Proof. destruct c; [apply total_appends | apply total_ret]. Qed.

Lemma tame_append_any ub s : tame any_event (fun _ => True) (uwsgi_buffer_append ub s).
Proof. eapply tame_post; [apply tame_append; reflexivity | auto]. Qed.

Lemma total_render cfg nb lb raw t v p : total (render cfg nb lb raw t v p).
Proof.
  unfold render.
  eapply total_try with (P := fun _ => True).
  - apply tame_if; intros _; [|apply tame_ret; exact I].
    eapply tame_try with (P := fun _ => True); [apply tame_cond_appends | | exact I].
    intros ub1 _.
    eapply tame_try with (P := fun _ => True); [apply tame_cond_appends | | exact I].
    intros ub2 _.
    eapply tame_bind; [apply tame_seen_names_add; reflexivity|]. intros seen _.
    apply tame_ret. exact I.
  - apply total_if; [|apply total_ret].
    eapply total_try; [apply tame_cond_appends | apply total_cond_appends|]. intros ub1 _.
    eapply total_try; [apply tame_cond_appends | apply total_cond_appends|]. intros ub2 _.
    eapply total_bind; [apply tame_seen_names_add; reflexivity|]. intros seen _.
    apply total_ret.
  - intros p1 _.
    eapply total_try; [apply tame_append_any | apply total_append|]. intros ub3 _.
    eapply total_try; [apply tame_cond_appends | apply total_cond_appends|]. intros ub4 _.
    eapply total_try; [apply tame_append_any | apply total_append|]. intros ub5 _.
    eapply total_bind; [apply tame_read_value; reflexivity|]. intros n _.
    eapply total_try; [apply tame_append_any | apply total_append|]. intros ub6 _.
    eapply total_try; [apply tame_append_any | apply total_append|]. intros ub7 _.
    apply total_ret.
Qed.

(** Without a failure a record is passed over only for what it is. *)
Lemma visit_exact cfg pfx nb0 lb0 um p w p' w' :
  ident nb0 = NAME -> ident lb0 = LABELS ->
  never_short w -> never_null w ->
  visit cfg pfx nb0 lb0 um p w = (Some p', w') ->
  buf (ub p') = buf (ub p) ++ lines_text (fst (record_lines cfg pfx (seen_names p) um))
  /\ seen_names p' = snd (record_lines cfg pfx (seen_names p) um).
Proof.
  intros Hn Hl Hshort Hnull H.
  destruct (@visit_spec cfg pfx nb0 lb0 um p w p' w' Hn Hl Hnull H) as [-> | Hspec];
    [|exact Hspec].
  unfold visit in H. unfold record_lines.
  assert (Hskip : buf (ub p) = buf (ub p) ++ lines_text [] /\ seen_names p = seen_names p).
  { cbn. rewrite app_nil_r. auto. }
  destruct (name um) as [raw|]; [|exact Hskip].
  destruct (value um) as [v|]; [|exact Hskip].
  destruct (length raw =? 0); [exact Hskip|].
  destruct (no_workers cfg && nonzero (uwsgi_starts_with raw (txt "worker.")));
    [exact Hskip|].
  cbn [orb]. unfold bind at 1 in H.
  destruct (total_format nb0 lb0 raw pfx Hshort) as [[nb lb] Hf].
  destruct (@tame_format any_event nb0 lb0 raw pfx ltac:(reflexivity) ltac:(reflexivity) w)
    as (evs & S1 & _).
  destruct (prometheus_format_metric_name nb0 lb0 raw pfx w) as [r w1] eqn:EF.
  cbn [fst snd] in Hf, S1. subst r.
  pose proof EF as EF'. apply format_spec in EF'. destruct EF' as [Hnb Hlb].
  unfold pos in H. rewrite Hnb in H.
  destruct (length (flat_name pfx raw) =? 0); [exact Hskip|].
  assert (Hshort1 : never_short w1) by (apply (steps_reallocs S1); exact Hshort).
  assert (Hnull1 : never_null w1) by (apply (steps_mallocs S1); exact Hnull).
  unfold emitted_name.
  destruct (is_counter (type um)).
  - unfold bind at 1 in H.
    destruct (total_append nb (txt "_total") Hshort1) as [nb1 Hs].
    destruct (uwsgi_buffer_append nb (txt "_total") w1) as [r w2] eqn:ES.
    cbn [fst] in Hs. subst r.
    pose proof ES as M. apply append_mallocs in M. apply append_some in ES. subst nb1.
    assert (Hnull2 : never_null w2) by (unfold never_null in *; congruence).
    apply (render_spec _ _ _ _ _ _ _ Hnull2) in H. destruct H as [B S].
    cbn [buf] in B, S. rewrite Hnb, Hlb in B, S. exact (conj B S).
  - apply (render_spec _ _ _ _ _ _ _ Hnull1) in H. destruct H as [B S].
    rewrite Hnb, Hlb in B, S. rewrite app_nil_r. exact (conj B S).
Qed.

Lemma total_visit cfg pfx nb0 lb0 um p : total (visit cfg pfx nb0 lb0 um p).
Proof.
  unfold visit.
  destruct (name um) as [raw|]; [|apply total_ret].
  destruct (value um) as [v|]; [|apply total_ret].
  apply total_if; [apply total_ret|].
  apply total_if; [apply total_ret|].
  eapply total_bind with (P := fun _ => True).
  { eapply tame_post; [apply tame_format; reflexivity | auto]. }
  intros [[nb lb]|] _.
  - apply total_if; [apply total_ret|].
    apply total_if; [|apply total_render].
    eapply total_bind; [apply tame_append_any|].
    intros [nb1|] _; [apply total_render|].
    eapply total_bind; [apply tame_log; reflexivity|]. intros _ _. apply total_ret.
  - eapply total_bind; [apply tame_log; reflexivity|]. intros _ _. apply total_ret.
Qed.

Lemma walk_exact cfg pfx nb0 lb0 : forall ums p w,
  ident nb0 = NAME -> ident lb0 = LABELS -> ident (ub p) = OUTPUT ->
  never_short w -> never_null w ->
  exists p' w',
    walk cfg pfx nb0 lb0 ums p w = (Some p', w')
    /\ buf (ub p') = buf (ub p) ++ lines_text (exposition cfg pfx (seen_names p) ums).
Proof.
  induction ums as [|um rest IH]; intros p w Hn Hl Hp Hshort Hnull; cbn [walk].
  - exists p, w. split; [reflexivity|]. cbn. rewrite app_nil_r. reflexivity.
  - destruct (total_visit cfg pfx nb0 lb0 um p Hshort) as [p1 H1].
    destruct (@sound_visit cfg pfx nb0 lb0 um p Hn Hl Hp w) as (evs & S1 & _ & _ & K1 & _).
    destruct (visit cfg pfx nb0 lb0 um p w) as [r w1] eqn:E.
    cbn [fst snd] in H1, S1, K1. subst r. specialize (K1 p1 eq_refl).
    destruct (@visit_exact cfg pfx nb0 lb0 um p w p1 w1 Hn Hl Hshort Hnull E) as [B S].
    unfold try, bind. rewrite E. cbn [emit].
    match goal with
    | |- context [walk cfg pfx nb0 lb0 rest p1 ?w2] =>
        destruct (IH p1 w2 Hn Hl K1) as (p' & w' & Hw & Hb)
    end.
    + apply (steps_reallocs S1). exact Hshort.
    + apply (steps_mallocs S1). exact Hnull.
    + exists p', w'. split; [exact Hw|].
      cbn [exposition]. rewrite lines_text_app, Hb, B, S, app_assoc. reflexivity.
Qed.

(** With no failure at all a pass returns the lines of the whole
    registry. *)
Lemma generate_complete cfg uwsgi w :
  never_short w -> never_null w ->
  exists out,
    fst (prometheus_generate_metrics cfg uwsgi w) = Some out
    /\ buf out = if unavailable uwsgi then []
                 else lines_text (exposition cfg (prefix_of cfg) seen_names_create
                                    (metrics uwsgi)).
Proof.
  intros Hshort Hnull. unfold prometheus_generate_metrics.
  assert (Hkeep : forall id w0 w1 r, uwsgi_buffer_new id w0 = (r, w1) ->
                    never_short w0 -> never_short w1).
  { intros id w0 w1 r E H0.
    destruct (@tame_buffer_new any_event id ltac:(reflexivity) w0) as (evs & S & _).
    rewrite E in S. apply (steps_reallocs S). exact H0. }
  destruct (buffer_new_ok OUTPUT Hnull) as (w1 & E1 & Hw1).
  destruct (buffer_new_ok NAME Hw1) as (w2 & E2 & Hw2).
  destruct (buffer_new_ok LABELS Hw2) as (w3 & E3 & Hw3).
  unfold bind at 1. rewrite E1.
  unfold bind at 1. rewrite E2.
  unfold bind at 1. rewrite E3.
  destruct (unavailable uwsgi).
  - eexists. split; reflexivity.
  - assert (Hs3 : never_short w3) by eauto.
    destruct (@walk_exact cfg (prefix_of cfg) {| ident := NAME; buf := [] |}
                {| ident := LABELS; buf := [] |} (metrics uwsgi)
                {| ub := {| ident := OUTPUT; buf := [] |}; seen_names := seen_names_create |}
                w3 eq_refl eq_refl eq_refl Hs3 Hw3) as (p' & w' & Hw & Hb).
    unfold try, bind. unfold prefix_of in Hw. rewrite Hw. cbn [ret fst].
    exists (ub p'). split; [reflexivity | exact Hb].
Qed.

(** ** Escaping *)

Lemma append_run ub s w :
  uwsgi_buffer_append ub s w
  = (if fst (pop (reallocs w))
     then Some {| ident := ident ub; buf := buf ub ++ s |} else None,
     {| reallocs := snd (pop (reallocs w)); mallocs := mallocs w; host := host w;
        backlog := backlog w;
        trace := trace w ++ [EvAppend (ident ub) (fst (pop (reallocs w)))] |}).
Proof.
  unfold uwsgi_buffer_append, bind, next_realloc, emit, ret.
  destruct (pop (reallocs w)) as [ok rest]. reflexivity.
Qed.

Lemma events_of_trace A (m : io A) w evs :
  trace (snd (m w)) = trace w ++ evs -> events_of m w = evs.
Proof. unfold events_of. intros ->. apply skipn_past. Qed.

(** ** Bytes that a flat name is made of *)

Lemma sanitize_name_char c : name_char (sanitize c) = true.
Proof. each_ascii c; reflexivity. Qed.

Lemma cap_name_chars seg : forallb name_char (cap seg) = true.
Proof.
  unfold cap. induction (firstn (SEGMENT_SIZE - 1) seg) as [|c l IH]; [reflexivity|].
  cbn [map forallb]. rewrite sanitize_name_char. exact IH.
Qed.

Lemma glue_name_chars : forall segs fresh after_numeric,
  Forall (fun seg => forallb name_char seg = true) segs ->
  forallb name_char (glue fresh after_numeric segs) = true.
Proof.
  induction segs as [|seg rest IH]; intros fresh after_numeric H; [reflexivity|].
  inversion H as [|? ? Hseg Hrest]; subst. cbn [glue].
  destruct (segment_is_numeric seg); [apply IH; exact Hrest|].
  rewrite !forallb_app, Hseg, IH by exact Hrest.
  destruct (fresh || after_numeric); reflexivity.
Qed.

Lemma stored_name_chars metric_name :
  Forall (fun seg => forallb name_char seg = true) (stored_segments metric_name).
Proof.
  unfold stored_segments. apply Forall_forall. intros seg Hin.
  apply filter_In in Hin. destruct Hin as [Hin _].
  apply in_map_iff in Hin. destruct Hin as (raw & <- & _). apply cap_name_chars.
Qed.

(** ** Empty segments *)

Lemma cap_nonempty seg : nonempty (cap seg) = nonempty seg.
Proof.
  unfold nonempty, cap. rewrite length_map, length_firstn.
  destruct seg as [|c seg]; [reflexivity|]. reflexivity.
Qed.

Lemma stored_segments_filter metric_name :
  stored_segments metric_name = map cap (filter nonempty (segments metric_name)).
Proof.
  unfold stored_segments. induction (segments metric_name) as [|seg l IH]; [reflexivity|].
  cbn [map filter]. rewrite cap_nonempty.
  destruct (nonempty seg); cbn [map]; rewrite IH; reflexivity.
Qed.

Lemma glue_length_text : forall segs fresh after_numeric,
  Forall (fun seg => nonempty seg = true) segs ->
  (glue fresh after_numeric segs = [] <-> forallb segment_is_numeric segs = true).
Proof.
  induction segs as [|seg rest IH]; intros fresh after_numeric H.
  - cbn. tauto.
  - inversion H as [|? ? Hseg Hrest]; subst. cbn [glue forallb].
    destruct (segment_is_numeric seg) eqn:E; cbn [andb].
    + apply IH. exact Hrest.
    + split; [|discriminate]. intros Hnil.
      apply (f_equal (@length ascii)) in Hnil. rewrite !length_app in Hnil.
      unfold nonempty in Hseg. apply Nat.ltb_lt in Hseg. cbn [length] in Hnil. lia.
Qed.

Lemma stored_nonempty metric_name :
  Forall (fun seg => nonempty seg = true) (stored_segments metric_name).
Proof.
  unfold stored_segments. apply Forall_forall. intros seg Hin.
  apply filter_In in Hin. apply Hin.
Qed.

(** ** Events of a pass *)

Lemma generate_events cfg uwsgi w :
  trace (snd (prometheus_generate_metrics cfg uwsgi w))
  = trace w ++ events_of (prometheus_generate_metrics cfg uwsgi) w
  /\ forallb pass_event (events_of (prometheus_generate_metrics cfg uwsgi) w) = true.
Proof.
  destruct (sound_generate cfg uwsgi w) as (evs & S & Hp & _).
  rewrite (@events_of_steps _ _ _ _ S). split; [apply (steps_trace S) | exact Hp].
Qed.

Lemma off_backlog_generate cfg uwsgi w :
  backlog (snd (prometheus_generate_metrics cfg uwsgi w)) = backlog w.
Proof.
  destruct (sound_generate cfg uwsgi w) as (evs & S & _). apply (steps_backlog S).
Qed.

(** ** Lines of a pass *)








Lemma record_lines_passed_over cfg pfx seen um :
  renderable um = false -> record_lines cfg pfx seen um = ([], seen).
Proof.
  unfold renderable, record_lines.
  destruct (name um) as [raw|]; [|reflexivity]. destruct (value um) as [v|]; [|reflexivity].
  intros H. apply negb_false_iff in H. rewrite H. reflexivity.
Qed.

Lemma exposition_renderable cfg pfx : forall ums seen,
  exposition cfg pfx seen (filter renderable ums) = exposition cfg pfx seen ums.
Proof.
  induction ums as [|um rest IH]; intros seen; [reflexivity|].
  cbn [filter exposition]. destruct (renderable um) eqn:E.
  - cbn [exposition]. rewrite IH. reflexivity.
  - rewrite record_lines_passed_over by exact E. cbn [fst snd app]. apply IH.
Qed.

(** Records that write no line can be left out of the registry. *)
Lemma exposition_filter cfg pfx (keep : uwsgi_metric -> bool) :
  (forall seen um, keep um = false -> record_lines cfg pfx seen um = ([], seen)) ->
  forall ums seen,
    exposition cfg pfx seen (filter keep ums) = exposition cfg pfx seen ums.
Proof.
  intros Hkeep. induction ums as [|um rest IH]; intros seen; [reflexivity|].
  cbn [filter exposition]. destruct (keep um) eqn:E.
  - cbn [exposition]. rewrite IH. reflexivity.
  - rewrite (Hkeep seen um E). cbn [fst snd app]. apply IH.
Qed.

Lemma generate_filter cfg uwsgi (keep : uwsgi_metric -> bool) w w' :
  (forall seen um, keep um = false ->
     record_lines cfg (prefix_of cfg) seen um = ([], seen)) ->
  never_short w -> never_null w -> never_short w' -> never_null w' ->
  option_map buf (fst (prometheus_generate_metrics cfg uwsgi w))
  = option_map buf
      (fst (prometheus_generate_metrics cfg
              {| has_metrics := has_metrics uwsgi;
                 metrics := filter keep (metrics uwsgi) |} w')).
Proof.
  intros Hkeep Hs Hn Hs' Hn'.
  destruct (generate_complete cfg uwsgi Hs Hn) as (out & E & B).
  destruct (generate_complete cfg
              {| has_metrics := has_metrics uwsgi;
                 metrics := filter keep (metrics uwsgi) |} Hs' Hn')
    as (out' & E' & B').
  rewrite E, E'. cbn [option_map]. f_equal. rewrite B, B'.
  unfold unavailable. cbn [has_metrics metrics].
  rewrite (exposition_filter cfg (prefix_of cfg) keep Hkeep).
  destruct (has_metrics uwsgi); cbn [negb orb]; [|reflexivity].
  destruct (metrics uwsgi) as [|um rest] eqn:Em; [reflexivity|].
  destruct (filter keep (um :: rest)) as [|um' rest'] eqn:Ef; [|reflexivity].
  rewrite <- (exposition_filter cfg (prefix_of cfg) keep Hkeep (um :: rest)).
  rewrite Ef. reflexivity.
Qed.

Lemma record_lines_held_back cfg pfx seen um :
  let_through cfg um = false -> record_lines cfg pfx seen um = ([], seen).
Proof.
  unfold let_through, record_lines.
  destruct (name um) as [raw|]; [|discriminate]. intros H.
  apply negb_false_iff in H. rewrite H.
  destruct (value um); [|reflexivity]. rewrite orb_true_r. reflexivity.
Qed.



(** ** Calls that leave the host alone *)

Lemma off_host_ret A (a : A) : off_host (ret a).
Proof. intros w. reflexivity. Qed.

Lemma off_host_bind A B (m : io A) (k : A -> io B) :
  off_host m -> (forall a, off_host (k a)) -> off_host (bind m k).
Proof.
  intros Hm Hk w. unfold bind. specialize (Hm w).
  destruct (m w) as [a w1]. cbn [snd] in Hm. rewrite Hk. exact Hm.
Qed.

Lemma off_host_try A B (m : io (option A)) (k : A -> io (option B)) :
  off_host m -> (forall a, off_host (k a)) -> off_host (try m k).
Proof.
  intros Hm Hk. unfold try. apply off_host_bind; [exact Hm|].
  intros [a|]; [apply Hk | apply off_host_ret].
Qed.

Lemma off_host_emit e : off_host (emit e).
Proof. intros w. reflexivity. Qed.

Lemma off_host_next_realloc : off_host next_realloc.
Proof. intros w. unfold next_realloc. destruct (pop (reallocs w)). reflexivity. Qed.

Lemma off_host_next_malloc : off_host next_malloc.
Proof. intros w. unfold next_malloc. destruct (pop (mallocs w)). reflexivity. Qed.

Ltac off_host :=
  repeat match goal with
    | |- off_host (ret _) => apply off_host_ret
    | |- off_host (emit _) => apply off_host_emit
    | |- off_host next_realloc => apply off_host_next_realloc
    | |- off_host next_malloc => apply off_host_next_malloc
    | |- off_host (try _ _) => apply off_host_try; [|intros ?]
    | |- off_host (bind _ _) => apply off_host_bind; [|intros ?]
    | |- off_host (if ?c then _ else _) => destruct c
    | |- off_host (match ?x with _ => _ end) => destruct x
    | H : _ |- off_host _ => solve [apply H]
    end.

Lemma off_host_append ub s : off_host (uwsgi_buffer_append ub s).
Proof. unfold uwsgi_buffer_append. off_host. Qed.

Lemma off_host_appends chunks : forall ub, off_host (appends ub chunks).
Proof.
  induction chunks as [|s rest IH]; intros ub; cbn [appends].
  - apply off_host_ret.
  - apply off_host_try; [apply off_host_append | intros ub1; apply IH].
Qed.

Lemma off_host_buffer_new id : off_host (uwsgi_buffer_new id).
Proof. unfold uwsgi_buffer_new. off_host. Qed.

Lemma off_host_seen_names_add head n : off_host (seen_names_add head n).
Proof. unfold seen_names_add, uwsgi_malloc. off_host. Qed.

Lemma off_host_end_of_segment pfx s : off_host (end_of_segment pfx s).
Proof.
  pose proof off_host_append. pose proof off_host_appends.
  unfold end_of_segment. off_host.
Qed.

Lemma off_host_scan pfx : forall metric_name s, off_host (scan pfx metric_name s).
Proof.
  induction metric_name as [|c rest IH]; intros s; cbn [scan].
  - apply off_host_end_of_segment.
  - apply off_host_try; [|intros s1; apply IH].
    destruct (is_dot c); [apply off_host_end_of_segment | apply off_host_ret].
Qed.

Lemma off_host_format nb0 lb0 metric_name pfx :
  off_host (prometheus_format_metric_name nb0 lb0 metric_name pfx).
Proof.
  pose proof off_host_append. pose proof (off_host_scan pfx).
  unfold prometheus_format_metric_name. off_host.
Qed.

Lemma off_host_render cfg nb lb raw t v p : off_host (render cfg nb lb raw t v p).
Proof.
  pose proof off_host_append. pose proof off_host_appends.
  pose proof off_host_seen_names_add.
  unfold render, read_value, uwsgi_buffer_num64. off_host.
Qed.

Lemma off_host_visit cfg pfx nb0 lb0 um p : off_host (visit cfg pfx nb0 lb0 um p).
Proof.
  pose proof off_host_append. pose proof off_host_format. pose proof off_host_render.
  unfold visit, uwsgi_log. off_host.
Qed.

Lemma off_host_walk cfg pfx nb0 lb0 : forall ums p, off_host (walk cfg pfx nb0 lb0 ums p).
Proof.
  induction ums as [|um rest IH]; intros p; cbn [walk].
  - apply off_host_ret.
  - apply off_host_try; [apply off_host_visit|]. intros p1.
    apply off_host_bind; [apply off_host_emit | intros _; apply IH].
Qed.

Lemma off_host_generate cfg uwsgi : off_host (prometheus_generate_metrics cfg uwsgi).
Proof.
  pose proof off_host_buffer_new. pose proof off_host_walk.
  unfold prometheus_generate_metrics, uwsgi_log. off_host.
Qed.

(** ** The 200 response of the dedicated server *)

Lemma bind_run A B (m : io A) (k : A -> io B) w :
  bind m k w = k (fst (m w)) (snd (m w)).
Proof. unfold bind. destruct (m w). reflexivity. Qed.

Lemma buffer_new_run id w :
  never_null w ->
  uwsgi_buffer_new id w
  = (Some {| ident := id; buf := [] |},
     {| reallocs := reallocs w; mallocs := snd (pop (mallocs w)); host := host w;
        backlog := backlog w; trace := trace w ++ [EvBufferNew id true] |}).
Proof.
  intros H. destruct (unfailing_pop H) as [Hok _].
  unfold uwsgi_buffer_new, bind, next_malloc, emit, ret.
  destruct (pop (mallocs w)) as [ok rest]. cbn [fst] in Hok. subst ok. reflexivity.
Qed.

Lemma unchecked_append_run ub s w :
  never_short w ->
  unchecked ub (uwsgi_buffer_append ub s) w
  = ({| ident := ident ub; buf := buf ub ++ s |},
     {| reallocs := snd (pop (reallocs w)); mallocs := mallocs w; host := host w;
        backlog := backlog w; trace := trace w ++ [EvAppend (ident ub) true] |}).
Proof.
  intros H. destruct (unfailing_pop H) as [Hok _].
  unfold unchecked. rewrite bind_run, append_run, Hok. reflexivity.
Qed.

Lemma unfailing_popped script : unfailing script -> unfailing (snd (pop script)).
Proof. intros H. apply (unfailing_pop H). Qed.

Lemma never_short_script re ma ho ba tr :
  unfailing re ->
  never_short {| reallocs := re; mallocs := ma; host := ho; backlog := ba; trace := tr |}.
Proof. intros H. exact H. Qed.

Lemma written_to_app c l1 l2 : written_to c (l1 ++ l2) = written_to c l1 ++ written_to c l2.
Proof. apply flat_map_app. Qed.

Lemma written_to_write c data ok :
  written_to c [EvWrite c data ok] = if ok then data else [].
Proof.
  unfold written_to. cbn [flat_map]. rewrite Nat.eqb_refl, app_nil_r.
  destruct ok; reflexivity.
Qed.

Lemma pass_writes_nothing c evs : forallb pass_event evs = true -> written_to c evs = [].
Proof.
  induction evs as [|e evs IH]; [reflexivity|].
  cbn [forallb]. intros H. apply andb_true_iff in H. destruct H as [He Hs].
  unfold written_to in *. cbn [flat_map]. rewrite (IH Hs).
  destruct e; try discriminate He; reflexivity.
Qed.

Lemma generate_run cfg uwsgi w :
  never_short w -> never_null w ->
  exists out w1 evs,
    prometheus_generate_metrics cfg uwsgi w = (Some out, w1)
    /\ buf out = whole_exposition cfg uwsgi
    /\ trace w1 = trace w ++ evs
    /\ forallb pass_event evs = true
    /\ host w1 = host w
    /\ never_short w1 /\ never_null w1.
Proof.
  intros Hs Hn.
  destruct (generate_complete cfg uwsgi Hs Hn) as (out & E & B).
  destruct (sound_generate cfg uwsgi w) as (evs & S & Hp & _).
  pose proof (off_host_generate cfg uwsgi w) as Hh.
  destruct (prometheus_generate_metrics cfg uwsgi w) as [r w1]. cbn [fst snd] in *.
  subst r. exists out, w1, evs. split; [reflexivity|]. split; [exact B|].
  split; [apply (steps_trace S)|]. split; [exact Hp|]. split; [exact Hh|].
  split; [apply (steps_reallocs S); exact Hs | apply (steps_mallocs S); exact Hn].
Qed.

Lemma send_run c header body w :
  send_both c header body w
  = (Some tt,
     {| reallocs := reallocs w; mallocs := mallocs w;
        host := snd (pop (snd (pop (host w)))); backlog := backlog w;
        trace := trace w
                 ++ [EvWrite c header (fst (pop (host w)))]
                 ++ write_log (fst (pop (host w)))
                 ++ [EvWrite c body (fst (pop (snd (pop (host w)))))]
                 ++ write_log (fst (pop (snd (pop (host w)))))
                 ++ [EvClose c] |}).
Proof.
  destruct w as [re ma ho ba tr].
  destruct ho as [|[] [|[] rest]];
    cbv beta iota zeta delta [send_both bind write next_host emit ret uwsgi_log close
      returns pop negb fst snd host trace reallocs mallocs backlog write_log];
    rewrite <- ?app_assoc; cbn [app]; reflexivity.
Qed.

(** With a request to read and nothing failing, the call comes to the two
    writes with the result of the pass and the headers for it. *)
Lemma respond_reaches_send cfg uwsgi c w :
  request c <> [] -> never_short w -> never_null w ->
  exists evs w1,
    forallb pass_event evs = true
    /\ respond cfg uwsgi c w
       = send_both c (ok_header (length (whole_exposition cfg uwsgi)))
           (whole_exposition cfg uwsgi) w1
    /\ trace w1
       = trace w
         ++ [EvFcntl c;
             EvRead c (Z.of_nat (Nat.min (length (request c)) (REQUEST_BUF_SIZE - 1)))]
         ++ evs
         ++ EvBufferNew RESPONSE true :: repeat (EvAppend RESPONSE true) 7
    /\ host w1 = host w
    /\ backlog w1 = backlog w.
Proof.
  intros Hreq Hs Hn. unfold respond.
  rewrite bind_run. cbn [emit fst snd].
  rewrite bind_run. unfold read at 1 2.
  destruct (request c) as [|b req] eqn:Ereq; [congruence|].
  rewrite !bind_run. cbn [emit ret fst snd reallocs mallocs host backlog trace].
  assert (Hlen : (Z.of_nat (Nat.min (length (b :: req)) (REQUEST_BUF_SIZE - 1)) <=? 0)%Z
                 = false).
  { apply Z.leb_gt. cbn [length]. unfold REQUEST_BUF_SIZE. lia. }
  rewrite Hlen. rewrite bind_run.
  match goal with
  | |- context [prometheus_generate_metrics cfg uwsgi ?w2] =>
      destruct (@generate_run cfg uwsgi w2 Hs Hn)
        as (out & w3 & evs & E & B & T & Hp & Hh & Hs3 & Hn3);
      pose proof (off_backlog_generate cfg uwsgi w2) as Hb3
  end.
  rewrite E in Hb3 |- *. cbn [fst snd] in Hb3 |- *.
  exists evs. eexists. split; [exact Hp|].
  rewrite bind_run, (buffer_new_run RESPONSE Hn3). cbn [fst snd].
  unfold uwsgi_buffer_num64.
  repeat (rewrite bind_run;
          match goal with
          | |- context [unchecked ?u (uwsgi_buffer_append ?u ?s) ?w0] =>
              rewrite (@unchecked_append_run u s w0)
                by (apply never_short_script; repeat apply unfailing_popped; exact Hs3)
          end;
          cbn [fst snd ident buf reallocs mallocs host backlog trace]).
  unfold pos. rewrite B. split; [|split; [|split]].
  - unfold send_both, ok_header. rewrite <- !app_assoc. cbn [app]. reflexivity.
  - cbn [trace]. cbn [trace] in T. rewrite T. rewrite <- !app_assoc.
    cbn [app repeat]. reflexivity.
  - cbn [host]. exact Hh.
  - cbn [backlog]. exact Hb3.
Qed.

Lemma respond_ok cfg uwsgi c w :
  request c <> [] -> never_short w -> never_null w ->
  exists evs,
    forallb pass_event evs = true
    /\ fst (respond cfg uwsgi c w) = Some tt
    /\ trace (snd (respond cfg uwsgi c w))
       = trace w
         ++ [EvFcntl c;
             EvRead c (Z.of_nat (Nat.min (length (request c)) (REQUEST_BUF_SIZE - 1)))]
         ++ evs
         ++ EvBufferNew RESPONSE true :: repeat (EvAppend RESPONSE true) 7
         ++ [EvWrite c (ok_header (length (whole_exposition cfg uwsgi)))
               (fst (pop (host w)))]
         ++ write_log (fst (pop (host w)))
         ++ [EvWrite c (whole_exposition cfg uwsgi) (fst (pop (snd (pop (host w)))))]
         ++ write_log (fst (pop (snd (pop (host w)))))
         ++ [EvClose c]
    /\ host (snd (respond cfg uwsgi c w)) = snd (pop (snd (pop (host w))))
    /\ backlog (snd (respond cfg uwsgi c w)) = backlog w.
Proof.
  intros Hreq Hs Hn.
  destruct (@respond_reaches_send cfg uwsgi c w Hreq Hs Hn) as (evs & w1 & Hp & E & T & Hh & Hb).
  exists evs. rewrite E, send_run. cbn [fst snd trace host backlog]. rewrite T, Hh, Hb.
  split; [exact Hp|]. split; [reflexivity|]. split; [|split; reflexivity].
  rewrite <- !app_assoc. cbn [app]. reflexivity.
Qed.

(** What a tick writes to the client it accepts. *)
Lemma master_cycle_written cfg uwsgi w c rest :
  (0 <= server_fd cfg)%Z -> backlog w = c :: rest -> refused c = [] ->
  request c <> [] -> never_short w -> never_null w ->
  written_to c (events_of (prometheus_master_cycle cfg uwsgi) w)
  = (if fst (pop (host w)) then ok_header (length (whole_exposition cfg uwsgi)) else [])
    ++ (if fst (pop (snd (pop (host w)))) then whole_exposition cfg uwsgi else []).
Proof.
  intros Hfd Hb Hr Hreq Hs Hn. unfold events_of.
  rewrite (master_cycle_ready cfg uwsgi w Hfd Hb Hr).
  destruct (@respond_ok cfg uwsgi c (after_accept w c rest) Hreq Hs Hn)
    as (evs & Hp & _ & T & _).
  rewrite T. cbn [after_accept trace host]. rewrite <- !app_assoc, skipn_past.
  change (EvBufferNew RESPONSE true :: ?l) with ([EvBufferNew RESPONSE true] ++ l).
  rewrite !written_to_app, (pass_writes_nothing c evs Hp), !written_to_write.
  assert (Hrep : written_to c (repeat (EvAppend RESPONSE true) 7) = []) by reflexivity.
  assert (Hlog : forall ok, written_to c (write_log ok) = []) by (intros []; reflexivity).
  rewrite Hrep, !Hlog. cbn [written_to flat_map app]. rewrite !app_nil_r. reflexivity.
Qed.



(** ** Reading a decimal number back *)

Lemma uint_digits d :
  forallb is_digit (list_ascii_of_string (NilEmpty.string_of_uint d)) = true.
Proof. induction d; cbn [NilEmpty.string_of_uint list_ascii_of_string forallb]; auto. Qed.

Lemma leading_uint d : forall acc rest,
  leading_number acc (list_ascii_of_string (NilEmpty.string_of_uint d) ++ rest)
  = leading_number (Nat.of_uint_acc d acc) rest.
Proof.
  induction d; intros acc rest;
    cbn [NilEmpty.string_of_uint list_ascii_of_string app leading_number Nat.of_uint_acc];
    try reflexivity;
    match goal with
    | |- (if is_digit ?c then _ else _) = _ => change (is_digit c) with true
    end;
    cbv iota; rewrite IHd; f_equal; rewrite Nat.tail_mul_spec;
    match goal with
    | |- context [nat_of_ascii ?c - 48] =>
        let v := eval vm_compute in (nat_of_ascii c - 48) in
        change (nat_of_ascii c - 48) with v
    end; f_equal; lia.
Qed.

Lemma of_lu_N d :
  N.to_nat (DecimalPos.Unsigned.of_lu d) = DecimalNat.Unsigned.of_lu d.
Proof.
  induction d; cbn [DecimalPos.Unsigned.of_lu DecimalNat.Unsigned.of_lu];
    rewrite ?Nnat.N2Nat.inj_add, ?Nnat.N2Nat.inj_mul, ?IHd; reflexivity.
Qed.

Lemma of_uint_positive p : Nat.of_uint (Pos.to_uint p) = Pos.to_nat p.
Proof.
  rewrite DecimalNat.Unsigned.of_uint_alt, <- of_lu_N,
    <- DecimalPos.Unsigned.of_uint_alt, DecimalPos.Unsigned.of_to.
  reflexivity.
Qed.

(** The decimal text of a size is the text of a number in digits that is
    worth the size. *)
Lemma decimal_of_nat n :
  exists d, decimal (Z.of_nat n) = list_ascii_of_string (NilEmpty.string_of_uint d)
            /\ Nat.of_uint d = n.
Proof.
  destruct n as [|k].
  - exists (Decimal.D0 Decimal.Nil). split; reflexivity.
  - exists (Pos.to_uint (Pos.of_succ_nat k)). split.
    + unfold decimal. cbn [Z.of_nat Z.to_int NilZero.string_of_int].
      unfold NilZero.string_of_uint.
      destruct (Pos.to_uint (Pos.of_succ_nat k)) eqn:E; try reflexivity.
      exfalso. exact (DecimalPos.Unsigned.to_uint_nonnil _ E).
    + rewrite of_uint_positive. apply SuccNat2Pos.id_succ.
Qed.

Lemma decimal_digits n : forallb is_digit (decimal (Z.of_nat n)) = true.
Proof. destruct (decimal_of_nat n) as (d & -> & _). apply uint_digits. Qed.

Lemma leading_decimal n c rest :
  is_digit c = false -> leading_number 0 (decimal (Z.of_nat n) ++ c :: rest) = n.
Proof.
  intros Hc. destruct (decimal_of_nat n) as (d & -> & Hd).
  rewrite leading_uint. cbn [leading_number]. rewrite Hc. exact Hd.
Qed.

Lemma after_first_digits p pat ds rest :
  is_digit p = false -> forallb is_digit ds = true ->
  after_first (p :: pat) (ds ++ rest) = after_first (p :: pat) rest.
Proof.
  intros Hp. induction ds as [|d ds IH]; [reflexivity|].
  cbn [forallb]. intros H. apply andb_true_iff in H. destruct H as [Hd Hds].
  cbn [app after_first begins_with].
  destruct (Ascii.eqb d p) eqn:E.
  - apply Ascii.eqb_eq in E. subst d. congruence.
  - cbn [andb]. apply IH. exact Hds.
Qed.

Lemma begins_with_nil s : begins_with s [] = true.
Proof. destruct s; reflexivity. Qed.

(** A response with the status line and the headers of [ok_header] says
    how long its body is. *)
Lemma ok_response_reads_back n body :
  declared_length (ok_header n ++ body) = Some n
  /\ http_body (ok_header n ++ body) = Some body.
Proof.
  unfold ok_header. generalize (decimal_digits n). generalize (leading_decimal n).
  generalize (decimal (Z.of_nat n)). intros ds Hlead Hds. split.
  - unfold declared_length. rewrite <- !app_assoc.
    cbn. rewrite begins_with_nil.
    f_equal. apply Hlead. reflexivity.
  - unfold http_body. rewrite <- !app_assoc.
    cbn.
    rewrite (after_first_digits CR [LF; CR; LF] ds _ eq_refl Hds).
    cbn. rewrite begins_with_nil. reflexivity.
Qed.

(** ** Finding a byte *)

Lemma strchr_found c : forall before after,
  ~ In c before -> strchr (before ++ c :: after) c = Some (c :: after).
Proof.
  induction before as [|x before IH]; intros after Hnot; cbn [app strchr].
  - rewrite Ascii.eqb_refl. reflexivity.
  - destruct (Ascii.eqb x c) eqn:E.
    + apply Ascii.eqb_eq in E. subst x. exfalso. apply Hnot. left. reflexivity.
    + apply IH. intros Hin. apply Hnot. right. exact Hin.
Qed.

Lemma strchr_missing c : forall s, ~ In c s -> strchr s c = None.
Proof.
  induction s as [|x s IH]; intros Hnot; cbn [strchr]; [reflexivity|].
  destruct (Ascii.eqb x c) eqn:E.
  - apply Ascii.eqb_eq in E. subst x. exfalso. apply Hnot. left. reflexivity.
  - apply IH. intros Hin. apply Hnot. right. exact Hin.
Qed.

End Host.

(* ===================================================================== *)
(** * The claims *)
(* ===================================================================== *)

(** ** C1 *)

(** C1, as the code has it.  The translation of ["worker.1.requests"] under
    the prefix ["uwsgi_"] is the flat name ["uwsgi_workerrequests"] with the
    label [worker="1"], and that of ["core.1.2.requests"] is
    ["uwsgi_corerequests"] with [worker="1",core="2"].  For every name, a
    translation that returns gives the prefix followed by the stored text
    segments (sanitized, at most 255 bytes each), with one ["_"] before a text
    segment unless it is the first one or the segment stored before it was
    numeric; and the translation returns unless a buffer fails to grow. *)
Theorem format_metric_name_joins_segments :
  translated (txt "uwsgi_") (txt "worker.1.requests")
  = Some (txt "uwsgi_workerrequests", label_text [(txt "worker", txt "1")])
  /\ translated (txt "uwsgi_") (txt "core.1.2.requests")
     = Some (txt "uwsgi_corerequests",
             label_text [(txt "worker", txt "1"); (txt "core", txt "2")])
  /\ forall nb0 lb0 metric_name pfx w,
       match fst (prometheus_format_metric_name nb0 lb0 metric_name pfx w) with
       | Some (nb, lb) => buf nb = pfx ++ glue true false (stored_segments metric_name)
       | None => ~ never_short w
       end.
Proof.
  split; [vm_compute; reflexivity|]. split; [vm_compute; reflexivity|].
  intros nb0 lb0 metric_name pfx w.
  destruct (prometheus_format_metric_name nb0 lb0 metric_name pfx w)
    as [[[nb lb]|] w'] eqn:E; cbn [fst].
  - apply format_spec in E. apply E.
  - intros Hw. destruct (total_format nb0 lb0 metric_name pfx Hw) as [a Ha].
    rewrite E in Ha. discriminate Ha.
Qed.

(** C1 as stated fails: the name of ["worker.1.requests"] is not
    ["uwsgi_worker_requests"]. *)
Lemma worker_requests_has_no_separator :
  translated (txt "uwsgi_") (txt "worker.1.requests")
  <> Some (txt "uwsgi_worker_requests", label_text [(txt "worker", txt "1")]).
Proof. vm_compute. discriminate. Qed.

(** ** C2 *)

(** C2.  With HELP and TYPE lines enabled, and allocation never returning
    NULL, the output of a pass is the text of the lines of the records that
    were not passed over, in registry order; and in these lines, for every
    name that a sample line uses, the HELP line and the TYPE line of that name
    occur once each and before the first sample line of that name. *)
Theorem help_and_type_once (uwsgi_starts_with : bytes -> bytes -> Z) cfg uwsgi w out
    w' :
  include_help cfg = true -> include_type cfg = true ->
  never_null w ->
  prometheus_generate_metrics uwsgi_starts_with cfg uwsgi w = (Some out, w') ->
  exists kept,
    subseq kept (metrics uwsgi)
    /\ buf out
       = lines_text (exposition uwsgi_starts_with cfg (prefix_of cfg) seen_names_create kept)
    /\ forall n,
         In n (sample_names
                 (exposition uwsgi_starts_with cfg (prefix_of cfg) seen_names_create kept)) ->
         announced_once n
           (exposition uwsgi_starts_with cfg (prefix_of cfg) seen_names_create kept).
Proof.
  intros Hh Ht Hnull H.
  destruct (generate_spec uwsgi_starts_with cfg uwsgi Hnull H) as (kept & Hsub & Hbuf).
  exists kept. split; [exact Hsub|]. split; [exact Hbuf|].
  intros n Hn.
  destruct (announced_exposition uwsgi_starts_with cfg (prefix_of cfg) kept Hh Ht
              announced_start) as (seen' & Ha).
  cbn [app] in Ha. eapply announced_once_of; eassumption.
Qed.

Lemma help_and_type_once_witness :
  exists out kept,
    fst (prometheus_generate_metrics starts_with_memcmp ump_config_init demo_registry quiet)
    = Some out
    /\ subseq kept (metrics demo_registry)
    /\ buf out = lines_text (exposition starts_with_memcmp ump_config_init
                               (prefix_of ump_config_init) seen_names_create kept).
Proof.
  destruct (prometheus_generate_metrics starts_with_memcmp ump_config_init demo_registry
              quiet) as [[out|] w'] eqn:E.
  - destruct (@help_and_type_once starts_with_memcmp ump_config_init demo_registry quiet
                out w' eq_refl eq_refl eq_refl E) as (kept & Hsub & Hbuf & _).
    exists out, kept. auto.
  - vm_compute in E. discriminate E.
Defined.

(** Three records, two of them under one name. *)
Example demo_exposition :
  output_of starts_with_memcmp ump_config_init demo_registry quiet
  = Some (String.concat (String (ascii_of_nat 10) EmptyString)
            [ "# HELP uwsgi_workerrequests_total worker.1.requests";
              "# TYPE uwsgi_workerrequests_total counter";
              "uwsgi_workerrequests_total{worker=" ++ String DQUOTE "1" ++ String DQUOTE "} 7";
              "uwsgi_workerrequests_total{worker=" ++ String DQUOTE "2" ++ String DQUOTE "} 9";
              "# HELP uwsgi_corerequests core.1.2.requests";
              "# TYPE uwsgi_corerequests gauge";
              "uwsgi_corerequests{worker=" ++ String DQUOTE "1" ++ String DQUOTE ",core="
                 ++ String DQUOTE "2" ++ String DQUOTE "} -3";
              "" ])%string.
Proof. vm_compute. reflexivity. Qed.

(** ** C3 *)

(** C3, as the code has it.  A pass in which an append to the output buffer
    fails returns no buffer.  A record whose translation fails, and a counter
    whose [_total] suffix cannot be appended to the name, are passed over: the
    walk goes on with the next record, the output buffer and the seen names as
    they were. *)
Theorem output_append_failure_aborts (uwsgi_starts_with : bytes -> bytes -> Z) :
  (forall cfg uwsgi w,
     In (EvAppend OUTPUT false)
        (events_of (prometheus_generate_metrics uwsgi_starts_with cfg uwsgi) w) ->
     fst (prometheus_generate_metrics uwsgi_starts_with cfg uwsgi w) = None)
  /\ (forall cfg pfx nb0 lb0 um rest p w raw v,
        name um = Some raw -> value um = Some v ->
        (length raw =? 0) = false ->
        no_workers cfg && nonzero (uwsgi_starts_with raw (txt "worker.")) = false ->
        fst (prometheus_format_metric_name nb0 lb0 raw pfx w) = None ->
        exists w1,
          walk uwsgi_starts_with cfg pfx nb0 lb0 (um :: rest) p w
          = walk uwsgi_starts_with cfg pfx nb0 lb0 rest p w1)
  /\ (forall cfg pfx nb0 lb0 um rest p w raw v nb lb w1,
        name um = Some raw -> value um = Some v ->
        (length raw =? 0) = false ->
        no_workers cfg && nonzero (uwsgi_starts_with raw (txt "worker.")) = false ->
        prometheus_format_metric_name nb0 lb0 raw pfx w = (Some (nb, lb), w1) ->
        (pos nb =? 0) = false ->
        type um = UWSGI_METRIC_COUNTER ->
        fst (uwsgi_buffer_append nb (txt "_total") w1) = None ->
        exists w2,
          walk uwsgi_starts_with cfg pfx nb0 lb0 (um :: rest) p w
          = walk uwsgi_starts_with cfg pfx nb0 lb0 rest p w2).
Proof.
  split; [exact (generate_abort uwsgi_starts_with)|]. split.
  - intros cfg pfx nb0 lb0 um rest p w raw v Hn Hv Hl Hw Hf.
    destruct (visit_failed_translation uwsgi_starts_with cfg pfx nb0 lb0 um p w Hn Hv Hl Hw
                Hf) as [w1 E].
    eexists. apply walk_after_skip. exact E.
  - intros cfg pfx nb0 lb0 um rest p w raw v nb lb w1 Hn Hv Hl Hw Hf Hp Ht Hs.
    destruct (visit_failed_suffix uwsgi_starts_with cfg pfx nb0 lb0 um p w Hn Hv Hl Hw Hf
                Hp Ht Hs) as [w2 E].
    eexists. apply walk_after_skip. exact E.
Qed.

Lemma output_append_failure_aborts_witness :
  fst (prometheus_generate_metrics starts_with_memcmp ump_config_init one_gauge
         third_append_fails) = None
  /\ (exists w1,
        walk starts_with_memcmp ump_config_init default_prefix
          {| ident := NAME; buf := [] |} {| ident := LABELS; buf := [] |}
          [metric "a" UWSGI_METRIC_GAUGE 1; metric "b" UWSGI_METRIC_GAUGE 1]
          fresh_pass prefix_fails
        = walk starts_with_memcmp ump_config_init default_prefix
            {| ident := NAME; buf := [] |} {| ident := LABELS; buf := [] |}
            [metric "b" UWSGI_METRIC_GAUGE 1] fresh_pass w1)
  /\ (exists w2,
        walk starts_with_memcmp ump_config_init default_prefix
          {| ident := NAME; buf := [] |} {| ident := LABELS; buf := [] |}
          [long_counter; metric "b" UWSGI_METRIC_GAUGE 1] fresh_pass third_append_fails
        = walk starts_with_memcmp ump_config_init default_prefix
            {| ident := NAME; buf := [] |} {| ident := LABELS; buf := [] |}
            [metric "b" UWSGI_METRIC_GAUGE 1] fresh_pass w2).
Proof.
  split; [|split].
  - apply (proj1 (output_append_failure_aborts starts_with_memcmp) ump_config_init
             one_gauge third_append_fails).
    vm_compute. auto 10.
  - apply (proj1 (proj2 (output_append_failure_aborts starts_with_memcmp))
             ump_config_init default_prefix
             {| ident := NAME; buf := [] |} {| ident := LABELS; buf := [] |}
             (metric "a" UWSGI_METRIC_GAUGE 1) [metric "b" UWSGI_METRIC_GAUGE 1]
             fresh_pass prefix_fails (txt "a") 1%Z);
      reflexivity.
  - apply (proj2 (proj2 (output_append_failure_aborts starts_with_memcmp))
             ump_config_init default_prefix
             {| ident := NAME; buf := [] |} {| ident := LABELS; buf := [] |}
             long_counter [metric "b" UWSGI_METRIC_GAUGE 1]
             fresh_pass third_append_fails (letters 250) 5%Z
             {| ident := NAME; buf := default_prefix ++ letters 250 |}
             {| ident := LABELS; buf := [] |}
             {| reallocs := [false]; mallocs := []; host := []; backlog := [];
                trace := [EvAppend NAME true; EvAppend NAME true] |});
      try reflexivity.
Defined.

(** C3 as stated fails: here an append fails, that of the [_total] suffix,
    and the pass returns a buffer, with the lines of the second record
    only. *)
Lemma suffix_failure_does_not_abort :
  In (EvAppend NAME false)
     (events_of (prometheus_generate_metrics starts_with_memcmp ump_config_init two_records)
        third_append_fails)
  /\ output_of starts_with_memcmp ump_config_init two_records third_append_fails
     = Some (String.concat (String (ascii_of_nat 10) EmptyString)
               [ "# HELP uwsgi_b b"; "# TYPE uwsgi_b gauge"; "uwsgi_b 1"; "" ])%string.
Proof.
  split.
  - vm_compute. auto 10.
  - vm_compute. reflexivity.
Qed.

(** ** C4 *)

(** C4, as the code has it.  A segment is stored up to 255 bytes, one less
    than the 256 bytes of [segment]: cutting every segment of a name to its
    first 255 bytes does not change the translation, and a name that is one
    text segment gives the prefix followed by its first 255 bytes,
    sanitized. *)
Theorem segment_cap_is_255 (pfx metric_name seg : bytes) :
  dot_free seg -> seg <> [] -> segment_is_numeric (firstn 255 seg) = false ->
  SEGMENT_SIZE - 1 = 255
  /\ translated pfx metric_name = translated pfx (truncated 255 metric_name)
  /\ translated pfx seg = Some (pfx ++ map sanitize (firstn 255 seg), []).
Proof.
  intros Hfree Hne Hnum. split; [reflexivity|]. split.
  - rewrite !translated_spec. unfold flat_name, labels_of.
    change 255 with (SEGMENT_SIZE - 1).
    rewrite stored_segments_truncated. reflexivity.
  - rewrite translated_spec. unfold flat_name, labels_of, stored_segments, segments.
    rewrite segments_from_free by exact Hfree. cbn [app map filter].
    assert (Hn : nonempty (cap seg) = true).
    { unfold nonempty, cap. rewrite length_map. apply Nat.ltb_lt.
      destruct seg; [contradiction | cbn; lia]. }
    assert (Hc : segment_is_numeric (cap seg) = false).
    { unfold cap. rewrite numeric_sanitized. exact Hnum. }
    rewrite Hn. cbn [filter glue]. rewrite Hc. cbn [filter combine label_text orb app].
    rewrite app_nil_r. reflexivity.
Qed.

Lemma segment_cap_is_255_witness :
  translated (txt "uwsgi_") (txt "a.b")
  = translated (txt "uwsgi_") (truncated 255 (txt "a.b"))
  /\ translated (txt "uwsgi_") (letters 300)
     = Some (txt "uwsgi_" ++ map sanitize (firstn 255 (letters 300)), []).
Proof.
  refine (let H := segment_cap_is_255 (txt "uwsgi_") (txt "a.b") (seg := letters 300)
                     _ _ _ in
          conj (proj1 (proj2 H)) (proj2 (proj2 H))).
  - reflexivity.
  - discriminate.
  - vm_compute. reflexivity.
Defined.

(** C4 as stated fails: of a segment of 256 bytes the last one is dropped. *)
Lemma byte_256_is_dropped :
  length (letters 255 ++ txt "b") = 256
  /\ translated (txt "uwsgi_") (letters 255 ++ txt "b")
     = Some (txt "uwsgi_" ++ letters 255, [])
  /\ translated (txt "uwsgi_") (letters 255 ++ txt "b")
     <> Some (txt "uwsgi_" ++ firstn 256 (letters 255 ++ txt "b"), []).
Proof.
  split; [reflexivity|]. split; [vm_compute; reflexivity|].
  vm_compute. intros H. inversion H.
Qed.

(** ** C5 *)

(** C5.  In a generation pass, and in the route handler and the tick of the
    dedicated server around it, the metrics lock is only taken in read mode,
    and what follows a read lock is one value read and then the unlock: no
    append, log line, step to the next record or socket call comes in
    between, and no value is read without the lock. *)
Theorem metrics_lock_is_brief (uwsgi_starts_with : bytes -> bytes -> Z) cfg uwsgi w :
  brief_rlock (events_of (prometheus_generate_metrics uwsgi_starts_with cfg uwsgi) w)
  /\ brief_rlock
       (events_of (uwsgi_routing_func_prometheus_metrics uwsgi_starts_with cfg uwsgi) w)
  /\ brief_rlock (events_of (prometheus_master_cycle uwsgi_starts_with cfg uwsgi) w).
Proof.
  split; [apply generate_lock|]. split; [apply routing_lock|].
  destruct (Z.ltb_spec (server_fd cfg) 0) as [Hlt | Hge].
  - unfold events_of. rewrite (master_cycle_unbound uwsgi_starts_with cfg uwsgi w Hlt).
    cbn [snd]. rewrite <- (app_nil_r (trace w)) at 2. rewrite skipn_past. reflexivity.
  - apply master_cycle_spec. exact Hge.
Qed.

(** The lock events of a pass over three records. *)
Example demo_lock_events :
  filter (fun e => match e with
                   | EvRlock | EvWlock | EvRwunlock | EvDeref => true
                   | _ => false
                   end)
         (events_of
            (prometheus_generate_metrics starts_with_memcmp ump_config_init demo_registry)
            quiet)
  = [EvRlock; EvDeref; EvRwunlock; EvRlock; EvDeref; EvRwunlock;
     EvRlock; EvDeref; EvRwunlock].
Proof. vm_compute. reflexivity. Qed.

(** ** C6 *)

(** C6, as the code has it.  A segment counts as numeric by its first 255
    bytes.  The numeric segments of a name, each cut to its first 255 bytes
    and otherwise as it is in the name, get the keys worker, core, thread and
    id in the order they occur; [combine] ends with the shorter list, so a
    fifth or later numeric segment gets no label.  Passing a numeric segment
    leaves the name buffer as it is, and from the fifth on the label buffer
    too. *)
Theorem numeric_segments_become_labels :
  label_names = [txt "worker"; txt "core"; txt "thread"; txt "id"]
  /\ (forall nb0 lb0 metric_name pfx w,
        match fst (prometheus_format_metric_name nb0 lb0 metric_name pfx w) with
        | Some (nb, lb) =>
            buf lb = label_text (combine label_names (numeric_segments metric_name))
        | None => ~ never_short w
        end)
  /\ (forall pfx s w,
        segment_is_numeric (segment s) = true ->
        match fst (end_of_segment pfx s w) with
        | Some s1 =>
            name_buf s1 = name_buf s
            /\ (4 <= label_index s -> labels_buf s1 = labels_buf s)
        | None => True
        end).
Proof.
  split; [reflexivity|]. split.
  - intros nb0 lb0 metric_name pfx w.
    destruct (prometheus_format_metric_name nb0 lb0 metric_name pfx w)
      as [[[nb lb]|] w'] eqn:E; cbn [fst].
    + apply format_spec in E. destruct E as [_ E]. rewrite E. unfold labels_of.
      rewrite numeric_stored. reflexivity.
    + intros Hw. destruct (total_format nb0 lb0 metric_name pfx Hw) as [a Ha].
      rewrite E in Ha. discriminate Ha.
  - intros pfx s w Hnum. unfold end_of_segment. rewrite Hnum.
    destruct (0 <? length (segment s)); [|cbn; auto].
    cbn [andb].
    destruct (Nat.ltb_spec (label_index s) 4) as [Hlt | Hge].
    + unfold try at 1, bind.
      match goal with
      | |- context [let (a, w1) := ?m w in _] => destruct (m w) as [[lb|] w1]
      end; cbn; [split; [reflexivity | lia] | exact I].
    + cbn. auto.
Qed.

Lemma numeric_segments_become_labels_witness :
  match fst (end_of_segment (txt "uwsgi_")
               {| name_buf := {| ident := NAME; buf := txt "uwsgi_core" |};
                  labels_buf := {| ident := LABELS; buf := [] |};
                  segment := txt "17"; label_index := 4; in_numeric_sequence := false |}
               quiet) with
  | Some s1 =>
      name_buf s1 = {| ident := NAME; buf := txt "uwsgi_core" |}
      /\ (4 <= 4 -> labels_buf s1 = {| ident := LABELS; buf := [] |})
  | None => True
  end.
Proof.
  exact (proj2 (proj2 numeric_segments_become_labels) (txt "uwsgi_")
           {| name_buf := {| ident := NAME; buf := txt "uwsgi_core" |};
              labels_buf := {| ident := LABELS; buf := [] |};
              segment := txt "17"; label_index := 4; in_numeric_sequence := false |}
           quiet eq_refl).
Defined.

(** C6 as stated fails: the label of a numeric segment of 256 digits holds
    255 of them, not the text of the segment. *)
Lemma long_numeric_label_is_cut :
  translated (txt "uwsgi_") (ones 256)
  = Some (txt "uwsgi_", label_text [(txt "worker", ones 255)])
  /\ translated (txt "uwsgi_") (ones 256)
     <> Some (txt "uwsgi_", label_text [(txt "worker", ones 256)]).
Proof.
  split; [vm_compute; reflexivity|].
  vm_compute. intros H. inversion H.
Qed.

(** Five numeric segments: the fifth gets no label. *)
Example fifth_numeric_segment_dropped :
  translated (txt "uwsgi_") (txt "a.1.2.3.4.5.b")
  = Some (txt "uwsgi_ab",
          label_text [(txt "worker", txt "1"); (txt "core", txt "2");
                      (txt "thread", txt "3"); (txt "id", txt "4")]).
Proof. vm_compute. reflexivity. Qed.

(** ** C7 *)

(** C7.  With metrics disabled or no registry, a pass whose three buffers
    could be allocated returns the output buffer with nothing in it. *)
Theorem unavailable_gives_empty_buffer (uwsgi_starts_with : bytes -> bytes -> Z) cfg
    uwsgi w :
  has_metrics uwsgi = false \/ metrics uwsgi = [] ->
  never_null w ->
  fst (prometheus_generate_metrics uwsgi_starts_with cfg uwsgi w)
  = Some {| ident := OUTPUT; buf := [] |}.
Proof.
  intros Hu Hw. apply generate_unavailable; [apply unavailable_cases; exact Hu | exact Hw].
Qed.

Lemma unavailable_gives_empty_buffer_witness :
  fst (prometheus_generate_metrics starts_with_memcmp ump_config_init metrics_disabled quiet)
  = Some {| ident := OUTPUT; buf := [] |}.
Proof.
  apply (@unavailable_gives_empty_buffer starts_with_memcmp ump_config_init
           metrics_disabled quiet).
  - left. reflexivity.
  - reflexivity.
Defined.

(** ** C8 *)

(** C8.  The route handler returns [UWSGI_ROUTE_BREAK] whatever happens.
    With metrics disabled or no registry it logs, prepares the status
    503 Service Unavailable and, when the host accepts the status, writes the
    fixed body; it makes no other call, so the generator is not entered. *)
Theorem route_handler_unavailable (uwsgi_starts_with : bytes -> bytes -> Z) cfg uwsgi w :
  fst (uwsgi_routing_func_prometheus_metrics uwsgi_starts_with cfg uwsgi w)
  = UWSGI_ROUTE_BREAK
  /\ (has_metrics uwsgi = false \/ metrics uwsgi = [] ->
      generator_called
        (events_of (uwsgi_routing_func_prometheus_metrics uwsgi_starts_with cfg uwsgi) w)
      = false
      /\ exists ok ok1,
           events_of (uwsgi_routing_func_prometheus_metrics uwsgi_starts_with cfg uwsgi) w
           = EvLog unavailable_log
               :: EvPrepareHeaders (txt "503 Service Unavailable") ok
               :: (if ok then [EvWriteBody not_initialized_msg ok1] else [])).
Proof.
  split; [apply routing_lock|].
  intros Hu. apply unavailable_cases in Hu.
  destruct (routing_unavailable uwsgi_starts_with cfg uwsgi w Hu) as (ok & ok1 & E).
  split; [|eauto]. rewrite E. destruct ok; reflexivity.
Qed.

Lemma route_handler_unavailable_witness :
  generator_called
    (events_of
       (uwsgi_routing_func_prometheus_metrics starts_with_memcmp ump_config_init
          metrics_disabled) quiet)
  = false.
Proof.
  exact (proj1 (proj2 (route_handler_unavailable starts_with_memcmp ump_config_init
                         metrics_disabled quiet)
                  (or_introl eq_refl))).
Defined.

(** With metrics available the generator is entered. *)
Example route_handler_available :
  generator_called
    (events_of
       (uwsgi_routing_func_prometheus_metrics starts_with_memcmp ump_config_init
          demo_registry) quiet)
  = true.
Proof. vm_compute. reflexivity. Qed.

(** ** C9 *)




(** A call of [accept] that fails takes nobody off the queue: the tick
    returns with the connection still waiting, and the next tick accepts
    it. *)
Example interrupted_accept_takes_nobody :
  prometheus_master_cycle starts_with_memcmp bound demo_registry interrupted
  = (Some tt,
     {| reallocs := []; mallocs := []; host := []; backlog := [first_client];
        trace := [EvSelect true] |})
  /\ accepted
       (events_of (prometheus_master_cycle starts_with_memcmp bound demo_registry)
          (snd (prometheus_master_cycle starts_with_memcmp bound demo_registry
                  interrupted)))
     = [first_client].
Proof. vm_compute. repeat split. Qed.

(** ** C10 *)

(** C10 at the 500 response.  When the pass fails, the dedicated server
    writes the fixed response, whose Content-Length header says 28 while 27
    bytes follow the blank line. *)
Theorem response_500_declares_28_for_27_bytes :
  written_to first_client
    (events_of (prometheus_master_cycle starts_with_memcmp bound one_gauge) failing_scrape)
  = response_500
  /\ declared_length response_500 = Some 28
  /\ option_map (@length ascii) (http_body response_500) = Some 27
  /\ http_body response_500 = Some failed_msg.
Proof. vm_compute. repeat split. Qed.

(** The 200 response of a pass that succeeds declares the length of its
    body. *)
Example response_200_declares_its_length :
  let sent := written_to first_client
                (events_of (prometheus_master_cycle starts_with_memcmp bound demo_registry)
                   one_waiting) in
  declared_length sent = option_map (@length ascii) (http_body sent)
  /\ option_map string_of_list_ascii (http_body sent)
     = output_of starts_with_memcmp bound demo_registry quiet.
Proof. vm_compute. repeat split. Qed.

(** The lengths passed next to the literals are the lengths of the
    literals. *)
Example literal_lengths :
  map (@length ascii)
      [txt "worker."; txt "_total"; txt "# HELP "; txt "# TYPE ";
       txt "503 Service Unavailable"; txt "500 Internal Server Error"; txt "200 OK";
       content_type; txt "HTTP/1.0 200 OK" ++ CRLF;
       txt "Content-Type: " ++ content_type ++ CRLF; txt "Content-Length: ";
       txt "Connection: close" ++ CRLF]
  = [7; 6; 7; 7; 23; 25; 6; 40; 17; 56; 16; 19].
Proof. reflexivity. Qed.

(* ===================================================================== *)
(** * Further properties of plugin.c *)
(* ===================================================================== *)

(** ** prometheus_escape_string *)

(** X1.  When no append fails, [prometheus_escape_string] returns the buffer
    it was given with the escaped text of [str] after what it held: two
    bytes, a backslash and then a backslash, a quote or the letter n, for
    every backslash, quote and line feed of [str], and every other byte as
    it is. *)
Theorem escape_string_appends_escaped ub str w :
  never_short w ->
  fst (prometheus_escape_string ub str w)
  = Some {| ident := ident ub; buf := buf ub ++ escaped str |}.
Proof.
  revert ub w. induction str as [|c rest IH]; intros ub w Hw; cbn [prometheus_escape_string].
  - unfold escaped. cbn. rewrite app_nil_r. destruct ub; reflexivity.
  - unfold try, bind. rewrite append_run.
    destruct (unfailing_pop Hw) as [Hok Hrest]. rewrite Hok.
    rewrite IH by exact Hrest. cbn [ident buf]. unfold escaped. cbn [flat_map].
    rewrite app_assoc. reflexivity.
Qed.

Lemma escape_string_appends_escaped_witness :
  fst (prometheus_escape_string {| ident := LABELS; buf := txt "path=" ++ [DQUOTE] |}
         (txt "C:\dir") quiet)
  = Some {| ident := LABELS; buf := txt "path=" ++ [DQUOTE] ++ txt "C:\\dir" |}.
Proof.
  exact (@escape_string_appends_escaped
           {| ident := LABELS; buf := txt "path=" ++ [DQUOTE] |} (txt "C:\dir") quiet
           eq_refl).
Defined.

(** X2.  Escaping loses nothing: a reader of quoted label values that is
    given the escaped text of [str], the closing quote and any text after it
    gets [str] back and stops right after that quote, whatever bytes [str]
    holds. *)
Theorem escaped_text_reads_back str rest :
  read_quoted (escaped str ++ DQUOTE :: rest) = Some (str, rest).
Proof.
  induction str as [|c str IH].
  - reflexivity.
  - unfold escaped in *. cbn [flat_map]. unfold escape_byte at 1.
    destruct (Ascii.eqb c BACKSLASH) eqn:Eb.
    + apply Ascii.eqb_eq in Eb. subst c. cbn [app read_quoted].
      change (Ascii.eqb BACKSLASH DQUOTE) with false.
      change (Ascii.eqb BACKSLASH BACKSLASH) with true. cbv iota.
      rewrite IH. reflexivity.
    + destruct (Ascii.eqb c DQUOTE) eqn:Eq.
      * apply Ascii.eqb_eq in Eq. subst c. cbn [app read_quoted].
        change (Ascii.eqb BACKSLASH DQUOTE) with false.
        change (Ascii.eqb BACKSLASH BACKSLASH) with true. cbv iota.
        rewrite IH. reflexivity.
      * destruct (Ascii.eqb c LF) eqn:El.
        -- apply Ascii.eqb_eq in El. subst c. cbn [app read_quoted].
           change (Ascii.eqb BACKSLASH DQUOTE) with false.
           change (Ascii.eqb BACKSLASH BACKSLASH) with true. cbv iota.
           rewrite IH. reflexivity.
        -- cbn [app read_quoted]. rewrite Eq, Eb, IH. reflexivity.
Qed.

(** X3.  The first append that fails ends the loop: when the buffer grows
    for the first [k] bytes of [str] and not for the next one,
    [prometheus_escape_string] returns -1 after [k + 1] appends and makes no
    further call. *)
Theorem escape_string_stops_at_failure ub str w k more :
  reallocs w = repeat true k ++ false :: more ->
  k < length str ->
  fst (prometheus_escape_string ub str w) = None
  /\ events_of (prometheus_escape_string ub str) w
     = repeat (EvAppend (ident ub) true) k ++ [EvAppend (ident ub) false]
  /\ reallocs (snd (prometheus_escape_string ub str w)) = more.
Proof.
  intros Hs Hk.
  assert (H : fst (prometheus_escape_string ub str w) = None
              /\ trace (snd (prometheus_escape_string ub str w))
                 = trace w ++ repeat (EvAppend (ident ub) true) k
                           ++ [EvAppend (ident ub) false]
              /\ reallocs (snd (prometheus_escape_string ub str w)) = more).
  { revert ub str w Hs Hk. induction k as [|k IH]; intros ub str w Hs Hk.
    - destruct str as [|c str]; [simpl in Hk; lia|].
      cbn [prometheus_escape_string]. unfold try, bind. rewrite append_run, Hs.
      cbn. auto.
    - destruct str as [|c str]; [simpl in Hk; lia|].
      cbn [prometheus_escape_string]. unfold try, bind. rewrite append_run, Hs.
      cbn [repeat app pop fst snd].
      match goal with
      | |- context [prometheus_escape_string ?u str ?v] =>
          destruct (IH u str v) as (R & T & S); [reflexivity | simpl in Hk; lia |]
      end.
      cbn [ident] in *. rewrite R, T, S. cbn [trace].
      rewrite <- app_assoc. auto. }
  destruct H as (R & T & S). split; [exact R|]. split; [|exact S].
  apply events_of_trace. exact T.
Qed.

Lemma escape_string_stops_at_failure_witness :
  fst (prometheus_escape_string {| ident := LABELS; buf := [] |} (txt "a\b")
         {| reallocs := [true; false; true]; mallocs := []; host := [];
            backlog := []; trace := [] |}) = None
  /\ events_of (prometheus_escape_string {| ident := LABELS; buf := [] |} (txt "a\b"))
       {| reallocs := [true; false; true]; mallocs := []; host := [];
          backlog := []; trace := [] |}
     = [EvAppend LABELS true; EvAppend LABELS false].
Proof.
  destruct (@escape_string_stops_at_failure {| ident := LABELS; buf := [] |} (txt "a\b")
              {| reallocs := [true; false; true]; mallocs := []; host := [];
                 backlog := []; trace := [] |} 1 [true] eq_refl) as (R & T & _).
  - simpl. lia.
  - split; [exact R | exact T].
Defined.

(** ** The set of seen names *)

(** X4.  Adding and looking up.  When the two allocations of
    [seen_names_add] succeed, the set it returns holds the added name and,
    besides it, the names that were in the set before and no other. *)
Theorem seen_names_add_then_contains head name other w :
  never_null w ->
  seen_names_contains (fst (seen_names_add head name w)) other = true
  <-> other = name \/ seen_names_contains head other = true.
Proof.
  intros Hw. rewrite (seen_names_add_ok head name Hw).
  rewrite !seen_names_contains_in. cbn [In]. split; intros [H|H]; subst; auto.
Qed.

Lemma seen_names_add_then_contains_witness :
  seen_names_contains (fst (seen_names_add [txt "uwsgi_a"] (txt "uwsgi_b") quiet))
    (txt "uwsgi_b") = true
  <-> txt "uwsgi_b" = txt "uwsgi_b"
      \/ seen_names_contains [txt "uwsgi_a"] (txt "uwsgi_b") = true.
Proof.
  exact (@seen_names_add_then_contains [txt "uwsgi_a"] (txt "uwsgi_b") (txt "uwsgi_b")
           quiet eq_refl).
Defined.

(** X5.  When [uwsgi_malloc] returns NULL for the node, or for the copy of
    the name, [seen_names_add] returns the set it was given: the name is not
    recorded and no error is reported.  After a NULL node the copy of the
    name is not asked for. *)
Theorem seen_names_add_out_of_memory head name w rest :
  mallocs w = false :: rest \/ mallocs w = true :: false :: rest ->
  fst (seen_names_add head name w) = head
  /\ events_of (seen_names_add head name) w
     = match mallocs w with
       | false :: _ => [EvMalloc false]
       | _ => [EvMalloc true; EvMalloc false]
       end.
Proof.
  intros [H|H]; rewrite H; (split; [|apply events_of_trace]);
    unfold seen_names_add, uwsgi_malloc, bind, next_malloc, emit, ret; rewrite H; cbn;
    try reflexivity; rewrite <- app_assoc; reflexivity.
Qed.

Lemma seen_names_add_out_of_memory_witness :
  fst (seen_names_add [txt "uwsgi_a"] (txt "uwsgi_b")
         {| reallocs := []; mallocs := [true; false]; host := []; backlog := [];
            trace := [] |})
  = [txt "uwsgi_a"].
Proof.
  exact (proj1 (@seen_names_add_out_of_memory [txt "uwsgi_a"] (txt "uwsgi_b")
                  {| reallocs := []; mallocs := [true; false]; host := []; backlog := [];
                     trace := [] |} [] (or_intror eq_refl))).
Defined.

(** ** prometheus_format_metric_name *)

(** X6.  Whatever bytes the name of a metric holds, what the translation
    puts after the prefix in the name buffer is made of ASCII letters, digits
    and underscores only. *)
Theorem flat_name_is_clean nb0 lb0 metric_name pfx w nb lb w' :
  prometheus_format_metric_name nb0 lb0 metric_name pfx w = (Some (nb, lb), w') ->
  exists rest, buf nb = pfx ++ rest /\ forallb name_char rest = true.
Proof.
  intros H. apply format_spec in H. destruct H as [H _].
  exists (glue true false (stored_segments metric_name)). split; [exact H|].
  apply glue_name_chars, stored_name_chars.
Qed.

Lemma flat_name_is_clean_witness :
  exists rest,
    txt "uwsgi_rss_size__kb_" = txt "uwsgi_" ++ rest /\ forallb name_char rest = true.
Proof.
  exact (@flat_name_is_clean {| ident := NAME; buf := [] |} {| ident := LABELS; buf := [] |}
           (txt "rss-size.(kb)") (txt "uwsgi_") quiet
           {| ident := NAME; buf := txt "uwsgi_rss_size__kb_" |}
           {| ident := LABELS; buf := [] |}
           {| reallocs := []; mallocs := []; host := []; backlog := [];
              trace := [EvAppend NAME true; EvAppend NAME true; EvAppend NAME true;
                        EvAppend NAME true] |}
           eq_refl).
Defined.

(** X7.  Empty segments count for nothing: two names whose non-empty
    segments are the same, in the same order, have the same translation.
    Dots at the start or the end of a name and dots that follow a dot make no
    difference. *)
Theorem empty_segments_are_skipped pfx name1 name2 :
  filter nonempty (segments name1) = filter nonempty (segments name2) ->
  translated pfx name1 = translated pfx name2.
Proof.
  intros H. rewrite !translated_spec. unfold flat_name, labels_of.
  rewrite !stored_segments_filter, H. reflexivity.
Qed.

Lemma empty_segments_are_skipped_witness :
  translated (txt "uwsgi_") (txt ".worker..1.requests.")
  = translated (txt "uwsgi_") (txt "worker.1.requests").
Proof.
  exact (@empty_segments_are_skipped (txt "uwsgi_") (txt ".worker..1.requests.")
           (txt "worker.1.requests") eq_refl).
Defined.

(** X8.  The flat name is the prefix alone exactly when the name has no text
    segment, that is, when every non-empty segment of it is numeric. *)
Theorem bare_prefix_iff_no_text_segment pfx metric_name :
  option_map fst (translated pfx metric_name) = Some pfx
  <-> forallb segment_is_numeric (stored_segments metric_name) = true.
Proof.
  rewrite translated_spec. cbn [option_map fst]. unfold flat_name.
  rewrite <- (glue_length_text true false (stored_nonempty metric_name)).
  split.
  - intros H. injection H as H. rewrite <- (app_nil_r pfx) in H at 2.
    apply app_inv_head in H. exact H.
  - intros ->. rewrite app_nil_r. reflexivity.
Qed.

(** X9.  A label value is never empty and holds ASCII digits only, 255 of
    them at most: what the translation leaves in the labels buffer is the
    text of the keys [worker], [core], [thread] and [id], in this order,
    each with such a value, so that no value holds a quote, a backslash or a
    line feed. *)
Theorem label_values_are_digits nb0 lb0 metric_name pfx w nb lb w' :
  prometheus_format_metric_name nb0 lb0 metric_name pfx w = (Some (nb, lb), w') ->
  exists values,
    buf lb = label_text (combine label_names values)
    /\ Forall (fun v => 0 < length v <= 255 /\ forallb is_digit v = true) values.
Proof.
  intros H. apply format_spec in H. destruct H as [_ H].
  exists (numeric_segments metric_name). split.
  - rewrite H. unfold labels_of. rewrite numeric_stored. reflexivity.
  - unfold numeric_segments. apply Forall_forall. intros v Hin.
    apply filter_In in Hin. destruct Hin as [Hin Hnum].
    apply filter_In in Hin. destruct Hin as [Hin Hne].
    apply in_map_iff in Hin. destruct Hin as (seg & <- & _).
    unfold nonempty in Hne. apply Nat.ltb_lt in Hne.
    split; [|exact Hnum]. split; [exact Hne|].
    rewrite length_firstn. unfold SEGMENT_SIZE. lia.
Qed.

Lemma label_values_are_digits_witness :
  exists values,
    txt "worker=" ++ [DQUOTE] ++ txt "12" ++ [DQUOTE]
    = label_text (combine label_names values)
    /\ Forall (fun v => 0 < length v <= 255 /\ forallb is_digit v = true) values.
Proof.
  exact (@label_values_are_digits {| ident := NAME; buf := [] |}
           {| ident := LABELS; buf := [] |} (txt "worker.12.rss") (txt "uwsgi_") quiet
           {| ident := NAME; buf := txt "uwsgi_workerrss" |}
           {| ident := LABELS; buf := txt "worker=" ++ [DQUOTE] ++ txt "12" ++ [DQUOTE] |}
           {| reallocs := []; mallocs := []; host := []; backlog := [];
              trace := [EvAppend NAME true; EvAppend NAME true; EvAppend LABELS true;
                        EvAppend LABELS true; EvAppend LABELS true; EvAppend LABELS true;
                        EvAppend NAME true] |}
           eq_refl).
Defined.

(** ** prometheus_generate_metrics *)

(** X10.  What a pass writes.  When no allocation fails and no buffer fails
    to grow, a pass over an available registry returns the lines of all its
    records in the order of the registry: nothing for a record without a
    name, with an empty name or without a value, for one that the
    [no_workers] test passes over, and for one whose flat name is empty; for
    any other record its sample line, the flat name with [_total] after it
    for a counter, then the labels in braces if there are any, a space and
    the value in decimal, and before the sample line the HELP and TYPE lines
    that are enabled when the name was not used by an earlier record. *)
Theorem pass_writes_the_exposition (uwsgi_starts_with : bytes -> bytes -> Z) cfg uwsgi w :
  never_short w -> never_null w ->
  unavailable uwsgi = false ->
  exists out,
    fst (prometheus_generate_metrics uwsgi_starts_with cfg uwsgi w) = Some out
    /\ buf out = lines_text (exposition uwsgi_starts_with cfg (prefix_of cfg)
                               seen_names_create (metrics uwsgi)).
Proof.
  intros Hs Hn Ha.
  destruct (generate_complete uwsgi_starts_with cfg uwsgi Hs Hn) as (out & E & B).
  rewrite Ha in B. exists out. auto.
Qed.

Lemma pass_writes_the_exposition_witness :
  exists out,
    fst (prometheus_generate_metrics starts_with_memcmp ump_config_init demo_registry quiet)
    = Some out
    /\ buf out = lines_text (exposition starts_with_memcmp ump_config_init
                               (prefix_of ump_config_init) seen_names_create
                               (metrics demo_registry)).
Proof.
  exact (@pass_writes_the_exposition starts_with_memcmp ump_config_init demo_registry
           quiet eq_refl eq_refl eq_refl).
Defined.



(** X12.  Records without a name, with an empty name or without a value
    leave no trace in the result: when nothing fails, a pass over a registry
    returns the same bytes as a pass over the registry without those
    records. *)
Theorem unnamed_records_leave_no_trace (uwsgi_starts_with : bytes -> bytes -> Z)
    cfg uwsgi w w' :
  never_short w -> never_null w -> never_short w' -> never_null w' ->
  option_map buf (fst (prometheus_generate_metrics uwsgi_starts_with cfg uwsgi w))
  = option_map buf
      (fst (prometheus_generate_metrics uwsgi_starts_with cfg
              {| has_metrics := has_metrics uwsgi;
                 metrics := filter renderable (metrics uwsgi) |} w')).
Proof.
  intros Hs Hn Hs' Hn'.
  destruct (generate_complete uwsgi_starts_with cfg uwsgi Hs Hn) as (out & E & B).
  destruct (generate_complete uwsgi_starts_with cfg
              {| has_metrics := has_metrics uwsgi;
                 metrics := filter renderable (metrics uwsgi) |} Hs' Hn')
    as (out' & E' & B').
  rewrite E, E'. cbn [option_map]. f_equal. rewrite B, B'.
  unfold unavailable. cbn [has_metrics metrics].
  rewrite exposition_renderable.
  destruct (has_metrics uwsgi); cbn [negb orb]; [|reflexivity].
  destruct (metrics uwsgi) as [|um rest] eqn:Em; [reflexivity|].
  destruct (filter renderable (um :: rest)) as [|um' rest'] eqn:Ef; [|reflexivity].
  rewrite <- (exposition_renderable uwsgi_starts_with cfg (prefix_of cfg) (um :: rest)).
  rewrite Ef. reflexivity.
Qed.

Lemma unnamed_records_leave_no_trace_witness :
  option_map buf
    (fst (prometheus_generate_metrics starts_with_memcmp ump_config_init
            with_unnamed_records quiet))
  = option_map buf
      (fst (prometheus_generate_metrics starts_with_memcmp ump_config_init
              {| has_metrics := has_metrics with_unnamed_records;
                 metrics := filter renderable (metrics with_unnamed_records) |} quiet)).
Proof.
  exact (@unnamed_records_leave_no_trace starts_with_memcmp ump_config_init
           with_unnamed_records quiet quiet eq_refl eq_refl eq_refl eq_refl).
Defined.

(** X13.  A pass needs its three buffers.  When [uwsgi_buffer_new] returns
    NULL for the output buffer, the pass logs that and returns NULL at once.
    When it returns NULL for one of the two conversion buffers, both have
    been asked for, and the pass logs that and returns NULL.  In either case
    the registry has not been looked at. *)
Theorem pass_needs_its_three_buffers (uwsgi_starts_with : bytes -> bytes -> Z)
    cfg uwsgi w :
  forallb (fun ok : bool => ok) (firstn 3 (mallocs w)) = false ->
  fst (prometheus_generate_metrics uwsgi_starts_with cfg uwsgi w) = None
  /\ events_of (prometheus_generate_metrics uwsgi_starts_with cfg uwsgi) w
     = match mallocs w with
       | true :: name_ok :: rest =>
           [EvBufferNew OUTPUT true; EvBufferNew NAME name_ok;
            EvBufferNew LABELS (fst (pop rest));
            EvLog "[prometheus] Failed to allocate conversion buffers"]
       | _ => [EvBufferNew OUTPUT false;
               EvLog "[prometheus] Failed to allocate output buffer"]
       end.
Proof.
  intros H. destruct w as [re ma ho ba tr]. cbn [mallocs] in *.
  split; [|apply events_of_trace];
    destruct ma as [|[] [|[] [|[] rest]]]; try discriminate H;
    cbv [prometheus_generate_metrics bind uwsgi_buffer_new next_malloc emit ret pop
         uwsgi_log mallocs reallocs host backlog trace fst snd];
    try reflexivity; rewrite <- ?app_assoc; reflexivity.
Qed.

Lemma pass_needs_its_three_buffers_witness :
  fst (prometheus_generate_metrics starts_with_memcmp ump_config_init demo_registry
         {| reallocs := []; mallocs := [true; false]; host := []; backlog := [];
            trace := [] |}) = None
  /\ events_of (prometheus_generate_metrics starts_with_memcmp ump_config_init
                  demo_registry)
       {| reallocs := []; mallocs := [true; false]; host := []; backlog := [];
          trace := [] |}
     = [EvBufferNew OUTPUT true; EvBufferNew NAME false; EvBufferNew LABELS true;
        EvLog "[prometheus] Failed to allocate conversion buffers"].
Proof.
  exact (@pass_needs_its_three_buffers starts_with_memcmp ump_config_init demo_registry
           {| reallocs := []; mallocs := [true; false]; host := []; backlog := [];
              trace := [] |} eq_refl).
Defined.

(** X14.  The [no_workers] test is a filter on names.  When nothing fails,
    a pass returns the same bytes as a pass over the registry without the
    records that the test holds back, which are the named records for which
    [no_workers] is set and [uwsgi_starts_with] returns a number other than
    zero for the name and ["worker."].  With [no_workers] unset no record is
    held back. *)
Theorem no_workers_test_is_a_filter (uwsgi_starts_with : bytes -> bytes -> Z)
    cfg uwsgi w w' :
  never_short w -> never_null w -> never_short w' -> never_null w' ->
  option_map buf (fst (prometheus_generate_metrics uwsgi_starts_with cfg uwsgi w))
  = option_map buf
      (fst (prometheus_generate_metrics uwsgi_starts_with cfg
              {| has_metrics := has_metrics uwsgi;
                 metrics := filter (let_through uwsgi_starts_with cfg) (metrics uwsgi) |}
              w'))
  /\ (no_workers cfg = false ->
      filter (let_through uwsgi_starts_with cfg) (metrics uwsgi) = metrics uwsgi).
Proof.
  intros Hs Hn Hs' Hn'. split.
  - apply generate_filter; try assumption.
    intros seen um. apply record_lines_held_back.
  - intros Hoff. apply forallb_filter_id. apply forallb_forall. intros um _.
    unfold let_through. rewrite Hoff. destruct (name um); reflexivity.
Qed.

Lemma no_workers_test_is_a_filter_witness :
  option_map buf
    (fst (prometheus_generate_metrics starts_with_memcmp without_workers demo_registry
            quiet))
  = option_map buf
      (fst (prometheus_generate_metrics starts_with_memcmp without_workers
              {| has_metrics := has_metrics demo_registry;
                 metrics := filter (let_through starts_with_memcmp without_workers)
                              (metrics demo_registry) |}
              quiet)).
Proof.
  exact (proj1 (@no_workers_test_is_a_filter starts_with_memcmp without_workers
                  demo_registry quiet quiet eq_refl eq_refl eq_refl eq_refl)).
Defined.

(** X15.  What [no_workers] keeps.  The pass takes the result of
    [uwsgi_starts_with] for a condition, so it passes a record over when the
    result is not zero.  If [uwsgi_starts_with] returns zero exactly when the
    name begins with ["worker."], as [memcmp] does for equal bytes, then with
    [no_workers] set a pass in which nothing fails writes the records whose
    names begin with ["worker."] and passes over all the other named
    records. *)
Theorem no_workers_keeps_the_worker_records (uwsgi_starts_with : bytes -> bytes -> Z)
    cfg uwsgi w w' :
  (forall src, uwsgi_starts_with src (txt "worker.") = 0%Z
               <-> begins_with src (txt "worker.") = true) ->
  no_workers cfg = true ->
  never_short w -> never_null w -> never_short w' -> never_null w' ->
  option_map buf (fst (prometheus_generate_metrics uwsgi_starts_with cfg uwsgi w))
  = option_map buf
      (fst (prometheus_generate_metrics uwsgi_starts_with cfg
              {| has_metrics := has_metrics uwsgi;
                 metrics := filter (fun um => match name um with
                                              | Some raw => begins_with raw (txt "worker.")
                                              | None => true
                                              end) (metrics uwsgi) |}
              w')).
Proof.
  intros Hconv Hon Hs Hn Hs' Hn'.
  apply generate_filter; try assumption.
  intros seen um Hkeep. apply record_lines_held_back. unfold let_through.
  destruct (name um) as [raw|]; [|discriminate Hkeep].
  rewrite Hon. cbn [andb]. apply negb_false_iff. unfold nonzero.
  apply negb_true_iff. apply Z.eqb_neq. intros Hz. apply Hconv in Hz. congruence.
Qed.

Lemma no_workers_keeps_the_worker_records_witness :
  option_map buf
    (fst (prometheus_generate_metrics starts_with_worker without_workers demo_registry
            quiet))
  = option_map buf
      (fst (prometheus_generate_metrics starts_with_worker without_workers
              {| has_metrics := true;
                 metrics := [ metric "worker.1.requests" UWSGI_METRIC_COUNTER 7;
                              metric "worker.2.requests" UWSGI_METRIC_COUNTER 9 ] |}
              quiet)).
Proof.
  refine (@no_workers_keeps_the_worker_records starts_with_worker without_workers
            demo_registry quiet quiet _ eq_refl eq_refl eq_refl eq_refl eq_refl).
  intros src. unfold starts_with_worker.
  destruct (begins_with src (txt "worker.")); split; intros H;
    try reflexivity; discriminate H.
Defined.



(** ** uwsgi_routing_func_prometheus_metrics *)

(** X17.  The 200 response of the route handler.  When the registry is
    available and the pass returns a buffer, the handler goes on with these
    calls into the host, each made only if the one before it returned zero:
    the status [200 OK], the content type of the text format, the content
    length, which is the number of bytes of the buffer, and the body, which
    is the bytes of the buffer.  It makes no other call. *)
Theorem route_handler_sends_the_pass (uwsgi_starts_with : bytes -> bytes -> Z)
    cfg uwsgi w out w1 :
  unavailable uwsgi = false ->
  prometheus_generate_metrics uwsgi_starts_with cfg uwsgi w = (Some out, w1) ->
  exists ok ok1 ok2 ok3,
    events_of (uwsgi_routing_func_prometheus_metrics uwsgi_starts_with cfg uwsgi) w
    = events_of (prometheus_generate_metrics uwsgi_starts_with cfg uwsgi) w
      ++ EvPrepareHeaders (txt "200 OK") ok
         :: (if ok then
               EvAddContentType (txt "text/plain; version=0.0.4; charset=utf-8") ok1
               :: (if ok1 then
                     EvAddContentLength (length (buf out)) ok2
                     :: (if ok2 then [EvWriteBody (buf out) ok3] else [])
                   else [])
             else []).
Proof.
  intros Ha E.
  destruct (generate_events uwsgi_starts_with cfg uwsgi w) as [T _].
  rewrite E in T. cbn [snd] in T.
  set (evs := events_of (prometheus_generate_metrics uwsgi_starts_with cfg uwsgi) w) in *.
  unfold events_of, uwsgi_routing_func_prometheus_metrics. rewrite Ha.
  unfold bind at 1. rewrite E.
  destruct w1 as [re ma ho ba tr]. destruct w as [re0 ma0 ho0 ba0 tr0].
  cbn [trace] in T. subst tr.
  exists (fst (pop ho)), (fst (pop (snd (pop ho)))),
    (fst (pop (snd (pop (snd (pop ho)))))),
    (fst (pop (snd (pop (snd (pop (snd (pop ho)))))))).
  destruct ho as [|[] [|[] [|[] [|[] rest]]]];
    cbv beta iota zeta delta [bind emit ret uwsgi_response_prepare_headers
      uwsgi_response_add_content_type uwsgi_response_add_content_length
      uwsgi_response_write_body_do next_host host trace reallocs mallocs backlog
      fst snd pop negb content_type pos];
    rewrite <- !app_assoc; rewrite skipn_past; cbn [app]; reflexivity.
Qed.

Lemma route_handler_sends_the_pass_witness :
  exists ok ok1 ok2 ok3,
    events_of (uwsgi_routing_func_prometheus_metrics starts_with_memcmp bare_samples
                 one_gauge) quiet
    = events_of (prometheus_generate_metrics starts_with_memcmp bare_samples one_gauge)
        quiet
      ++ EvPrepareHeaders (txt "200 OK") ok
         :: (if ok then
               EvAddContentType (txt "text/plain; version=0.0.4; charset=utf-8") ok1
               :: (if ok1 then
                     EvAddContentLength (length (txt "uwsgi_a 1" ++ [LF])) ok2
                     :: (if ok2 then [EvWriteBody (txt "uwsgi_a 1" ++ [LF]) ok3] else [])
                   else [])
             else []).
Proof.
  pose proof (surjective_pairing
                (prometheus_generate_metrics starts_with_memcmp bare_samples one_gauge
                   quiet)) as E.
  replace (fst (prometheus_generate_metrics starts_with_memcmp bare_samples one_gauge
                  quiet))
    with (Some {| ident := OUTPUT; buf := txt "uwsgi_a 1" ++ [LF] |}) in E
    by (vm_compute; reflexivity).
  exact (@route_handler_sends_the_pass starts_with_memcmp bare_samples one_gauge quiet
           {| ident := OUTPUT; buf := txt "uwsgi_a 1" ++ [LF] |} _ eq_refl E).
Defined.

(** X18.  The 500 response of the route handler.  When the registry is
    available and the pass returns NULL, the handler logs the failure, sets
    the status [500 Internal Server Error] and, if the host accepts the
    status, writes the body ["Failed to generate metrics"] with a line feed;
    it sets no content type and no content length, and nothing of what the
    pass had written reaches the client. *)
Theorem route_handler_reports_a_failed_pass (uwsgi_starts_with : bytes -> bytes -> Z)
    cfg uwsgi w w1 :
  unavailable uwsgi = false ->
  prometheus_generate_metrics uwsgi_starts_with cfg uwsgi w = (None, w1) ->
  exists ok ok1,
    events_of (uwsgi_routing_func_prometheus_metrics uwsgi_starts_with cfg uwsgi) w
    = events_of (prometheus_generate_metrics uwsgi_starts_with cfg uwsgi) w
      ++ EvLog "[prometheus] Failed to generate metrics buffer"
         :: EvPrepareHeaders (txt "500 Internal Server Error") ok
         :: (if ok then [EvWriteBody (txt "Failed to generate metrics" ++ [LF]) ok1]
             else []).
Proof.
  intros Ha E.
  destruct (generate_events uwsgi_starts_with cfg uwsgi w) as [T _].
  rewrite E in T. cbn [snd] in T.
  set (evs := events_of (prometheus_generate_metrics uwsgi_starts_with cfg uwsgi) w) in *.
  unfold events_of, uwsgi_routing_func_prometheus_metrics. rewrite Ha.
  unfold bind at 1. rewrite E.
  destruct w1 as [re ma ho ba tr]. destruct w as [re0 ma0 ho0 ba0 tr0].
  cbn [trace] in T. subst tr.
  destruct ho as [|[] [|ok1 rest]];
    [exists true, true | exists true, true | exists true, ok1
     | exists false, true | exists false, true];
    cbv beta iota zeta delta [bind uwsgi_log emit ret uwsgi_response_prepare_headers
      uwsgi_response_write_body_do next_host host trace reallocs mallocs backlog
      fst snd pop negb failed_msg];
    rewrite <- !app_assoc; rewrite skipn_past; cbn [app]; reflexivity.
Qed.

Lemma route_handler_reports_a_failed_pass_witness :
  exists ok ok1,
    events_of (uwsgi_routing_func_prometheus_metrics starts_with_memcmp ump_config_init
                 one_gauge) third_append_fails
    = events_of (prometheus_generate_metrics starts_with_memcmp ump_config_init one_gauge)
        third_append_fails
      ++ EvLog "[prometheus] Failed to generate metrics buffer"
         :: EvPrepareHeaders (txt "500 Internal Server Error") ok
         :: (if ok then [EvWriteBody (txt "Failed to generate metrics" ++ [LF]) ok1]
             else []).
Proof.
  pose proof (surjective_pairing
                (prometheus_generate_metrics starts_with_memcmp ump_config_init one_gauge
                   third_append_fails)) as E.
  replace (fst (prometheus_generate_metrics starts_with_memcmp ump_config_init one_gauge
                  third_append_fails))
    with (@None uwsgi_buffer) in E by (vm_compute; reflexivity).
  exact (@route_handler_reports_a_failed_pass starts_with_memcmp ump_config_init one_gauge
           third_append_fails _ eq_refl E).
Defined.

(** ** The dedicated server *)

(** X19.  A client that has gone gets nothing.  When the client has sent
    nothing and has closed its end or reset the connection, [read] returns
    [0] or [-1], and the tick closes the connection and returns, without a
    pass over the registry and without a response. *)
Theorem departed_client_is_dropped (uwsgi_starts_with : bytes -> bytes -> Z)
    cfg uwsgi w c rest :
  (0 <= server_fd cfg)%Z -> backlog w = c :: rest -> refused c = [] ->
  request c = [] -> silence c <> StaysConnected ->
  fst (prometheus_master_cycle uwsgi_starts_with cfg uwsgi w) = Some tt
  /\ events_of (prometheus_master_cycle uwsgi_starts_with cfg uwsgi) w
     = [EvSelect true; EvAccept c; EvFcntl c;
        EvRead c (match silence c with HasReset => (-1)%Z | _ => 0%Z end);
        EvClose c].
Proof.
  intros Hfd Hb Hr Hreq Hsil.
  assert (E : prometheus_master_cycle uwsgi_starts_with cfg uwsgi w
              = (Some tt,
                 {| reallocs := reallocs w; mallocs := mallocs w; host := host w;
                    backlog := rest;
                    trace := ((((trace w ++ [EvSelect true]) ++ [EvAccept c])
                               ++ [EvFcntl c])
                              ++ [EvRead c (match silence c with
                                            | HasReset => (-1)%Z
                                            | _ => 0%Z
                                            end)])
                             ++ [EvClose c] |})).
  { rewrite (@master_cycle_ready uwsgi_starts_with cfg uwsgi w c rest Hfd Hb Hr).
    unfold respond, read. rewrite Hreq.
    destruct (silence c); [congruence | reflexivity | reflexivity]. }
  unfold events_of. rewrite E. cbn [fst snd trace].
  rewrite <- !app_assoc, skipn_past. split; reflexivity.
Qed.

Lemma departed_client_is_dropped_witness :
  fst (prometheus_master_cycle starts_with_memcmp bound demo_registry
         {| reallocs := []; mallocs := []; host := [];
            backlog := [{| peer := 3; request := []; silence := HasHungUp;
                           refused := [] |}];
            trace := [] |})
  = Some tt.
Proof.
  refine (proj1 (@departed_client_is_dropped starts_with_memcmp bound demo_registry
                   {| reallocs := []; mallocs := []; host := [];
                      backlog := [{| peer := 3; request := []; silence := HasHungUp;
                                     refused := [] |}];
                      trace := [] |}
                   {| peer := 3; request := []; silence := HasHungUp; refused := [] |}
                   [] _ eq_refl eq_refl eq_refl _)).
  - cbn. lia.
  - discriminate.
Defined.

(** X20.  The 200 response of the dedicated server.  When a client has sent
    at least one byte and nothing fails in the pass or in building the
    headers, the tick makes two writes to the client: the status line
    [HTTP/1.0 200 OK] with the headers Content-Type, Content-Length, which is
    the number of bytes of the result of the pass in decimal, and
    [Connection: close], and then the result of the pass.  What the client
    has sent is not looked at, and the body is written also when the write of
    the headers has failed.  With metrics disabled the response is still 200,
    with an empty body. *)
Theorem dedicated_server_sends_the_pass (uwsgi_starts_with : bytes -> bytes -> Z)
    cfg uwsgi w c rest :
  (0 <= server_fd cfg)%Z -> backlog w = c :: rest -> refused c = [] ->
  request c <> [] -> never_short w -> never_null w ->
  written_to c (events_of (prometheus_master_cycle uwsgi_starts_with cfg uwsgi) w)
  = (if fst (pop (host w))
     then ok_header (length (whole_exposition uwsgi_starts_with cfg uwsgi)) else [])
    ++ (if fst (pop (snd (pop (host w))))
        then whole_exposition uwsgi_starts_with cfg uwsgi else []).
Proof. apply master_cycle_written. Qed.

Lemma dedicated_server_sends_the_pass_witness :
  written_to first_client
    (events_of (prometheus_master_cycle starts_with_memcmp bound demo_registry)
       one_waiting)
  = ok_header (length (whole_exposition starts_with_memcmp bound demo_registry))
    ++ whole_exposition starts_with_memcmp bound demo_registry.
Proof.
  refine (@dedicated_server_sends_the_pass starts_with_memcmp bound demo_registry
            one_waiting first_client [] _ eq_refl eq_refl _ eq_refl eq_refl).
  - cbn. lia.
  - discriminate.
Defined.

(** X21.  The 200 response says how long its body is.  When moreover the
    two writes to the client succeed, what the client receives reads as an
    HTTP response whose body, the bytes after the first empty line, is the
    result of the pass, and whose Content-Length header holds the number of
    bytes of that body. *)
Theorem ok_response_declares_its_length (uwsgi_starts_with : bytes -> bytes -> Z)
    cfg uwsgi w c rest :
  (0 <= server_fd cfg)%Z -> backlog w = c :: rest -> refused c = [] ->
  request c <> [] -> never_short w -> never_null w -> unfailing (host w) ->
  let sent :=
    written_to c (events_of (prometheus_master_cycle uwsgi_starts_with cfg uwsgi) w) in
  http_body sent = Some (whole_exposition uwsgi_starts_with cfg uwsgi)
  /\ declared_length sent = option_map (@length ascii) (http_body sent).
Proof.
  intros Hfd Hb Hr Hreq Hs Hn Hh sent. subst sent.
  rewrite (@master_cycle_written uwsgi_starts_with cfg uwsgi w c rest Hfd Hb Hr Hreq Hs
             Hn).
  destruct (unfailing_pop Hh) as [-> Hh1]. destruct (unfailing_pop Hh1) as [-> _].
  destruct (ok_response_reads_back (length (whole_exposition uwsgi_starts_with cfg uwsgi))
              (whole_exposition uwsgi_starts_with cfg uwsgi)) as [D B].
  rewrite B, D. split; reflexivity.
Qed.

Lemma ok_response_declares_its_length_witness :
  http_body (written_to first_client
               (events_of (prometheus_master_cycle starts_with_memcmp bound demo_registry)
                  one_waiting))
  = Some (whole_exposition starts_with_memcmp bound demo_registry)
  /\ declared_length
       (written_to first_client
          (events_of (prometheus_master_cycle starts_with_memcmp bound demo_registry)
             one_waiting))
     = option_map (@length ascii)
         (http_body (written_to first_client
                       (events_of (prometheus_master_cycle starts_with_memcmp bound
                                     demo_registry) one_waiting))).
Proof.
  refine (@ok_response_declares_its_length starts_with_memcmp bound demo_registry
            one_waiting first_client [] _ eq_refl eq_refl _ eq_refl eq_refl eq_refl).
  - cbn. lia.
  - discriminate.
Defined.

(** ** Loading the plugin and starting the dedicated server *)

(** X22.  No dedicated server without an address or without a master.
    After the plugin is loaded, the [post_init] hook leaves the configuration
    as it is when no server address is set, and also when one is set and
    uWSGI runs without a master process; in the second case it logs an error.
    No socket is bound or set up, and every tick of the master cycle is then
    a no-op. *)
Theorem server_stays_off (uwsgi_starts_with : bytes -> bytes -> Z)
    (bind_to_tcp : bytes -> Z -> bytes -> Z) (bind_to_unix : bytes -> Z -> Z -> Z -> Z)
    sockets cfg0 uwsgi w :
  server_address cfg0 = None \/ master_process sockets = false ->
  let cfg := fst (metrics_prometheus_init cfg0) in
  let booted := metrics_prometheus_post_init bind_to_tcp bind_to_unix sockets cfg in
  fst booted = cfg
  /\ prometheus_master_cycle uwsgi_starts_with (fst booted) uwsgi w = (Some tt, w)
  /\ (forall fd, ~ In (BootSocketNb fd) (snd booted))
  /\ (server_address cfg0 <> None -> exists msg, snd booted = [BootLog msg []]).
Proof.
  intros H cfg booted. subst cfg booted.
  unfold metrics_prometheus_post_init, metrics_prometheus_init.
  cbn [fst server_address].
  destruct (server_address cfg0) as [address|] eqn:Ea.
  - destruct H as [H|H]; [discriminate H|]. rewrite H. cbn [fst snd].
    split; [reflexivity|]. split; [reflexivity|]. split.
    + intros fd [Hin|[]]. discriminate Hin.
    + intros _. eexists. reflexivity.
  - cbn [fst snd]. split; [reflexivity|]. split; [reflexivity|]. split.
    + intros fd [].
    + intros Hne. exfalso. apply Hne. reflexivity.
Qed.

Lemma server_stays_off_witness :
  fst (metrics_prometheus_post_init (fun _ _ _ => 5%Z) (fun _ _ _ _ => 6%Z)
         {| master_process := false; listen_queue := 100; chmod_socket := 0;
            abstract_socket := 0 |}
         (fst (metrics_prometheus_init
                 {| prefix := None; no_workers := false; include_help := false;
                    include_type := false; server_address := Some (txt ":9091");
                    server_fd := 0 |})))
  = fst (metrics_prometheus_init
           {| prefix := None; no_workers := false; include_help := false;
              include_type := false; server_address := Some (txt ":9091");
              server_fd := 0 |}).
Proof.
  exact (proj1 (@server_stays_off starts_with_memcmp (fun _ _ _ => 5%Z)
                  (fun _ _ _ _ => 6%Z)
                  {| master_process := false; listen_queue := 100; chmod_socket := 0;
                     abstract_socket := 0 |}
                  {| prefix := None; no_workers := false; include_help := false;
                     include_type := false; server_address := Some (txt ":9091");
                     server_fd := 0 |}
                  demo_registry quiet (or_intror eq_refl))).
Defined.

(** X23.  TCP or UNIX.  [prometheus_server_init] takes an address with a
    colon in it for a TCP address and binds it with [bind_to_tcp], which it
    gives the address and, as the port, the address from its first colon on;
    a path with a colon in it is taken for a TCP address too.  An address
    without a colon is bound with [bind_to_unix].  The descriptor that the
    call returns becomes [server_fd], negative or not. *)
Theorem server_address_kind (bind_to_tcp : bytes -> Z -> bytes -> Z)
    (bind_to_unix : bytes -> Z -> Z -> Z -> Z) sockets cfg address :
  server_address cfg = Some address ->
  let fd := server_fd (fst (prometheus_server_init bind_to_tcp bind_to_unix sockets cfg)) in
  (forall host port,
     address = host ++ ":"%char :: port -> ~ In ":"%char host ->
     fd = bind_to_tcp address (listen_queue sockets) (":"%char :: port))
  /\ (~ In ":"%char address ->
      fd = bind_to_unix address (listen_queue sockets) (chmod_socket sockets)
             (abstract_socket sockets)).
Proof.
  intros Ha fd. subst fd. unfold prometheus_server_init. rewrite Ha. cbv zeta. split.
  - intros host port -> Hnot. rewrite (@strchr_found ":"%char host port Hnot).
    destruct (_ <? 0)%Z; reflexivity.
  - intros Hnot. rewrite (@strchr_missing ":"%char address Hnot).
    destruct (_ <? 0)%Z; reflexivity.
Qed.

Lemma server_address_kind_witness :
  server_fd (fst (prometheus_server_init (fun _ _ port => Z.of_nat (length port))
                    (fun _ _ _ _ => (-1)%Z)
                    {| master_process := true; listen_queue := 100; chmod_socket := 0;
                       abstract_socket := 0 |}
                    {| prefix := None; no_workers := false; include_help := true;
                       include_type := true;
                       server_address := Some (txt "/tmp/metrics:1.sock");
                       server_fd := (-1)%Z |}))
  = Z.of_nat (length (txt ":1.sock")).
Proof.
  refine (proj1 (@server_address_kind (fun _ _ port => Z.of_nat (length port))
                   (fun _ _ _ _ => (-1)%Z)
                   {| master_process := true; listen_queue := 100; chmod_socket := 0;
                      abstract_socket := 0 |}
                   {| prefix := None; no_workers := false; include_help := true;
                      include_type := true;
                      server_address := Some (txt "/tmp/metrics:1.sock");
                      server_fd := (-1)%Z |}
                   (txt "/tmp/metrics:1.sock") eq_refl)
            (txt "/tmp/metrics") (txt "1.sock") eq_refl _).
  cbn. intros H. repeat (destruct H as [H|H]; [discriminate H|]). exact H.
Defined.

(** X24.  A bind that fails leaves the server off.  When the bind returns
    a negative descriptor, [prometheus_server_init] logs that it could not
    bind to the address and returns: the socket is not set up, the line that
    announces the server is not logged, and every tick of the master cycle
    is a no-op.  When the bind returns a descriptor that is not negative, the
    socket is made non-blocking and the server is announced with its address
    and descriptor. *)
Theorem failed_bind_leaves_server_off (uwsgi_starts_with : bytes -> bytes -> Z)
    (bind_to_tcp : bytes -> Z -> bytes -> Z) (bind_to_unix : bytes -> Z -> Z -> Z -> Z)
    sockets cfg address uwsgi w :
  server_address cfg = Some address ->
  let started := prometheus_server_init bind_to_tcp bind_to_unix sockets cfg in
  let fd := server_fd (fst started) in
  ((fd < 0)%Z ->
     snd started
     = [BootLog "[prometheus] Initializing dedicated metrics server on %s" [address];
        BootLog "[prometheus] ERROR: Failed to bind to %s" [address]]
     /\ prometheus_master_cycle uwsgi_starts_with (fst started) uwsgi w = (Some tt, w))
  /\ ((0 <= fd)%Z ->
      exists port,
        snd started
        = [BootLog "[prometheus] Initializing dedicated metrics server on %s" [address];
           BootSocketNb fd;
           BootLog "[prometheus] *** Dedicated metrics server enabled on %s fd: %d ***"
             [address; decimal fd];
           BootLog "[prometheus] Metrics available at: http://<host>%s/metrics (or just access the address)"
             [port]]).
Proof.
  intros Ha started fd. subst fd started. unfold prometheus_server_init. rewrite Ha.
  cbv zeta.
  set (fd := match strchr address ":" with
             | Some port => bind_to_tcp address (listen_queue sockets) port
             | None => bind_to_unix address (listen_queue sockets) (chmod_socket sockets)
                         (abstract_socket sockets)
             end).
  destruct (Z.ltb_spec fd 0) as [Hlt|Hge]; cbn [fst snd with_server_fd server_fd].
  - split; [|intros H; lia]. intros _. split; [reflexivity|].
    unfold prometheus_master_cycle, with_server_fd. cbn [server_fd].
    destruct (Z.ltb_spec fd 0); [reflexivity | lia].
  - split; [intros H; lia|]. intros _. eexists. reflexivity.
Qed.

Lemma failed_bind_leaves_server_off_witness :
  prometheus_master_cycle starts_with_memcmp
    (fst (prometheus_server_init (fun _ _ _ => (-1)%Z) (fun _ _ _ _ => 6%Z)
            {| master_process := true; listen_queue := 100; chmod_socket := 0;
               abstract_socket := 0 |} bound))
    demo_registry two_waiting
  = (Some tt, two_waiting).
Proof.
  refine (proj2 (proj1 (@failed_bind_leaves_server_off starts_with_memcmp
                          (fun _ _ _ => (-1)%Z) (fun _ _ _ _ => 6%Z)
                          {| master_process := true; listen_queue := 100;
                             chmod_socket := 0; abstract_socket := 0 |}
                          bound (txt ":9091") demo_registry two_waiting eq_refl) _)).
  cbn. lia.
Defined.
